(** * page-to-markdown: the conversion pipeline of [functions/readability.ts]
      and the clipboard assembly of [content-script.ts]

    The development embeds the TypeScript sources shallowly:

    - JavaScript strings are sequences of UTF-16 code units ([list N]);
    - the regular expressions of [convertHtmlToMarkdown] are terms of a small
      regex syntax, run by a backtracking matcher that follows the priority
      order of ECMAScript (greedy and lazy quantifiers, alternation, capture
      groups, the [i] and [s] flags);
    - exceptions are completions ([Normal] / [Throw]) with an explicit
      [try_catch];
    - the DOM, the Readability library and the clipboard are collaborators,
      taken as fields of records or section variables. *)

From Stdlib Require Import Ascii String.
From Stdlib Require Import List NArith ZArith Bool Arith Lia.
From Stdlib Require DecimalNat DecimalFacts.
Import ListNotations.

(* ================================================================== *)
(** * JavaScript strings *)
(* ================================================================== *)

Module JS.

(** A string is its sequence of UTF-16 code units. *)
Definition char16 := N.
Definition jsstring := list char16.

Definition LF : char16 := 10%N.
Definition CR : char16 := 13%N.

(** ** String literals

    [js "..."] reads a literal the way the TypeScript source spells it: the
    bytes of the Rocq string are decoded from UTF-8 to UTF-16 and the escape
    [\n] stands for a line feed. *)

Fixpoint utf16_of_utf8 (bs : list N) : jsstring :=
  match bs with
  | [] => []
  | b0 :: t0 =>
      if (b0 <? 128)%N then b0 :: utf16_of_utf8 t0
      else if (b0 <? 224)%N then
        match t0 with
        | b1 :: t1 =>
            ((b0 - 192) * 64 + (b1 - 128))%N :: utf16_of_utf8 t1
        | [] => []
        end
      else if (b0 <? 240)%N then
        match t0 with
        | b1 :: b2 :: t2 =>
            ((b0 - 224) * 4096 + (b1 - 128) * 64 + (b2 - 128))%N
              :: utf16_of_utf8 t2
        | _ => []
        end
      else
        match t0 with
        | b1 :: b2 :: b3 :: t3 =>
            let cp := ((b0 - 240) * 262144 + (b1 - 128) * 4096
                       + (b2 - 128) * 64 + (b3 - 128))%N in
            let v := (cp - 65536)%N in
            (55296 + v / 1024)%N :: (56320 + v mod 1024)%N :: utf16_of_utf8 t3
        | _ => []
        end
  end.

Fixpoint unescape (s : jsstring) : jsstring :=
  match s with
  | [] => []
  | 92%N :: 110%N :: t => LF :: unescape t
  | c :: t => c :: unescape t
  end.

Definition js (s : string) : jsstring :=
  unescape (utf16_of_utf8 (map N_of_ascii (list_ascii_of_string s))).

Arguments js s%_string.

(** ** White space

    [String.prototype.trim] and the regex class [\s] use the same set:
    WhiteSpace and LineTerminator code points. *)

Definition isLineTerminator (c : char16) : bool :=
  (c =? 10)%N || (c =? 13)%N || (c =? 8232)%N || (c =? 8233)%N.

Definition isWhiteSpace (c : char16) : bool :=
  (c =? 9)%N || (c =? 10)%N || (c =? 11)%N || (c =? 12)%N || (c =? 13)%N
  || (c =? 32)%N || (c =? 160)%N || (c =? 5760)%N
  || ((8192 <=? c)%N && (c <=? 8202)%N)
  || (c =? 8232)%N || (c =? 8233)%N || (c =? 8239)%N || (c =? 8287)%N
  || (c =? 12288)%N || (c =? 65279)%N.

Fixpoint trimStart (s : jsstring) : jsstring :=
  match s with
  | c :: t => if isWhiteSpace c then trimStart t else s
  | [] => []
  end.

Definition trimEnd (s : jsstring) : jsstring := rev (trimStart (rev s)).

Definition trim (s : jsstring) : jsstring := trimEnd (trimStart s).

(** ** [String.prototype.includes] *)

Fixpoint startsWith (s pat : jsstring) : bool :=
  match pat, s with
  | [], _ => true
  | p :: pat', c :: s' => (c =? p)%N && startsWith s' pat'
  | _ :: _, [] => false
  end.

Fixpoint includes (s pat : jsstring) : bool :=
  startsWith s pat ||
  match s with
  | [] => false
  | _ :: s' => includes s' pat
  end.

(** ** [Array.prototype.join] *)

Fixpoint join (sep : jsstring) (parts : list jsstring) : jsstring :=
  match parts with
  | [] => []
  | [p] => p
  | p :: rest => p ++ sep ++ join sep rest
  end.

(** ** Number to string, for the positive integers of a template literal *)

Fixpoint digits (u : Decimal.uint) : jsstring :=
  match u with
  | Decimal.Nil => []
  | Decimal.D0 u' => 48%N :: digits u'
  | Decimal.D1 u' => 49%N :: digits u'
  | Decimal.D2 u' => 50%N :: digits u'
  | Decimal.D3 u' => 51%N :: digits u'
  | Decimal.D4 u' => 52%N :: digits u'
  | Decimal.D5 u' => 53%N :: digits u'
  | Decimal.D6 u' => 54%N :: digits u'
  | Decimal.D7 u' => 55%N :: digits u'
  | Decimal.D8 u' => 56%N :: digits u'
  | Decimal.D9 u' => 57%N :: digits u'
  end.

Definition numberToString (n : nat) : jsstring := digits (Nat.to_uint n).

(** ** Truthiness of a string: the empty string is falsy. *)

Definition truthy (s : jsstring) : bool :=
  match s with [] => false | _ :: _ => true end.

(** ** Completions: a value, or a thrown value

    The only thing the program inspects of a thrown value is whether it is
    an [Error] instance and, if so, its [message]. *)

Inductive Thrown : Type :=
| ErrorObject (message : jsstring)
| NonError.

Inductive Completion (A : Type) : Type :=
| Normal (a : A)
| Throw (e : Thrown).

Arguments Normal {A} a.
Arguments Throw {A} e.

Definition bind {A B} (m : Completion A) (k : A -> Completion B)
  : Completion B :=
  match m with
  | Normal a => k a
  | Throw e => Throw e
  end.

Definition try_catch {A} (body : Completion A) (handler : Thrown -> Completion A)
  : Completion A :=
  match body with
  | Normal a => Normal a
  | Throw e => handler e
  end.

End JS.

Import JS.

Declare Scope js_scope.
Delimit Scope js_scope with js.
Notation "x <- m ;; k" := (bind m (fun x => k))
  (at level 61, m at next level, right associativity) : js_scope.
Open Scope js_scope.

(* ================================================================== *)
(** * Regular expressions *)
(* ================================================================== *)

(** The fragment of ECMAScript regular expressions that
    [convertHtmlToMarkdown] uses: single-character atoms (a literal, a class
    [[...]] or [[^...]], [.], [\s]), the quantifiers [*], [+] and [*?] on
    such atoms, concatenation, alternation and capture groups, under the
    flags [i] and [s].  Every expression of the program is used with the
    flag [g], through [String.prototype.replace]. *)

Module RegExp.

Record Flags : Type := { ignoreCase : bool; dotAll : bool }.

Inductive CharSet : Type :=
| Lit (c : char16)
| Class (invert : bool) (members : list char16)
| Dot
| Space.

Inductive Regex : Type :=
| Empty
| Atom (cs : CharSet)
| Star (cs : CharSet)
| Plus (cs : CharSet)
| LazyStar (cs : CharSet)
| Seq (r1 r2 : Regex)
| Alt (r1 r2 : Regex)
| Group (n : nat) (r : Regex).

(** [Canonicalize] of the specification, without the [u] flag: a code unit
    is compared through its upper-case form.  Only the ASCII letters are
    folded here; since ECMAScript never folds a code unit above 127 to one
    below 128, this is exact whenever the pattern side is ASCII, which it is
    for every expression of the program. *)
Definition Canonicalize (fl : Flags) (c : char16) : char16 :=
  if ignoreCase fl
  then if ((97 <=? c) && (c <=? 122))%N then (c - 32)%N else c
  else c.

Definition charMatches (fl : Flags) (cs : CharSet) (c : char16) : bool :=
  match cs with
  | Lit p => (Canonicalize fl c =? Canonicalize fl p)%N
  | Class invert members =>
      xorb invert
        (existsb (fun m => (Canonicalize fl m =? Canonicalize fl c)%N) members)
  | Dot => dotAll fl || negb (isLineTerminator c)
  | Space => isWhiteSpace c
  end.

(** ** The backtracking matcher

    A matcher takes the continuation that must accept what follows, as in
    the specification of ECMAScript; alternatives are tried in priority
    order and the first success is the result. *)

Record MatchState : Type :=
  { rest : jsstring; caps : list (nat * jsstring) }.

Definition Continuation := MatchState -> option MatchState.

Definition consumed (before after : jsstring) : jsstring :=
  firstn (length before - length after) before.

Fixpoint repeatGreedy (p : char16 -> bool) (k : Continuation)
    (cs : list (nat * jsstring)) (s : jsstring) : option MatchState :=
  match s with
  | c :: s' =>
      if p c then
        match repeatGreedy p k cs s' with
        | Some y => Some y
        | None => k {| rest := s; caps := cs |}
        end
      else k {| rest := s; caps := cs |}
  | [] => k {| rest := []; caps := cs |}
  end.

Fixpoint repeatLazy (p : char16 -> bool) (k : Continuation)
    (cs : list (nat * jsstring)) (s : jsstring) : option MatchState :=
  match k {| rest := s; caps := cs |} with
  | Some y => Some y
  | None =>
      match s with
      | c :: s' => if p c then repeatLazy p k cs s' else None
      | [] => None
      end
  end.

Fixpoint matcher (fl : Flags) (r : Regex) (k : Continuation) (x : MatchState)
  : option MatchState :=
  match r with
  | Empty => k x
  | Atom cs =>
      match rest x with
      | c :: s' =>
          if charMatches fl cs c then k {| rest := s'; caps := caps x |}
          else None
      | [] => None
      end
  | Star cs => repeatGreedy (charMatches fl cs) k (caps x) (rest x)
  | Plus cs =>
      match rest x with
      | c :: s' =>
          if charMatches fl cs c
          then repeatGreedy (charMatches fl cs) k (caps x) s'
          else None
      | [] => None
      end
  | LazyStar cs => repeatLazy (charMatches fl cs) k (caps x) (rest x)
  | Seq r1 r2 => matcher fl r1 (matcher fl r2 k) x
  | Alt r1 r2 =>
      match matcher fl r1 k x with
      | Some y => Some y
      | None => matcher fl r2 k x
      end
  | Group n r1 =>
      matcher fl r1
        (fun y =>
           k {| rest := rest y;
                caps := (n, consumed (rest x) (rest y)) :: caps y |})
        x
  end.

Fixpoint groupCount (r : Regex) : nat :=
  match r with
  | Seq r1 r2 | Alt r1 r2 => groupCount r1 + groupCount r2
  | Group _ r1 => S (groupCount r1)
  | _ => 0
  end.

(** ** Building expressions *)

Fixpoint cat (rs : list Regex) : Regex :=
  match rs with
  | [] => Empty
  | [r] => r
  | r :: rs' => Seq r (cat rs')
  end.

Definition text (s : string) : Regex :=
  cat (map (fun c => Atom (Lit c)) (js s)).

Record RegExp : Type := { source : Regex; flags : Flags }.

Definition re_g (r : Regex) : RegExp :=
  {| source := r; flags := {| ignoreCase := false; dotAll := false |} |}.
Definition re_gi (r : Regex) : RegExp :=
  {| source := r; flags := {| ignoreCase := true; dotAll := false |} |}.
Definition re_gis (r : Regex) : RegExp :=
  {| source := r; flags := {| ignoreCase := true; dotAll := true |} |}.

(** ** One match at the start of a string *)

Record MatchResult : Type :=
  { matched : jsstring; captures : list (nat * jsstring) }.

Fixpoint lookup (n : nat) (cs : list (nat * jsstring)) : option jsstring :=
  match cs with
  | [] => None
  | (m, v) :: cs' => if Nat.eqb m n then Some v else lookup n cs'
  end.

(** A capture that took no part in the match reads as the empty string. *)
Definition capture (mr : MatchResult) (n : nat) : jsstring :=
  match lookup n (captures mr) with
  | Some v => v
  | None => []
  end.

Definition matchAt (re : RegExp) (s : jsstring) : option MatchResult :=
  match matcher (flags re) (source re) (fun y => Some y)
          {| rest := s; caps := [] |} with
  | Some y => Some {| matched := consumed s (rest y); captures := caps y |}
  | None => None
  end.

(** ** [String.prototype.replace] with a global expression

    The scan tries the expression at each index from the left; a match is
    replaced and the scan resumes behind it (one code unit further when the
    match is empty).  The replacer is called once per match, in order, so a
    replacer that keeps a counter is a function of a threaded state [St].
    [skip] counts the code units of the current match still to be dropped. *)

Section Replace.
Variable St : Type.
Variable re : RegExp.
Variable replacer : St -> MatchResult -> jsstring * St.

Fixpoint replaceFrom (st : St) (skip : nat) (s : jsstring) : jsstring :=
  match skip with
  | S n =>
      match s with
      | [] => []
      | _ :: s' => replaceFrom st n s'
      end
  | O =>
      match matchAt re s with
      | Some mr =>
          let (out, st') := replacer st mr in
          match s with
          | [] => out
          | c :: s' =>
              match length (matched mr) with
              | O => out ++ c :: replaceFrom st' 0 s'
              | S n => out ++ replaceFrom st' n s'
              end
          end
      | None =>
          match s with
          | [] => []
          | c :: s' => c :: replaceFrom st 0 s'
          end
      end
  end.
End Replace.

Arguments replaceFrom {St} re replacer st skip s.

(** [GetSubstitution]: the replacement template of [replace] when it is a
    string.  [$$] is a dollar sign, [$&] the matched text, [$n] and [$nn] the
    capture of that number when the expression has that many groups (two
    digits fall back to one when the number is too large); anything else
    stays as written.  The forms that need the text around the match or
    named groups are not interpreted; the templates of the program use [$1]
    and [$2] only. *)
Definition isDigit (d : char16) : bool := ((48 <=? d) && (d <=? 57))%N.

Definition digitValue (d : char16) : nat := N.to_nat (d - 48).

Fixpoint GetSubstitution (m : nat) (mr : MatchResult) (template : jsstring)
  : jsstring :=
  match template with
  | [] => []
  | c :: t =>
      if negb (c =? 36)%N then c :: GetSubstitution m mr t
      else
        match t with
        | [] => [c]
        | d :: t' =>
            if (d =? 36)%N then 36%N :: GetSubstitution m mr t'
            else if (d =? 38)%N then matched mr ++ GetSubstitution m mr t'
            else if isDigit d then
              let one :=
                if (1 <=? digitValue d) && (digitValue d <=? m)
                then capture mr (digitValue d) ++ GetSubstitution m mr t'
                else c :: d :: GetSubstitution m mr t' in
              match t' with
              | d2 :: t'' =>
                  if isDigit d2 then
                    let index := 10 * digitValue d + digitValue d2 in
                    if index <=? m then
                      if 1 <=? index
                      then capture mr index ++ GetSubstitution m mr t''
                      else c :: d :: d2 :: GetSubstitution m mr t''
                    else one
                  else one
              | [] => one
              end
            else c :: GetSubstitution m mr t
        end
  end.

(** [s.replace(re, "template")] *)
Definition replaceTemplate (re : RegExp) (template : jsstring) (s : jsstring)
  : jsstring :=
  replaceFrom re
    (fun (_ : unit) mr =>
       (GetSubstitution (groupCount (source re)) mr template, tt))
    tt 0 s.

(** [s.replace(re, (match, p1, ...) => ...)] with a replacer that keeps no
    state: its result is inserted as it is, no [$] is interpreted. *)
Definition replaceFunction (re : RegExp) (f : MatchResult -> jsstring)
    (s : jsstring) : jsstring :=
  replaceFrom re (fun (_ : unit) mr => (f mr, tt)) tt 0 s.

End RegExp.

Import RegExp.

Notation "s |> f" := (f s) (at level 65, left associativity, only parsing).

(* ================================================================== *)
(** * [functions/readability.ts] *)
(* ================================================================== *)

(** The expressions of [convertHtmlToMarkdown].  In the comments that quote
    the source, [Q] stands for the two quote characters (code units 34 and
    39) where the source writes them inside a class, and a blank separates a
    star from a closing parenthesis. *)

Definition NOT_GT : CharSet := Class true (js ">").
Definition QUOTE : CharSet := Class false [34%N; 39%N].
Definition NOT_QUOTE : CharSet := Class true [34%N; 39%N].

(** [/<hN[^>]*>(.*?)<\/hN>/gi] *)
Definition RE_HEADING (tag : string) : RegExp :=
  re_gi (cat [text "<"; text tag; Star NOT_GT; text ">";
              Group 1 (LazyStar Dot); text "</"; text tag; text ">"]).

(** [/<p[^>]*>(.*?)<\/p>/gi] *)
Definition RE_P : RegExp :=
  re_gi (cat [text "<p"; Star NOT_GT; text ">";
              Group 1 (LazyStar Dot); text "</p>"]).

(** [/<(strong|b)[^>]*>(.*?)<\/(strong|b)>/gi] *)
Definition RE_STRONG : RegExp :=
  re_gi (cat [text "<"; Group 1 (Alt (text "strong") (text "b"));
              Star NOT_GT; text ">"; Group 2 (LazyStar Dot); text "</";
              Group 3 (Alt (text "strong") (text "b")); text ">"]).

(** [/<(em|i)[^>]*>(.*?)<\/(em|i)>/gi] *)
Definition RE_EM : RegExp :=
  re_gi (cat [text "<"; Group 1 (Alt (text "em") (text "i"));
              Star NOT_GT; text ">"; Group 2 (LazyStar Dot); text "</";
              Group 3 (Alt (text "em") (text "i")); text ">"]).

(** [/<code[^>]*>(.*?)<\/code>/gi] *)
Definition RE_CODE : RegExp :=
  re_gi (cat [text "<code"; Star NOT_GT; text ">";
              Group 1 (LazyStar Dot); text "</code>"]).

(** [/<pre[^>]*>(.*?)<\/pre>/gi] *)
Definition RE_PRE : RegExp :=
  re_gi (cat [text "<pre"; Star NOT_GT; text ">";
              Group 1 (LazyStar Dot); text "</pre>"]).

(** [/<a[^>]*href=[Q]([^Q]* )[Q][^>]*>(.*?)<\/a>/gi] *)
Definition RE_A : RegExp :=
  re_gi (cat [text "<a"; Star NOT_GT; text "href="; Atom QUOTE;
              Group 1 (Star NOT_QUOTE); Atom QUOTE; Star NOT_GT; text ">";
              Group 2 (LazyStar Dot); text "</a>"]).

(** [/<img[^>]*src=[Q]([^Q]* )[Q][^>]*alt=[Q]([^Q]* )[Q][^>]*>/gi] *)
Definition RE_IMG_SRC_ALT : RegExp :=
  re_gi (cat [text "<img"; Star NOT_GT; text "src="; Atom QUOTE;
              Group 1 (Star NOT_QUOTE); Atom QUOTE; Star NOT_GT;
              text "alt="; Atom QUOTE; Group 2 (Star NOT_QUOTE); Atom QUOTE;
              Star NOT_GT; text ">"]).

(** [/<img[^>]*alt=[Q]([^Q]* )[Q][^>]*src=[Q]([^Q]* )[Q][^>]*>/gi] *)
Definition RE_IMG_ALT_SRC : RegExp :=
  re_gi (cat [text "<img"; Star NOT_GT; text "alt="; Atom QUOTE;
              Group 1 (Star NOT_QUOTE); Atom QUOTE; Star NOT_GT;
              text "src="; Atom QUOTE; Group 2 (Star NOT_QUOTE); Atom QUOTE;
              Star NOT_GT; text ">"]).

(** [/<img[^>]*src=[Q]([^Q]* )[Q][^>]*>/gi] *)
Definition RE_IMG_SRC : RegExp :=
  re_gi (cat [text "<img"; Star NOT_GT; text "src="; Atom QUOTE;
              Group 1 (Star NOT_QUOTE); Atom QUOTE; Star NOT_GT; text ">"]).

(** [/<ul[^>]*>(.*?)<\/ul>/gis] *)
Definition RE_UL : RegExp :=
  re_gis (cat [text "<ul"; Star NOT_GT; text ">";
               Group 1 (LazyStar Dot); text "</ul>"]).

(** [/<ol[^>]*>(.*?)<\/ol>/gis] *)
Definition RE_OL : RegExp :=
  re_gis (cat [text "<ol"; Star NOT_GT; text ">";
               Group 1 (LazyStar Dot); text "</ol>"]).

(** [/<li[^>]*>(.*?)<\/li>/gi] *)
Definition RE_LI : RegExp :=
  re_gi (cat [text "<li"; Star NOT_GT; text ">";
              Group 1 (LazyStar Dot); text "</li>"]).

(** [/<br[^>]*>/gi] *)
Definition RE_BR : RegExp := re_gi (cat [text "<br"; Star NOT_GT; text ">"]).

(** [/<[^>]+>/g] *)
Definition RE_TAG : RegExp := re_g (cat [text "<"; Plus NOT_GT; text ">"]).

(** [/&amp;/g] and the other entities *)
Definition RE_ENTITY (name : string) : RegExp := re_g (text name).

(** [/\n\s*\n\s*\n/g] *)
Definition RE_BLANK_LINES : RegExp :=
  re_g (cat [Atom (Lit LF); Star Space; Atom (Lit LF); Star Space;
             Atom (Lit LF)]).

(** The replacer of the [<ul>] pass:
    [content.replace(/<li[^>]*>(.*?)<\/li>/gi, "- $1\n") + "\n"]. *)
Definition ulReplacer (mr : MatchResult) : jsstring :=
  let content := capture mr 1 in
  (content |> replaceTemplate RE_LI (js "- $1\n")) ++ js "\n".

(** The replacer of the [<ol>] pass.  The inner replacer is a function, so
    the string it returns is inserted as it stands:
    [let counter = 1;
     content.replace(/<li[^>]*>(.*?)<\/li>/gi, () => `${counter++}. $1\n`)
       + "\n"]. *)
Definition olItemReplacer (counter : nat) (_ : MatchResult) : jsstring * nat :=
  (numberToString counter ++ js ". $1\n", S counter).

Definition olReplacer (mr : MatchResult) : jsstring :=
  let content := capture mr 1 in
  let counter := 1 in
  replaceFrom RE_LI olItemReplacer counter 0 content ++ js "\n".

Definition convertHtmlToMarkdown (html : jsstring) : jsstring :=
  html
    |> replaceTemplate (RE_HEADING "h1") (js "# $1\n\n")
    |> replaceTemplate (RE_HEADING "h2") (js "## $1\n\n")
    |> replaceTemplate (RE_HEADING "h3") (js "### $1\n\n")
    |> replaceTemplate (RE_HEADING "h4") (js "#### $1\n\n")
    |> replaceTemplate (RE_HEADING "h5") (js "##### $1\n\n")
    |> replaceTemplate (RE_HEADING "h6") (js "###### $1\n\n")
    |> replaceTemplate RE_P (js "$1\n\n")
    |> replaceTemplate RE_STRONG (js "**$2**")
    |> replaceTemplate RE_EM (js "*$2*")
    |> replaceTemplate RE_CODE (js "`$1`")
    |> replaceTemplate RE_PRE (js "```\n$1\n```\n\n")
    |> replaceTemplate RE_A (js "[$2]($1)")
    |> replaceTemplate RE_IMG_SRC_ALT (js "![$2]($1)")
    |> replaceTemplate RE_IMG_ALT_SRC (js "![$1]($2)")
    |> replaceTemplate RE_IMG_SRC (js "![]($1)")
    |> replaceFunction RE_UL ulReplacer
    |> replaceFunction RE_OL olReplacer
    |> replaceTemplate RE_BR (js "\n")
    |> replaceTemplate RE_TAG []
    |> replaceTemplate (RE_ENTITY "&amp;") (js "&")
    |> replaceTemplate (RE_ENTITY "&lt;") (js "<")
    |> replaceTemplate (RE_ENTITY "&gt;") (js ">")
    |> replaceTemplate (RE_ENTITY "&quot;") [34%N]
    |> replaceTemplate (RE_ENTITY "&#39;") (js "'")
    |> replaceTemplate RE_BLANK_LINES (js "\n\n")
    |> trim.

(** ** Data of the pipeline *)

(** [ConvertResult] of [types.ts]: a union tagged by [success]. *)
Inductive ConvertResult : Type :=
| Success (markdown : jsstring)
| Failure (error : jsstring).

(** The object that [Readability.parse] returns; every field may be [null]
    or [undefined], which [None] stands for.  [ReadabilityExtractResult] is
    this object or [null]. *)
Record Article : Type :=
  { title : option jsstring;
    content : option jsstring;
    textContent : option jsstring;
    textLength : option nat;   (* the field [length] *)
    excerpt : option jsstring;
    byline : option jsstring;
    dir : option jsstring }.

Definition ReadabilityExtractResult := option Article.

(** What the program reads of the DOM. *)
Record Element : Type := { outerHTML : jsstring }.

Record Document : Type :=
  { doc_title : jsstring;   (* the field [title] *)
    body : option Element;
    querySelectorAll : jsstring -> Completion (list Element) }.

Record Location : Type := { hostname : jsstring; href : jsstring }.

(** The ambient environment: [globalThis.location], the collaborator
    [new Readability(new DOMParser().parseFromString(html, "text/html"),
    { charThreshold }).parse()], and the message of the [TypeError] that the
    engine raises when a property of [null] is read. *)
Record Globals : Type :=
  { location : option Location;
    readabilityParse : nat -> jsstring -> Completion ReadabilityExtractResult;
    nullPropertyMessage : jsstring }.

Definition DEFAULT_ERROR_MESSAGE : jsstring := js "ページの変換に失敗しました".
Definition MINIMUM_CHAR_THRESHOLD : nat := 100.
Definition CONTENT_PROPERTY_ERROR : jsstring :=
  js "抽出されたコンテンツにcontentプロパティがありません".
Definition EMPTY_MARKDOWN_ERROR : jsstring := js "変換されたマークダウンが空です".
Definition EXTRACTION_ERROR : jsstring := js "記事内容の抽出に失敗しました".
Definition CLAUDE_AI_DOMAIN : jsstring := js "claude.ai".
Definition CLAUDE_AI_ATTRIBUTE : jsstring := js "data-test-render-count".
Definition SECTION_SEPARATOR : jsstring := js "\n\n---\n\n".
Definition CLAUDE_AI_NO_ELEMENTS_ERROR : jsstring :=
  js "claude.aiで対象要素が見つかりませんでした".

(** [error instanceof Error ? error.message : DEFAULT_ERROR_MESSAGE] *)
Definition errorMessage (fallback : jsstring) (error : Thrown) : jsstring :=
  match error with
  | ErrorObject message => message
  | NonError => fallback
  end.

Section Readability.

Variable globalThis : Globals.

(** [globalThis.location?.hostname.includes(CLAUDE_AI_DOMAIN) ?? false] *)
Definition isClaudeAiSite : bool :=
  match location globalThis with
  | Some loc => includes (hostname loc) CLAUDE_AI_DOMAIN
  | None => false
  end.

Definition extractClaudeAiElements (document : Document)
  : Completion (list Element) :=
  querySelectorAll document (js "[" ++ CLAUDE_AI_ATTRIBUTE ++ js "]").

Definition extractPageContent (html : jsstring)
  : Completion ReadabilityExtractResult :=
  try_catch
    (readabilityParse globalThis MINIMUM_CHAR_THRESHOLD html)
    (fun _ => Normal None).

Definition convertToMarkdown (extractedContent : ReadabilityExtractResult)
  : Completion jsstring :=
  match extractedContent with
  | None => Throw (ErrorObject EXTRACTION_ERROR)
  | Some article =>
      match content article with
      | None => Throw (ErrorObject CONTENT_PROPERTY_ERROR)
      | Some c =>
          if negb (truthy c) || negb (truthy (trim c))
          then Throw (ErrorObject CONTENT_PROPERTY_ERROR)
          else Normal (convertHtmlToMarkdown c)
      end
  end.

Definition convertElementToMarkdown (element : Element)
  : Completion (option jsstring) :=
  try_catch
    (extracted <- extractPageContent (outerHTML element) ;;
     match extracted with
     | None => Normal None
     | Some _ =>
         markdown <- convertToMarkdown extracted ;;
         Normal (Some markdown)
     end)
    (fun _ => Normal None).

(** The [for] loop of [convertElementsToMarkdownSections]; the accumulator is
    the array [markdownSections], [push] appends at its end. *)
Fixpoint pushSections (markdownSections : list jsstring)
    (elements : list Element) : Completion (list jsstring) :=
  match elements with
  | [] => Normal markdownSections
  | element :: elements' =>
      markdown <- convertElementToMarkdown element ;;
      match markdown with
      | Some md =>
          if truthy md && truthy (trim md)
          then pushSections (markdownSections ++ [trim md]) elements'
          else pushSections markdownSections elements'
      | None => pushSections markdownSections elements'
      end
  end.

Definition convertElementsToMarkdownSections (elements : list Element)
  : Completion (list jsstring) :=
  pushSections [] elements.

Definition combineMarkdownSections (sections : list jsstring) : jsstring :=
  join SECTION_SEPARATOR sections.

(** The [try] block of [processClaudeAiPage]. *)
Definition processClaudeAiPage_try (document : Document)
  : Completion ConvertResult :=
  elements <- extractClaudeAiElements document ;;
  if Nat.eqb (length elements) 0
  then Normal (Failure CLAUDE_AI_NO_ELEMENTS_ERROR)
  else
    markdownSections <- convertElementsToMarkdownSections elements ;;
    if Nat.eqb (length markdownSections) 0
    then Normal (Failure EMPTY_MARKDOWN_ERROR)
    else
      let combinedMarkdown := combineMarkdownSections markdownSections in
      Normal (Success combinedMarkdown).

Definition catchAsFailure (error : Thrown) : Completion ConvertResult :=
  Normal (Failure (errorMessage DEFAULT_ERROR_MESSAGE error)).

Definition processClaudeAiPage (document : Document)
  : Completion ConvertResult :=
  try_catch (processClaudeAiPage_try document) catchAsFailure.

(** [document.body.outerHTML]: reading a property of a [null] body raises a
    [TypeError]. *)
Definition bodyOuterHTML (document : Document) : Completion jsstring :=
  match body document with
  | Some b => Normal (outerHTML b)
  | None => Throw (ErrorObject (nullPropertyMessage globalThis))
  end.

(** The [try] block of [convertPageToMarkdown]. *)
Definition convertPageToMarkdown_try (document : Document)
  : Completion ConvertResult :=
  html <- bodyOuterHTML document ;;
  extracted <- extractPageContent html ;;
  match extracted with
  | None => Normal (Failure EXTRACTION_ERROR)
  | Some _ =>
      markdown <- convertToMarkdown extracted ;;
      if negb (truthy (trim markdown))
      then Normal (Failure EMPTY_MARKDOWN_ERROR)
      else Normal (Success markdown)
  end.

Definition convertPageToMarkdown (document : Document)
  : Completion ConvertResult :=
  if isClaudeAiSite
  then processClaudeAiPage document
  else try_catch (convertPageToMarkdown_try document) catchAsFailure.

End Readability.

(* ================================================================== *)
(** * [content-script.ts] *)
(* ================================================================== *)

Module ContentScript.

Definition ERROR_CONVERT_PREFIX : jsstring := js "変換エラー:".
Definition ERROR_CLIPBOARD_COPY : jsstring :=
  js "クリップボードへのコピーに失敗しました".
Definition ERROR_UNEXPECTED : jsstring := js "予期しないエラーが発生しました".
Definition ERROR_PREFIX : jsstring := js "エラー:".
Definition SUCCESS_COPY_MESSAGE : jsstring :=
  js "マークダウンをクリップボードにコピーしました".
Definition MARKDOWN_SEPARATOR : jsstring := js "\n\n---\n\n".

(** What the script calls of the outside, in order. *)
Inductive Effect : Type :=
| CopyToClipboard (text : jsstring)
| ShowErrorToast (message : jsstring)
| ShowSuccessToast (message : jsstring).

(** A run of the [async] function: the calls it makes, in order, and how
    its promise settles. *)
Definition Run : Type := (list Effect * Completion unit)%type.

Section Script.

Variable globalThis : Globals.
Variable document : Document.

(** The function imported from [./functions/readability.ts]. *)
Variable convertPageToMarkdown : Document -> Completion ConvertResult.

(** The outcome of [await copyToClipboard(text)]: the promise resolves to a
    boolean or rejects. *)
Variable copyToClipboard : jsstring -> Completion bool.

(** The two functions imported from [./functions/toast.ts]: a call returns
    or raises, as [document.body.appendChild(toast)] does in [showToast] on
    a document without a body. *)
Variable showErrorToast : jsstring -> Completion unit.
Variable showSuccessToast : jsstring -> Completion unit.

(** [a || b] on strings *)
Definition orElse (a b : jsstring) : jsstring := if truthy a then a else b.

Definition createMarkdownHeader : jsstring :=
  let title := orElse (doc_title document) (js "無題") in
  let url :=
    orElse (match location globalThis with
            | Some loc => href loc
            | None => []
            end) [] in
  js "# " ++ title ++ js "\n\nURL: " ++ url.

(** The [catch] block: its toast is the last call, and the promise settles
    as that call ends. *)
Definition catchBlock (error : Thrown) : Run :=
  let message :=
    ERROR_PREFIX ++ js " " ++ errorMessage ERROR_UNEXPECTED error in
  ([ShowErrorToast message], showErrorToast message).

(** A toast called in the [try] block, before [return] or the end of the
    block: when the call raises, the [catch] block runs. *)
Definition toastInTry (toast : Effect) (outcome : Completion unit) : Run :=
  match outcome with
  | Normal _ => ([toast], Normal tt)
  | Throw error =>
      let '(calls, settled) := catchBlock error in (toast :: calls, settled)
  end.

Definition handleConvertToMarkdown : Run :=
  match convertPageToMarkdown document with
  | Normal (Failure error) =>
      let message := ERROR_CONVERT_PREFIX ++ js " " ++ error in
      toastInTry (ShowErrorToast message) (showErrorToast message)
  | Normal (Success markdown) =>
      let header := createMarkdownHeader in
      let finalMarkdown := header ++ MARKDOWN_SEPARATOR ++ markdown in
      let '(calls, settled) :=
        match copyToClipboard finalMarkdown with
        | Normal false =>
            toastInTry (ShowErrorToast ERROR_CLIPBOARD_COPY)
              (showErrorToast ERROR_CLIPBOARD_COPY)
        | Normal true =>
            toastInTry (ShowSuccessToast SUCCESS_COPY_MESSAGE)
              (showSuccessToast SUCCESS_COPY_MESSAGE)
        | Throw error => catchBlock error
        end in
      (CopyToClipboard finalMarkdown :: calls, settled)
  | Throw error => catchBlock error
  end.

End Script.

End ContentScript.

(* ================================================================== *)
(** * Notions used to state the properties *)
(* ================================================================== *)

(** ** Fragments of the site-specific path

    What becomes of one marker element, told from the collaborator's answer:
    it fails when extraction raises or returns [null], when the [content] of
    the article is missing or blank (the render raises), or when the rendered
    text is blank; otherwise it survives as its trimmed rendered text. *)

Section Fragments.

Variable globalThis : Globals.

Definition parseOf (e : Element) : Completion ReadabilityExtractResult :=
  readabilityParse globalThis MINIMUM_CHAR_THRESHOLD (outerHTML e).

Inductive Fails (e : Element) : Prop :=
| fails_exception (error : Thrown) :
    parseOf e = Throw error -> Fails e
| fails_null :
    parseOf e = Normal None -> Fails e
| fails_no_content (article : Article) :
    parseOf e = Normal (Some article) ->
    content article = None -> Fails e
| fails_blank_content (article : Article) (c : jsstring) :
    parseOf e = Normal (Some article) ->
    content article = Some c -> trim c = [] -> Fails e
| fails_blank_render (article : Article) (c : jsstring) :
    parseOf e = Normal (Some article) ->
    content article = Some c -> trim c <> [] ->
    trim (convertHtmlToMarkdown c) = [] -> Fails e.

Inductive Survives (e : Element) (fragment : jsstring) : Prop :=
| survives (article : Article) (c : jsstring) :
    parseOf e = Normal (Some article) ->
    content article = Some c -> trim c <> [] ->
    fragment = trim (convertHtmlToMarkdown c) -> fragment <> [] ->
    Survives e fragment.

(** [Outcomes elements m fragments]: of the elements, in order, [m] fail and
    the others survive as [fragments]. *)
Inductive Outcomes : list Element -> nat -> list jsstring -> Prop :=
| outcomes_nil : Outcomes [] 0 []
| outcomes_fail e es m fs :
    Fails e -> Outcomes es m fs -> Outcomes (e :: es) (S m) fs
| outcomes_survive e f es m fs :
    Survives e f -> Outcomes es m fs -> Outcomes (e :: es) m (f :: fs).

(** What the loop pushes for one element. *)
Definition sectionOf (e : Element) : list jsstring :=
  match convertElementToMarkdown globalThis e with
  | Normal (Some md) => if truthy md && truthy (trim md) then [trim md] else []
  | _ => []
  end.

End Fragments.

(** ** Fixtures, after [tests/readability.test.ts] *)

Definition setupLocationEnvironment (host : jsstring)
    (parse : nat -> jsstring -> Completion ReadabilityExtractResult)
  : Globals :=
  {| location := Some {| hostname := host; href := js "https://" ++ host |};
     readabilityParse := parse;
     nullPropertyMessage := js "Cannot read properties of null" |}.

Definition createTestDocument (html : jsstring) (marked : list jsstring)
  : Document :=
  {| doc_title := js "Test";
     body := Some {| outerHTML := html |};
     querySelectorAll := fun selector =>
       if includes selector (js "data-test-render-count")
       then Normal (map (fun h => {| outerHTML := h |}) marked)
       else Normal [] |}.

Definition articleOf (c : option jsstring) : Article :=
  {| title := None; content := c; textContent := None; textLength := None;
     excerpt := None; byline := None; dir := None |}.

(** A stand-in for the extraction library: markup shorter than three code
    units is rejected with [null], markup that starts with [!] makes the
    library raise, markup that starts with [?] yields an article without
    [content], any other markup is the article's [content]. *)
Definition stubParse (_ : nat) (html : jsstring)
  : Completion ReadabilityExtractResult :=
  if Nat.ltb (length html) 3 then Normal None
  else if startsWith html (js "!") then Throw (ErrorObject (js "parse error"))
  else if startsWith html (js "?") then Normal (Some (articleOf None))
  else Normal (Some (articleOf (Some html))).

Definition genericSite : Globals :=
  setupLocationEnvironment (js "example.com") stubParse.

Definition claudeSite : Globals :=
  setupLocationEnvironment (js "claude.ai") stubParse.

(** A conversation of seven marker elements: two render to text, the others
    fail in the five ways an element can fail. *)
Definition conversation : list jsstring :=
  [js "<h2>Q</h2>"; js "<p></p>"; js "!raise"; js "ab"; js "    ";
   js "?no content"; js "<p>A</p>"].

Definition bodylessDocument : Document :=
  {| doc_title := js "Test";
     body := None;
     querySelectorAll := fun _ => Throw NonError |}.

Definition untitledDocument : Document :=
  {| doc_title := [];
     body := Some {| outerHTML := js "<p>Hello</p>" |};
     querySelectorAll := fun _ => Normal [] |}.

(** ** Plain text, as the renderer sees it *)

(** [anywhere P s]: [P] holds of [s] from some index on. *)
Fixpoint anywhere (P : jsstring -> bool) (s : jsstring) : bool :=
  P s ||
  match s with
  | [] => false
  | _ :: s' => anywhere P s'
  end.

(** A raw tag starts here: [<], one or more code units other than [>],
    then [>]. *)
Definition startsTag (s : jsstring) : bool :=
  match s with
  | c :: d :: s' => (c =? 60)%N && negb (d =? 62)%N && existsb (N.eqb 62) s'
  | _ => false
  end.

Definition hasTag (s : jsstring) : bool := anywhere startsTag s.

(** [needLF s n]: [s] holds [n] line feeds before any code unit that is no
    white space. *)
Fixpoint needLF (s : jsstring) (n : nat) : bool :=
  match s with
  | [] => match n with 0 => true | S _ => false end
  | c :: s' =>
      match n with
      | 0 => true
      | S n' =>
          if (c =? LF)%N then needLF s' n'
          else if isWhiteSpace c then needLF s' n
          else false
      end
  end.

(** A line feed that is followed, through white space only, by two further
    line feeds. *)
Definition startsBlankLines (s : jsstring) : bool :=
  match s with
  | c :: s' => (c =? LF)%N && needLF s' 2
  | [] => false
  end.

Definition hasBlankLines (s : jsstring) : bool := anywhere startsBlankLines s.

(** ** The language of an expression *)

Fixpoint accepts (fl : Flags) (r : Regex) (w : jsstring) : Prop :=
  match r with
  | Empty => w = []
  | Atom cs => exists c, w = [c] /\ charMatches fl cs c = true
  | Star cs | LazyStar cs => forallb (charMatches fl cs) w = true
  | Plus cs =>
      exists c w', w = c :: w' /\ charMatches fl cs c = true /\
                   forallb (charMatches fl cs) w' = true
  | Seq r1 r2 =>
      exists w1 w2, w = w1 ++ w2 /\ accepts fl r1 w1 /\ accepts fl r2 w2
  | Alt r1 r2 => accepts fl r1 w \/ accepts fl r2 w
  | Group _ r1 => accepts fl r1 w
  end.

Definition isLetter (c : char16) : bool :=
  ((65 <=? c) && (c <=? 90))%N || ((97 <=? c) && (c <=? 122))%N.

(** The set is the single code unit [p], under either case rule. *)
Definition onlyChar (cs : CharSet) (p : char16) : bool :=
  match cs with
  | Lit q => (q =? p)%N && negb (isLetter p)
  | _ => false
  end.

Definition isAtom (r : Regex) : bool :=
  match r with Atom _ => true | _ => false end.

(** Every accepted word starts with [p]. *)
Fixpoint firstIs (p : char16) (r : Regex) : bool :=
  match r with
  | Atom cs | Plus cs => onlyChar cs p
  | Seq r1 _ => firstIs p r1
  | Alt r1 r2 => firstIs p r1 && firstIs p r2
  | Group _ r1 => firstIs p r1
  | _ => false
  end.

(** Every accepted word starts with a code unit other than [p]. *)
Fixpoint firstAvoids (fl : Flags) (p : char16) (r : Regex) : bool :=
  match r with
  | Atom cs | Plus cs => negb (charMatches fl cs p)
  | Seq r1 _ => firstAvoids fl p r1
  | Alt r1 r2 => firstAvoids fl p r1 && firstAvoids fl p r2
  | Group _ r1 => firstAvoids fl p r1
  | _ => false
  end.

(** Every accepted word has a second code unit, other than [p]. *)
Fixpoint secondAvoids (fl : Flags) (p : char16) (r : Regex) : bool :=
  match r with
  | Seq r1 r2 =>
      if isAtom r1 then firstAvoids fl p r2 else secondAvoids fl p r1
  | Alt r1 r2 => secondAvoids fl p r1 && secondAvoids fl p r2
  | Group _ r1 => secondAvoids fl p r1
  | _ => false
  end.

(** Every accepted word holds [p]. *)
Fixpoint contains (p : char16) (r : Regex) : bool :=
  match r with
  | Atom cs | Plus cs => onlyChar cs p
  | Seq r1 r2 => contains p r1 || contains p r2
  | Alt r1 r2 => contains p r1 && contains p r2
  | Group _ r1 => contains p r1
  | _ => false
  end.

Definition caseSensitive : Flags := {| ignoreCase := false; dotAll := false |}.

(** The expression matches raw tags only. *)
Definition tagShaped (re : RegExp) : bool :=
  firstIs 60%N (source re) && secondAvoids (flags re) 62%N (source re)
  && contains 62%N (source re).

(* ================================================================== *)
(** * [functions/clipboard.ts] *)
(* ================================================================== *)

(** The functions of this file only talk to the browser.  A run is the list
    of the browser calls it made, in order, with its completion; which calls
    raise (or reject) and what [execCommand] answers is the browser's
    choice, a field of [Browser]. *)

Module Clipboard.

Inductive Call : Type :=
| WriteText (text : jsstring)            (* navigator.clipboard.writeText *)
| CreateElement (tagName : jsstring)     (* document.createElement *)
| SetValue (value : jsstring)            (* textarea.value = ... *)
| SetStyle (property value : jsstring)   (* textarea.style.... = ... *)
| AppendChild                            (* document.body.appendChild *)
| Focus                                  (* textarea.focus *)
| Select                                 (* textarea.select *)
| ExecCommand (command : jsstring)       (* document.execCommand *)
| RemoveChild.                           (* document.body.removeChild *)

(** [navigator] may be missing altogether (reading it raises), or lack the
    [clipboard] object. *)
Inductive Navigator : Type :=
| NoNavigator (error : Thrown)
| NoClipboard
| HasClipboard.

Record Browser : Type :=
  { navigator : Navigator;
    isSecureContext : bool;
    raises : Call -> option Thrown;
    execCommandResult : bool }.

Definition Run (A : Type) : Type := (list Call * Completion A)%type.

Definition ret {A} (a : A) : Run A := ([], Normal a).

Definition raise {A} (e : Thrown) : Run A := ([], Throw e).

Definition bindRun {A B} (m : Run A) (k : A -> Run B) : Run B :=
  match m with
  | (calls, Normal a) => let (calls', r) := k a in (calls ++ calls', r)
  | (calls, Throw e) => (calls, Throw e)
  end.

Definition tryRun {A} (body : Run A) (handler : Thrown -> Run A) : Run A :=
  match body with
  | (calls, Normal a) => (calls, Normal a)
  | (calls, Throw e) => let (calls', r) := handler e in (calls ++ calls', r)
  end.

Definition TEXTAREA_POSITION_FIXED : jsstring := js "fixed".
Definition TEXTAREA_LEFT_OFFSET : jsstring := js "-999999px".
Definition TEXTAREA_TOP_OFFSET : jsstring := js "-999999px".
Definition COPY_COMMAND : jsstring := js "copy".

Section Functions.

Variable browser : Browser.

Definition call (c : Call) : Run unit :=
  ([c], match raises browser c with
        | Some e => Throw e
        | None => Normal tt
        end).

Definition copyToClipboardFallback (text : jsstring) : Run bool :=
  tryRun
    (bindRun (call (CreateElement (js "textarea"))) (fun _ =>
     bindRun (call (SetValue text)) (fun _ =>
     bindRun (call (SetStyle (js "position") TEXTAREA_POSITION_FIXED)) (fun _ =>
     bindRun (call (SetStyle (js "left") TEXTAREA_LEFT_OFFSET)) (fun _ =>
     bindRun (call (SetStyle (js "top") TEXTAREA_TOP_OFFSET)) (fun _ =>
     bindRun (call AppendChild) (fun _ =>
     bindRun (call Focus) (fun _ =>
     bindRun (call Select) (fun _ =>
     bindRun (call (ExecCommand COPY_COMMAND)) (fun _ =>
     let result := execCommandResult browser in
     bindRun (call RemoveChild) (fun _ =>
     ret result)))))))))))
    (fun _ => ret false).

Definition copyToClipboard (text : jsstring) : Run bool :=
  tryRun
    (match navigator browser with
     | NoNavigator error => raise error
     | NoClipboard => copyToClipboardFallback text
     | HasClipboard =>
         if isSecureContext browser
         then bindRun (call (WriteText text)) (fun _ => ret true)
         else copyToClipboardFallback text
     end)
    (fun _ => copyToClipboardFallback text).

End Functions.

(** The calls of the fallback when none raises. *)
Definition fallbackCalls (text : jsstring) : list Call :=
  [CreateElement (js "textarea"); SetValue text;
   SetStyle (js "position") (js "fixed");
   SetStyle (js "left") (js "-999999px");
   SetStyle (js "top") (js "-999999px");
   AppendChild; Focus; Select; ExecCommand (js "copy"); RemoveChild].

(** The calls of a list made in order, up to the first that raises. *)
Fixpoint runCalls (browser : Browser) (cs : list Call)
  : list Call * option Thrown :=
  match cs with
  | [] => ([], None)
  | c :: cs' =>
      match raises browser c with
      | Some e => ([c], Some e)
      | None => let (made, r) := runCalls browser cs' in (c :: made, r)
      end
  end.

(** A browser as in [tests/clipboard.test.ts]: the Clipboard API rejects
    when [shouldFail], the DOM calls succeed. *)
Definition mockBrowser (shouldFail : bool) : Browser :=
  {| navigator := HasClipboard;
     isSecureContext := true;
     raises := fun c =>
       match c with
       | WriteText _ =>
           if shouldFail
           then Some (ErrorObject (js "Mock clipboard error"))
           else None
       | _ => None
       end;
     execCommandResult := true |}.

(** A browser whose [execCommand] raises. *)
Definition brokenExecCommand : Browser :=
  {| navigator := NoClipboard;
     isSecureContext := false;
     raises := fun c =>
       match c with
       | ExecCommand _ => Some (ErrorObject (js "not allowed"))
       | _ => None
       end;
     execCommandResult := true |}.

End Clipboard.

(* ================================================================== *)
(** * [background.ts] and the message listener of [content-script.ts] *)
(* ================================================================== *)

(** [ExtensionMessage] of [types.ts]: a union tagged by [type]. *)
Inductive ExtensionMessage : Type :=
| CONVERT_TO_MARKDOWN
| CONVERT_COMPLETE (result : ConvertResult).

Module Background.

Definition ERROR_NO_ACTIVE_TAB : jsstring := js "アクティブなタブが見つかりません".
Definition ERROR_MESSAGE_SEND : jsstring := js "メッセージ送信エラー:".

(** A tab as [chrome.tabs.query] reports it; [id] is optional. *)
Record Tab : Type := { id : option Z }.

(** The two promises of the [chrome] API that the script awaits. *)
Record Chrome : Type :=
  { tabsQuery : Completion (list Tab);
    tabsSendMessage : Z -> ExtensionMessage -> Completion unit }.

Inductive Effect : Type :=
| ConsoleError (message : jsstring) (error : option Thrown)
| SendMessage (tabId : Z) (message : ExtensionMessage).

Section Script.

Variable chrome : Chrome.

(** [!tab?.id]: true without a tab, without an id, and for the id 0. *)
Definition noTabId (tab : option Tab) : bool :=
  match tab with
  | None => true
  | Some t =>
      match id t with
      | None => true
      | Some i => (i =? 0)%Z
      end
  end.

Definition sendMessageToActiveTab (message : ExtensionMessage)
  : list Effect :=
  match tabsQuery chrome with
  | Throw error => [ConsoleError ERROR_MESSAGE_SEND (Some error)]
  | Normal tabs =>
      let tab := hd_error tabs in
      if noTabId tab
      then [ConsoleError ERROR_NO_ACTIVE_TAB None]
      else
        match tab with
        | Some {| id := Some i |} =>
            SendMessage i message ::
            match tabsSendMessage chrome i message with
            | Normal _ => []
            | Throw error => [ConsoleError ERROR_MESSAGE_SEND (Some error)]
            end
        | _ => []
        end
  end.

Definition handleExtensionClick : list Effect :=
  sendMessageToActiveTab CONVERT_TO_MARKDOWN.

End Script.

(** ** Notions used to state the properties *)

Definition isSendMessage (e : Effect) : bool :=
  match e with
  | SendMessage _ _ => true
  | ConsoleError _ _ => false
  end.

(** A browser whose active window reports the given tabs; sending rejects
    when [rejects]. *)
Definition chromeWithTabs (tabs : list Tab) (rejects : bool) : Chrome :=
  {| tabsQuery := Normal tabs;
     tabsSendMessage := fun _ _ =>
       if rejects
       then Throw (ErrorObject (js "Could not establish connection."))
       else Normal tt |}.

End Background.

(** The listener that [setupMessageListener] registers in the content
    script: [if (message.type === "CONVERT_TO_MARKDOWN")
    handleConvertToMarkdown()]. *)
Definition messageListener (globalThis : Globals) (document : Document)
    (convertPageToMarkdown : Document -> Completion ConvertResult)
    (copyToClipboard : jsstring -> Completion bool)
    (showErrorToast showSuccessToast : jsstring -> Completion unit)
    (message : ExtensionMessage) : ContentScript.Run :=
  match message with
  | CONVERT_TO_MARKDOWN =>
      ContentScript.handleConvertToMarkdown globalThis document
        convertPageToMarkdown copyToClipboard showErrorToast showSuccessToast
  | CONVERT_COMPLETE _ => ([], Normal tt)
  end.

(* ================================================================== *)
(** * [functions/toast.ts] *)
(* ================================================================== *)

(** The toast functions change the page and start timers.  A page is what
    they can see and change of it: the elements of [document.head] and of
    [document.body] in document order, and the timers started so far.  An
    element is known by its [serial], which stands for the identity of the
    object; elements are taken without element children. *)

Module Toast.

(** [ToastType] of [types.ts]: ["success" | "error"]. *)
Inductive ToastType : Type := ToastSuccess | ToastError.

(** [ToastOptions] of [types.ts]. *)
Record ToastOptions : Type :=
  { toastType : ToastType;   (* the field [type] *)
    message : jsstring;
    duration : Z }.

Definition TOAST_ID : jsstring := js "page-to-markdown-toast".
Definition DEFAULT_DURATION : Z := 3000.
Definition TOAST_POSITION_TOP : jsstring := js "20px".
Definition TOAST_POSITION_RIGHT : jsstring := js "20px".
Definition TOAST_Z_INDEX : jsstring := js "10000".
Definition TOAST_PADDING : jsstring := js "16px 24px".
Definition TOAST_BORDER_RADIUS : jsstring := js "8px".
Definition TOAST_FONT_SIZE : jsstring := js "14px".
Definition TOAST_MAX_WIDTH : jsstring := js "300px".
Definition SUCCESS_COLOR : jsstring := js "#10b981".
Definition ERROR_COLOR : jsstring := js "#ef4444".
Definition WHITE_COLOR : jsstring := js "white".
Definition BOX_SHADOW : jsstring := js "0 4px 12px rgba(0, 0, 0, 0.15)".
Definition TRANSITION : jsstring := js "all 0.3s cubic-bezier(0.4, 0, 0.2, 1)".
Definition FONT_FAMILY : jsstring :=
  js "-apple-system, BlinkMacSystemFont, 'Segoe UI', Roboto, sans-serif".
Definition FONT_WEIGHT : jsstring := js "500".
Definition ANIMATION_DURATION : jsstring := js "0.3s".
Definition FADE_OUT_DELAY : Z := 200.


Definition STYLE_ID : jsstring := js "page-to-markdown-toast-animations".

Definition createToastStyles (type : ToastType) : jsstring :=
  let baseStyles :=
    js "\n"
    ++ js "    position: fixed;\n"
    ++ js "    top: " ++ TOAST_POSITION_TOP ++ js ";\n"
    ++ js "    right: " ++ TOAST_POSITION_RIGHT ++ js ";\n"
    ++ js "    z-index: " ++ TOAST_Z_INDEX ++ js ";\n"
    ++ js "    padding: " ++ TOAST_PADDING ++ js ";\n"
    ++ js "    border-radius: " ++ TOAST_BORDER_RADIUS ++ js ";\n"
    ++ js "    font-family: " ++ FONT_FAMILY ++ js ";\n"
    ++ js "    font-size: " ++ TOAST_FONT_SIZE ++ js ";\n"
    ++ js "    font-weight: " ++ FONT_WEIGHT ++ js ";\n"
    ++ js "    color: " ++ WHITE_COLOR ++ js ";\n"
    ++ js "    box-shadow: " ++ BOX_SHADOW ++ js ";\n"
    ++ js "    transition: " ++ TRANSITION ++ js ";\n"
    ++ js "    max-width: " ++ TOAST_MAX_WIDTH ++ js ";\n"
    ++ js "    word-wrap: break-word;\n"
    ++ js "    opacity: 0;\n"
    ++ js "    transform: translateX(100%) translateY(-10px);\n"
    ++ js "    animation: slideIn " ++ ANIMATION_DURATION
    ++ js " cubic-bezier(0.4, 0, 0.2, 1) forwards;\n"
    ++ js "  " in
  let typeStyles :=
    match type with
    | ToastSuccess => js "background-color: " ++ SUCCESS_COLOR ++ js ";"
    | ToastError => js "background-color: " ++ ERROR_COLOR ++ js ";"
    end in
  baseStyles ++ typeStyles.

(** The text of the style element of [injectAnimationStyles]. *)
Definition animationStyles : jsstring :=
  js "\n"
  ++ js "    @keyframes slideIn {\n"
  ++ js "      from {\n"
  ++ js "        opacity: 0;\n"
  ++ js "        transform: translateX(100%) translateY(-10px);\n"
  ++ js "      }\n"
  ++ js "      to {\n"
  ++ js "        opacity: 1;\n"
  ++ js "        transform: translateX(0) translateY(0);\n"
  ++ js "      }\n"
  ++ js "    }\n"
  ++ js "    \n"
  ++ js "    @keyframes slideOut {\n"
  ++ js "      from {\n"
  ++ js "        opacity: 1;\n"
  ++ js "        transform: translateX(0) translateY(0);\n"
  ++ js "      }\n"
  ++ js "      to {\n"
  ++ js "        opacity: 0;\n"
  ++ js "        transform: translateX(100%) translateY(-10px);\n"
  ++ js "      }\n"
  ++ js "    }\n"
  ++ js "    \n"
  ++ js "    .toast-fade-out {\n"
  ++ js "      animation: slideOut " ++ ANIMATION_DURATION
  ++ js " cubic-bezier(0.4, 0, 0.2, 1) forwards !important;\n"
  ++ js "    }\n"
  ++ js "  ".

Record Node : Type :=
  { serial : nat;
    tagName : jsstring;
    id : jsstring;
    cssText : jsstring;       (* style.cssText *)
    textContent : jsstring;
    classList : list jsstring }.

(** The two callbacks given to [setTimeout]: the one of [showToast], and the
    one of [removeToastWithAnimation], which holds on to its toast. *)
Inductive TimerHandler : Type :=
| HideCurrentToast
| DetachToast (toast : nat).

Record Page : Type :=
  { head : list Node;
    body : list Node;
    nextSerial : nat;
    timers : list (Z * TimerHandler) }.

(** [===] on strings *)
Fixpoint strictEquals (a b : jsstring) : bool :=
  match a, b with
  | [], [] => true
  | x :: a', y :: b' => (x =? y)%N && strictEquals a' b'
  | _, _ => false
  end.

Definition hasId (i : jsstring) (n : Node) : bool := strictEquals (id n) i.

Definition documentOrder (page : Page) : list Node := head page ++ body page.

Definition getElementById (page : Page) (i : jsstring) : option Node :=
  find (hasId i) (documentOrder page).

(** [node.remove()] *)
Definition remove (node : nat) (page : Page) : Page :=
  {| head := filter (fun n => negb (serial n =? node)) (head page);
     body := filter (fun n => negb (serial n =? node)) (body page);
     nextSerial := nextSerial page;
     timers := timers page |}.


Definition setTimeout (handler : TimerHandler) (delay : Z) (page : Page)
  : Page :=
  {| head := head page;
     body := body page;
     nextSerial := nextSerial page;
     timers := timers page ++ [(delay, handler)] |}.

Definition injectAnimationStyles (page : Page) : Page :=
  let styleId := STYLE_ID in
  match getElementById page styleId with
  | Some _ => page
  | None =>
      let style :=
        {| serial := nextSerial page; tagName := js "style"; id := styleId;
           cssText := []; textContent := animationStyles; classList := [] |} in
      {| head := head page ++ [style];
         body := body page;
         nextSerial := S (nextSerial page);
         timers := timers page |}
  end.

Definition removeExistingToast (page : Page) : Page :=
  match getElementById page TOAST_ID with
  | Some existingToast => remove (serial existingToast) page
  | None => page
  end.



Definition createToastElement (options : ToastOptions) (page : Page)
  : Node :=
  {| serial := nextSerial page; tagName := js "div"; id := TOAST_ID;
     cssText := createToastStyles (toastType options);
     textContent := message options; classList := [] |}.

Definition showToast (options : ToastOptions) (page : Page) : Page :=
  let page1 := injectAnimationStyles page in
  let page2 := removeExistingToast page1 in
  let toast := createToastElement options page2 in
  let page3 :=
    {| head := head page2;
       body := body page2 ++ [toast];
       nextSerial := S (nextSerial page2);
       timers := timers page2 |} in
  setTimeout HideCurrentToast (duration options - FADE_OUT_DELAY) page3.


Definition showSuccessToast (message : jsstring) (duration : option Z)
    (page : Page) : Page :=
  showToast {| toastType := ToastSuccess; message := message;
               duration := match duration with
                           | Some d => d
                           | None => DEFAULT_DURATION
                           end |} page.

Definition showErrorToast (message : jsstring) (duration : option Z)
    (page : Page) : Page :=
  showToast {| toastType := ToastError; message := message;
               duration := match duration with
                           | Some d => d
                           | None => DEFAULT_DURATION
                           end |} page.

(** ** Notions used to state the properties *)








End Toast.

(* ================================================================== *)
(** * [functions/readability.ts], with [@mizchi/readability] *)
(* ================================================================== *)

(** The revision of the conversion under [src/functions]: extraction and
    rendering are both the library's, [extract] and [toMarkdown], and the
    answer of [extract] is used through its [root] only.  The functions
    [extractClaudeAiElements] and [combineMarkdownSections] and the two
    [catch] blocks are those of the other revision, word for word. *)

Module Mizchi.

Definition ROOT_PROPERTY_ERROR : jsstring :=
  js "抽出されたコンテンツにrootプロパティがありません".

Section Library.

(** The nodes that [extract] answers as [root]. *)
Variable Root : Type.

(** The answer of [extract], as far as it is read. *)
Record Extracted : Type := { root : option Root }.

Record Globals : Type :=
  { location : option Location;
    extract : nat -> jsstring -> Completion (option Extracted);
    toMarkdown : Root -> Completion jsstring;
    nullPropertyMessage : jsstring }.

Variable globalThis : Globals.

Definition isClaudeAiSite : bool :=
  match location globalThis with
  | Some loc => includes (hostname loc) CLAUDE_AI_DOMAIN
  | None => false
  end.

Definition extractPageContent (html : jsstring)
  : Completion (option Extracted) :=
  try_catch
    (extract globalThis MINIMUM_CHAR_THRESHOLD html)
    (fun _ => Normal None).

(** [extractedContent.root] raises a [TypeError] on [null]. *)
Definition convertToMarkdown (extractedContent : option Extracted)
  : Completion jsstring :=
  match extractedContent with
  | None => Throw (ErrorObject (nullPropertyMessage globalThis))
  | Some e =>
      match root e with
      | None => Throw (ErrorObject ROOT_PROPERTY_ERROR)
      | Some r => toMarkdown globalThis r
      end
  end.

Definition convertElementToMarkdown (element : Element)
  : Completion (option jsstring) :=
  try_catch
    (extracted <- extractPageContent (outerHTML element) ;;
     match extracted with
     | None => Normal None
     | Some _ =>
         markdown <- convertToMarkdown extracted ;;
         Normal (Some markdown)
     end)
    (fun _ => Normal None).

Fixpoint pushSections (markdownSections : list jsstring)
    (elements : list Element) : Completion (list jsstring) :=
  match elements with
  | [] => Normal markdownSections
  | element :: elements' =>
      markdown <- convertElementToMarkdown element ;;
      match markdown with
      | Some md =>
          if truthy md && truthy (trim md)
          then pushSections (markdownSections ++ [trim md]) elements'
          else pushSections markdownSections elements'
      | None => pushSections markdownSections elements'
      end
  end.

Definition convertElementsToMarkdownSections (elements : list Element)
  : Completion (list jsstring) :=
  pushSections [] elements.

Definition processClaudeAiPage (document : Document)
  : Completion ConvertResult :=
  try_catch
    (elements <- extractClaudeAiElements document ;;
     if Nat.eqb (length elements) 0
     then Normal (Failure CLAUDE_AI_NO_ELEMENTS_ERROR)
     else
       markdownSections <- convertElementsToMarkdownSections elements ;;
       if Nat.eqb (length markdownSections) 0
       then Normal (Failure EMPTY_MARKDOWN_ERROR)
       else
         let combinedMarkdown := combineMarkdownSections markdownSections in
         Normal (Success combinedMarkdown))
    catchAsFailure.

Definition convertPageToMarkdown (document : Document)
  : Completion ConvertResult :=
  if isClaudeAiSite
  then processClaudeAiPage document
  else
    try_catch
      (html <- match body document with
               | Some b => Normal (outerHTML b)
               | None => Throw (ErrorObject (nullPropertyMessage globalThis))
               end ;;
       extracted <- extractPageContent html ;;
       match extracted with
       | None => Normal (Failure EXTRACTION_ERROR)
       | Some _ =>
           markdown <- convertToMarkdown extracted ;;
           if negb (truthy (trim markdown))
           then Normal (Failure EMPTY_MARKDOWN_ERROR)
           else Normal (Success markdown)
       end)
      catchAsFailure.

(** What the loop pushes for one element. *)
Definition sectionOf (e : Element) : list jsstring :=
  match convertElementToMarkdown e with
  | Normal (Some md) => if truthy md && truthy (trim md) then [trim md] else []
  | _ => []
  end.

End Library.

Arguments root {Root}.
Arguments location {Root}.
Arguments extract {Root}.
Arguments toMarkdown {Root}.
Arguments nullPropertyMessage {Root}.
Arguments isClaudeAiSite {Root}.
Arguments extractPageContent {Root}.
Arguments convertToMarkdown {Root}.
Arguments convertElementToMarkdown {Root}.
Arguments pushSections {Root}.
Arguments convertElementsToMarkdownSections {Root}.
Arguments processClaudeAiPage {Root}.
Arguments convertPageToMarkdown {Root}.
Arguments sectionOf {Root}.

(** A stand-in for the library whose nodes are pieces of markup: markup
    shorter than three code units is rejected with [null], markup that
    starts with [?] yields an answer without [root]; [toMarkdown] raises on
    a node that starts with [!] and gives any other node back, with a blank
    before and a line feed after. *)
Definition stubLibrary (host : jsstring) : Globals jsstring :=
  {| location := Some {| hostname := host; href := js "https://" ++ host |};
     extract := fun _ html =>
       if Nat.ltb (length html) 3 then Normal None
       else if startsWith html (js "?") then Normal (Some {| root := None |})
       else Normal (Some {| root := Some html |});
     toMarkdown := fun r =>
       if startsWith r (js "!")
       then Throw (ErrorObject (js "cannot render"))
       else Normal (js " " ++ r ++ js "\n");
     nullPropertyMessage := js "Cannot read properties of null" |}.

End Mizchi.

(* ================================================================== *)
(** * The scripts together *)
(* ================================================================== *)

(** [content-script.ts] with its imports: the conversion of
    [functions/readability.ts] and the write of [functions/clipboard.ts],
    run in a browser, and the two toast functions as the page lets them
    end. *)
Definition contentScript (globalThis : Globals) (browser : Clipboard.Browser)
    (document : Document)
    (showErrorToast showSuccessToast : jsstring -> Completion unit)
  : ContentScript.Run :=
  ContentScript.handleConvertToMarkdown globalThis document
    (convertPageToMarkdown globalThis)
    (fun text => snd (Clipboard.copyToClipboard browser text))
    showErrorToast showSuccessToast.

Definition isToast (e : ContentScript.Effect) : bool :=
  match e with
  | ContentScript.CopyToClipboard _ => false
  | ContentScript.ShowErrorToast _ | ContentScript.ShowSuccessToast _ => true
  end.

(** How the call of a toast ends. *)
Definition callToast (showErrorToast showSuccessToast : jsstring -> Completion unit)
    (e : ContentScript.Effect) : Completion unit :=
  match e with
  | ContentScript.CopyToClipboard _ => Normal tt
  | ContentScript.ShowErrorToast message => showErrorToast message
  | ContentScript.ShowSuccessToast message => showSuccessToast message
  end.

(** The toast functions on a page with a body, and on one without: there
    [document.body.appendChild] raises a [TypeError]. *)
Definition toastShown (message : jsstring) : Completion unit := Normal tt.

Definition toastWithoutBody (message : jsstring) : Completion unit :=
  Throw (ErrorObject
           (js "Cannot read properties of null (reading 'appendChild')")).

(** The text of the toast of the [catch] block. *)
Definition unexpectedErrorToast (error : Thrown) : ContentScript.Effect :=
  ContentScript.ShowErrorToast
    (ContentScript.ERROR_PREFIX ++ js " "
     ++ errorMessage ContentScript.ERROR_UNEXPECTED error).

(** An error that reaches the [catch] block before any toast is called: the
    conversion raised it, or the write of a converted text did. *)
Definition raisedBeforeToast (globalThis : Globals) (document : Document)
    (convert : Document -> Completion ConvertResult)
    (copy : jsstring -> Completion bool) (error : Thrown) : Prop :=
  convert document = Throw error
  \/ exists markdown,
       convert document = Normal (Success markdown) /\
       copy (ContentScript.createMarkdownHeader globalThis document
             ++ ContentScript.MARKDOWN_SEPARATOR ++ markdown) = Throw error.

(* ================================================================== *)
(** * Notions for the renderer on elements *)
(* ================================================================== *)

(** Text without [<]. *)
Definition noLT (s : jsstring) : bool := forallb (fun c => negb (c =? 60)%N) s.

(** What may stand between the name of a tag and its [>]: no [<], no [>]. *)
Definition attributeText (s : jsstring) : bool :=
  forallb (fun c => negb (c =? 60)%N && negb (c =? 62)%N) s.

(** Text of one line without markup: no [<], no [&], no line terminator. *)
Definition inlineText (s : jsstring) : bool :=
  forallb (fun c => negb (c =? 60)%N && negb (c =? 38)%N
                    && negb (isLineTerminator c)) s.

(** The elements that one pass of [convertHtmlToMarkdown] turns into
    markdown by a template: how the opening tag starts, the closing tag, and
    what the template puts before and after the text. *)
Definition simpleElements : list (string * string * string * string) :=
  [ ("<h1", "</h1>", "# ", "\n\n");
    ("<h2", "</h2>", "## ", "\n\n");
    ("<h3", "</h3>", "### ", "\n\n");
    ("<h4", "</h4>", "#### ", "\n\n");
    ("<h5", "</h5>", "##### ", "\n\n");
    ("<h6", "</h6>", "###### ", "\n\n");
    ("<p", "</p>", "", "\n\n");
    ("<strong", "</strong>", "**", "**");
    ("<b", "</b>", "**", "**");
    ("<em", "</em>", "*", "*");
    ("<i", "</i>", "*", "*");
    ("<code", "</code>", "`", "`") ]%string.

Definition lineFeeds (s : jsstring) : nat := length (filter (N.eqb LF) s).

(** Flat content: text and simple elements, one after the other. *)
Inductive Segment : Type :=
| TextNode (t : jsstring)
| ElementNode (tag : string * string * string * string) (attrs t : jsstring).

Definition raw (seg : Segment) : jsstring :=
  match seg with
  | TextNode t => t
  | ElementNode (opening, closing, _, _) attrs t =>
      js opening ++ attrs ++ js ">" ++ t ++ js closing
  end.

Definition rendered (seg : Segment) : jsstring :=
  match seg with
  | TextNode t => t
  | ElementNode (_, _, before, after) _ t => js before ++ t ++ js after
  end.

Definition flat (seg : Segment) : Prop :=
  match seg with
  | TextNode t => inlineText t = true
  | ElementNode tag attrs t =>
      In tag simpleElements /\ attributeText attrs = true /\
      inlineText t = true
  end.

(** The passes that render the simple elements, in the order of the source. *)
Definition simplePasses : list (RegExp * string * list string) :=
  [ (RE_HEADING "h1", "# $1\n\n", ["<h1"]);
    (RE_HEADING "h2", "## $1\n\n", ["<h2"]);
    (RE_HEADING "h3", "### $1\n\n", ["<h3"]);
    (RE_HEADING "h4", "#### $1\n\n", ["<h4"]);
    (RE_HEADING "h5", "##### $1\n\n", ["<h5"]);
    (RE_HEADING "h6", "###### $1\n\n", ["<h6"]);
    (RE_P, "$1\n\n", ["<p"]);
    (RE_STRONG, "**$2**", ["<strong"; "<b"]);
    (RE_EM, "*$2*", ["<em"; "<i"]);
    (RE_CODE, "`$1`", ["<code"]) ]%string.

(** The content after the first [k] of these passes. *)
Definition isDone (k : nat) (opening : string) : bool :=
  existsb (fun p => existsb (String.eqb opening) (snd p))
    (firstn k simplePasses).

Definition stage (k : nat) (seg : Segment) : jsstring :=
  match seg with
  | TextNode t => t
  | ElementNode (opening, _, _, _) _ _ =>
      if isDone k opening then rendered seg else raw seg
  end.

(** ** Lists *)

(** An item of a list: the attributes of its tag and its text. *)
Definition listItem (item : jsstring * jsstring) : jsstring :=
  js "<li" ++ fst item ++ js ">" ++ snd item ++ js "</li>".

Definition itemOk (item : jsstring * jsstring) : Prop :=
  attributeText (fst item) = true /\ inlineText (snd item) = true.

Definition ulLine (item : jsstring * jsstring) : jsstring :=
  js "- " ++ snd item ++ js "\n".

Definition olLine (counter : nat) : jsstring :=
  numberToString counter ++ js ". $1\n".

(** The expression matches at no [<] of a list: not at [<l], [</], nor at
    [<] followed by the second letter of the list's tag. *)
Definition listBlind (re : RegExp) (letter : char16) : Prop :=
  firstIs 60%N (source re) = true
  /\ matchAt re [] = None
  /\ forall tail,
       matchAt re (60%N :: 108%N :: tail) = None
       /\ matchAt re (60%N :: 47%N :: tail) = None
       /\ matchAt re (60%N :: letter :: tail) = None.

(** A line of a rendered list: it starts with a code unit that is no white
    space and holds one line feed, its last code unit. *)
Definition solidLine (l : jsstring) : Prop :=
  exists c w, l = c :: w ++ [LF] /\ isWhiteSpace c = false /\
              forallb (fun x => negb (x =? LF)%N) w = true.

(** A decimal digit. *)
Definition isDigitUnit (c : char16) : bool := (48 <=? c)%N && (c <=? 57)%N.

(** ** Nested content *)

(** Nested content: text, elements of the simple kinds around further
    content, and tags that only the tag strip knows. *)
#[warnings="-register-all"]
Inductive Markup : Type :=
| NText (t : jsstring)
| NStray (name : string) (attrs : jsstring)
| NElement (tag : string * string * string * string) (attrs : jsstring)
    (children : list Markup).

(** Names of tags that no pass before the tag strip takes for one of its
    own, whatever follows the name. *)
Definition strayNames : list string :=
  [ "div"; "span"; "section"; "main"; "header"; "footer"; "nav";
    "table"; "thead"; "tbody"; "tr"; "td"; "th"; "figure"; "figcaption";
    "time"; "small"; "sup"; "sub"; "hr";
    "/div"; "/span"; "/section"; "/main"; "/header"; "/footer"; "/nav";
    "/table"; "/thead"; "/tbody"; "/tr"; "/td"; "/th"; "/figure";
    "/figcaption"; "/time"; "/small"; "/sup"; "/sub" ]%string.

(** The number of the pass that renders an element, by its opening. *)
Fixpoint passIndexIn (ps : list (RegExp * string * list string))
    (opening : string) : nat :=
  match ps with
  | [] => 0
  | p :: ps' =>
      if existsb (String.eqb opening) (snd p) then 0
      else S (passIndexIn ps' opening)
  end.

Definition passIndex (opening : string) : nat :=
  passIndexIn simplePasses opening.

(** Text of one line without [<] and [>]. *)
Definition attributeLine (s : jsstring) : bool :=
  forallb (fun c => negb (c =? 60)%N && negb (c =? 62)%N
                    && negb (isLineTerminator c)) s.

(** The number of the tag strip among the passes. *)
Definition TAG_PASS : nat := 18.

(** The content after the first [k] passes: an element is rendered once its
    pass is over, a stray tag is gone once the tag strip is over. *)
Fixpoint stageOf (k : nat) (n : Markup) : jsstring :=
  match n with
  | NText t => t
  | NStray name attrs =>
      if TAG_PASS <? k then [] else js "<" ++ js name ++ attrs ++ js ">"
  | NElement (opening, closing, before, after) attrs children =>
      if passIndex opening <? k
      then js before ++ concat (map (stageOf k) children) ++ js after
      else js opening ++ attrs ++ js ">"
           ++ concat (map (stageOf k) children) ++ js closing
  end.

(** An element may hold text, stray tags, and elements of later passes. *)
Definition mayHold (tag : string * string * string * string) (n : Markup)
  : Prop :=
  match n with
  | NElement (opening, _, _, _) _ _ =>
      passIndex (fst (fst (fst tag))) < passIndex opening
  | _ => True
  end.

Fixpoint wellNested (n : Markup) : Prop :=
  match n with
  | NText t => inlineText t = true
  | NStray name attrs => In name strayNames /\ attributeLine attrs = true
  | NElement tag attrs children =>
      In tag simpleElements /\ attributeLine attrs = true /\
      (fix all (l : list Markup) : Prop :=
         match l with
         | [] => True
         | c :: l' => (wellNested c /\ mayHold tag c) /\ all l'
         end) children
  end.

(** The tags that are still markup when pass [k] runs, by how they start. *)
Definition laterStarts (k : nat) : list jsstring :=
  map (fun name => js "<" ++ js name) strayNames
  ++ flat_map
       (fun tag : string * string * string * string =>
          let '(opening, closing, _, _) := tag in
          if k <? passIndex opening then [js opening; js closing] else [])
       simpleElements.

(** No element of the node is rendered by pass [k] or before. *)
Definition above (k : nat) (n : Markup) : Prop :=
  match n with
  | NElement (opening, _, _, _) _ _ => k < passIndex opening
  | _ => True
  end.

(** The expression matches at no start of the text, whatever follows. *)
Definition blindTo (re : RegExp) (ts : jsstring) : Prop :=
  forall tail, matchAt re (ts ++ tail) = None.

(** Text of one line without [<]. *)
Definition lineText (s : jsstring) : bool :=
  forallb (fun c => negb (c =? 60)%N && negb (isLineTerminator c)) s.

(** The markup of a node, and its markdown. *)
Fixpoint nodeHtml (n : Markup) : jsstring :=
  match n with
  | NText t => t
  | NStray name attrs => js "<" ++ js name ++ attrs ++ js ">"
  | NElement (opening, closing, _, _) attrs children =>
      js opening ++ attrs ++ js ">"
      ++ concat (map nodeHtml children) ++ js closing
  end.

Fixpoint nodeMarkdown (n : Markup) : jsstring :=
  match n with
  | NText t => t
  | NStray _ _ => []
  | NElement (_, _, before, after) _ children =>
      js before ++ concat (map nodeMarkdown children) ++ js after
  end.


Definition sampleNodes : list Markup :=
  [ NStray "div" (js " class='a'");
    NElement ("<p", "</p>", "", "\n\n")%string []
      [ NText (js "Hello ");
        NElement ("<strong", "</strong>", "**", "**")%string []
          [ NText (js "big ");
            NElement ("<em", "</em>", "*", "*")%string []
              [ NText (js "world") ] ];
        NStray "span" []; NText (js "!"); NStray "/span" [] ];
    NStray "/div" [] ].


(** ** Attributes of links and images *)

(** [startsLike fl pat s]: the text [s] starts with the literal [pat], as an
    expression with the flags [fl] compares them. *)
Fixpoint startsLike (fl : Flags) (pat s : jsstring) : bool :=
  match pat with
  | [] => true
  | p :: pat' =>
      match s with
      | [] => false
      | c :: s' => charMatches fl (Lit p) c && startsLike fl pat' s'
      end
  end.

(** The literal occurs nowhere in the text, in any letter case. *)
Definition freeOf (pat : string) (s : jsstring) : bool :=
  negb (anywhere (startsLike {| ignoreCase := true; dotAll := false |} (js pat)) s).

(** What a quoted attribute value may hold, on one line. *)
Definition valueText (s : jsstring) : bool :=
  forallb (fun c => negb (c =? 34)%N && negb (c =? 39)%N
                    && negb (c =? 60)%N && negb (c =? 62)%N
                    && negb (c =? 38)%N && negb (isLineTerminator c)) s.

Definition isQuote (c : char16) : bool := (c =? 34)%N || (c =? 39)%N.


(** [w] is what is left of [s] after some code units. *)
Definition suffixOf (w s : jsstring) : Prop := exists a, s = a ++ w.


(** ** Entities, line breaks and blank lines *)

(** The entities of the passes after [&amp;], with what they stand for. *)
Definition laterEntities : list (string * jsstring) :=
  [ ("&lt;", [60%N]); ("&gt;", [62%N]); ("&quot;", [34%N]);
    ("&#39;", [39%N]) ]%string.

(** What the passes make of [&amp;] before the text [t]: the ampersand that
    the first pass puts there is taken for the start of an entity by a later
    pass when [t] goes on like one. *)
Definition afterAmp (t : jsstring) : jsstring :=
  if startsWith t (js "lt;") then 60%N :: skipn 3 t
  else if startsWith t (js "gt;") then 62%N :: skipn 3 t
  else if startsWith t (js "quot;") then 34%N :: skipn 5 t
  else if startsWith t (js "#39;") then 39%N :: skipn 4 t
  else 38%N :: t.

Definition noAmp (s : jsstring) : bool := forallb (fun c => negb (c =? 38)%N) s.


(** Lines of inline text, each but the last one ended by a [br] tag with
    its attributes. *)
Definition brText (lines : list (jsstring * jsstring)) (last : jsstring)
  : jsstring :=
  concat (map (fun l => fst l ++ js "<br" ++ snd l ++ js ">") lines) ++ last.

Definition brLines (lines : list (jsstring * jsstring)) (last : jsstring)
  : jsstring :=
  concat (map (fun l => fst l ++ [LF]) lines) ++ last.

Definition brOk (l : jsstring * jsstring) : Prop :=
  inlineText (fst l) = true /\ attributeText (snd l) = true.


(** A line of plain text: it starts with a code unit that is no white space
    and holds no line feed, no [<] and no [&]. *)
Definition plainLine (l : jsstring) : bool :=
  match l with
  | [] => false
  | c :: _ =>
      negb (isWhiteSpace c)
      && forallb (fun x => negb (x =? LF)%N && negb (x =? 60)%N
                           && negb (x =? 38)%N) l
  end.

(** Lines, each followed by a number of line feeds. *)
Definition gapped (ls : list (jsstring * nat)) : jsstring :=
  concat (map (fun p => fst p ++ repeat LF (snd p)) ls).

(** The same lines with at most two line feeds after each. *)
Definition capped (ls : list (jsstring * nat)) : jsstring :=
  concat (map (fun p => fst p ++ repeat LF (Nat.min (snd p) 2)) ls).

(** What may follow a run of line feeds: nothing, or a code unit that is no
    white space. *)
Definition solidStart (s : jsstring) : bool :=
  match s with
  | [] => true
  | c :: _ => negb (isWhiteSpace c)
  end.


(** Closed goals are settled by evaluation. *)
Ltac by_computation := vm_compute; first [reflexivity | discriminate].

(** Membership in a closed list. *)
Ltac in_calls := vm_compute; repeat (first [left; reflexivity | right]).

(* ================================================================== *)
(** * Facts about strings *)
(* ================================================================== *)

Section StringFacts.

Lemma startsWith_spec (pat s : jsstring) :
  startsWith s pat = true <-> exists post, s = pat ++ post.
Proof.
  revert s; induction pat as [|p pat IH]; intros s; simpl.
  - split; [intros _; now exists s | now destruct s].
  - destruct s as [|c s]; simpl.
    + split; [discriminate | intros [post H]; discriminate].
    + rewrite andb_true_iff, N.eqb_eq, IH. split.
      * intros [-> [post ->]]. now exists post.
      * intros [post H]. injection H as -> ->. split; [reflexivity | now exists post].
Qed.

Lemma includes_spec (s pat : jsstring) :
  includes s pat = true <-> exists pre post, s = pre ++ pat ++ post.
Proof.
  induction s as [|c s IH].
  - cbn [includes]. rewrite orb_false_r, startsWith_spec. split.
    + intros [post H]. now exists [], post.
    + intros [pre [post H]]. destruct pre; [now exists post|discriminate].
  - cbn [includes]. rewrite orb_true_iff, startsWith_spec, IH. split.
    + intros [[post H] | [pre [post H]]].
      * now exists [], post.
      * exists (c :: pre), post. now rewrite H.
    + intros [[|c' pre] [post H]].
      * left. now exists post.
      * right. injection H as _ H. now exists pre, post.
Qed.

Lemma includes_suffix (pre s pat : jsstring) :
  includes (pre ++ s) pat = false -> includes s pat = false.
Proof.
  induction pre as [|c pre IH]; [easy|].
  cbn [app includes]. rewrite orb_false_iff. intros [_ H]. auto.
Qed.

Lemma trimStart_app (s : jsstring) :
  exists ws, s = ws ++ trimStart s /\ forallb isWhiteSpace ws = true.
Proof.
  induction s as [|c s [ws [E W]]]; [now exists []|].
  simpl. destruct (isWhiteSpace c) eqn:Hc.
  - exists (c :: ws). simpl. rewrite Hc, W. now rewrite <- E.
  - now exists [].
Qed.

Lemma trimStart_head (s : jsstring) c t :
  trimStart s = c :: t -> isWhiteSpace c = false.
Proof.
  induction s as [|d s IH]; [discriminate|].
  simpl. destruct (isWhiteSpace d) eqn:Hd; [exact IH|].
  intros H. injection H as -> _. exact Hd.
Qed.

Lemma trimStart_blank (s : jsstring) :
  trimStart s = [] <-> forallb isWhiteSpace s = true.
Proof.
  induction s as [|c s IH]; [easy|].
  simpl. destruct (isWhiteSpace c); simpl; [exact IH|easy].
Qed.

Lemma trimStart_keeps_last (s : jsstring) c :
  isWhiteSpace c = false -> exists s', trimStart (s ++ [c]) = s' ++ [c].
Proof.
  intros Hc. induction s as [|d s [s' IH]].
  - exists []. simpl. now rewrite Hc.
  - simpl. destruct (isWhiteSpace d); [now exists s'|].
    now exists (d :: s).
Qed.

(** A string whose first code unit is no white space keeps it under [trim]. *)
Lemma trim_head (c : char16) (t : jsstring) :
  isWhiteSpace c = false -> exists t', trim (c :: t) = c :: t'.
Proof.
  intros Hc. unfold trim, trimEnd. simpl trimStart at 2. rewrite Hc.
  simpl rev at 2.
  destruct (trimStart_keeps_last (rev t) c Hc) as [s' ->].
  rewrite rev_app_distr. simpl. now exists (rev s').
Qed.

Lemma trim_blank (s : jsstring) :
  trim s = [] <-> forallb isWhiteSpace s = true.
Proof.
  split.
  - intros H. destruct (trimStart s) as [|c t] eqn:E.
    + now apply trimStart_blank.
    + exfalso. unfold trim in H. rewrite E in H.
      destruct (trim_head c t (trimStart_head _ _ _ E)) as [t' Ht].
      unfold trim in Ht. simpl trimStart in Ht.
      rewrite (trimStart_head _ _ _ E) in Ht. congruence.
  - intros H. apply trimStart_blank in H. unfold trim. now rewrite H.
Qed.

(** The first code unit of a trimmed string is no white space. *)
Lemma trim_starts_solid (s : jsstring) c t :
  trim s = c :: t -> isWhiteSpace c = false.
Proof.
  unfold trim. destruct (trimStart s) as [|d u] eqn:E; [discriminate|].
  pose proof (trimStart_head _ _ _ E) as Hd.
  destruct (trim_head d u Hd) as [t' Ht]. unfold trim in Ht.
  simpl trimStart in Ht. rewrite Hd in Ht. rewrite Ht.
  intros H. injection H as -> _. exact Hd.
Qed.

Lemma solid_not_blank (s : jsstring) c :
  In c s -> isWhiteSpace c = false -> trim s <> [].
Proof.
  intros Hin Hc H. apply trim_blank in H.
  rewrite forallb_forall in H. specialize (H _ Hin). congruence.
Qed.

Lemma truthy_true (s : jsstring) : truthy s = true <-> s <> [].
Proof. destruct s; simpl; split; congruence. Qed.

Lemma truthy_false (s : jsstring) : truthy s = false <-> s = [].
Proof. destruct s; simpl; split; congruence. Qed.

Lemma join_cons_head (sep p : jsstring) (rest : list jsstring) :
  exists tail, join sep (p :: rest) = p ++ tail.
Proof.
  destruct rest as [|q rest]; simpl.
  - exists []. now rewrite app_nil_r.
  - now exists (sep ++ join sep (q :: rest)).
Qed.

End StringFacts.

(* ================================================================== *)
(** * The conversion pipeline *)
(* ================================================================== *)

Arguments convertHtmlToMarkdown : simpl never.

Section PipelineFacts.

Variable g : Globals.

Lemma extractPageContent_normal (html : jsstring) :
  exists r, extractPageContent g html = Normal r.
Proof.
  unfold extractPageContent, try_catch.
  destruct (readabilityParse g MINIMUM_CHAR_THRESHOLD html); eauto.
Qed.

Lemma extractPageContent_eq (html : jsstring) :
  extractPageContent g html =
  match readabilityParse g MINIMUM_CHAR_THRESHOLD html with
  | Normal r => Normal r
  | Throw _ => Normal None
  end.
Proof. reflexivity. Qed.

Lemma convertElementToMarkdown_normal (e : Element) :
  exists r, convertElementToMarkdown g e = Normal r.
Proof.
  unfold convertElementToMarkdown, try_catch.
  match goal with |- exists r, match ?b with _ => _ end = _ => destruct b end;
    eauto.
Qed.

Lemma pushSections_eq (elements : list Element) (acc : list jsstring) :
  pushSections g acc elements = Normal (acc ++ flat_map (sectionOf g) elements).
Proof.
  revert acc; induction elements as [|e es IH]; intros acc; simpl.
  - now rewrite app_nil_r.
  - unfold sectionOf.
    destruct (convertElementToMarkdown_normal e) as [[md|] ->]; simpl.
    + destruct (truthy md && truthy (trim md)); rewrite IH; simpl.
      * now rewrite <- app_assoc.
      * reflexivity.
    + apply IH.
Qed.

Lemma convertToMarkdown_blank (article : Article) :
  (content article = None \/
   exists c, content article = Some c /\ trim c = []) ->
  convertToMarkdown (Some article) = Throw (ErrorObject CONTENT_PROPERTY_ERROR).
Proof.
  unfold convertToMarkdown. intros [-> | [c [-> Hc]]]; [reflexivity|].
  rewrite Hc. simpl. now rewrite orb_true_r.
Qed.

Lemma convertToMarkdown_render (article : Article) (c : jsstring) :
  content article = Some c -> trim c <> [] ->
  convertToMarkdown (Some article) = Normal (convertHtmlToMarkdown c).
Proof.
  unfold convertToMarkdown. intros -> Hc.
  assert (Hc' : truthy (trim c) = true) by now apply truthy_true.
  assert (Hc'' : truthy c = true).
  { apply truthy_true. intros ->. now apply Hc. }
  now rewrite Hc', Hc''.
Qed.

Lemma sectionOf_fails (e : Element) : Fails g e -> sectionOf g e = [].
Proof.
  unfold sectionOf, convertElementToMarkdown.
  intros [err H | H | a H Hc | a c H Hc Hb | a c H Hc Hb Hr];
    unfold parseOf in H;
    rewrite extractPageContent_eq, H; cbn [bind try_catch]; try reflexivity.
  - rewrite convertToMarkdown_blank by auto. reflexivity.
  - rewrite convertToMarkdown_blank by eauto. reflexivity.
  - rewrite (convertToMarkdown_render a c) by auto. cbn [bind try_catch].
    rewrite Hr. cbn [truthy]. now rewrite andb_false_r.
Qed.

Lemma sectionOf_survives (e : Element) (f : jsstring) :
  Survives g e f -> sectionOf g e = [f].
Proof.
  unfold sectionOf, convertElementToMarkdown.
  intros [a c H Hc Hb Hf Hn]. unfold parseOf in H.
  rewrite extractPageContent_eq, H. cbn [bind try_catch].
  rewrite (convertToMarkdown_render a c) by auto. cbn [bind try_catch].
  subst f.
  assert (H1 : truthy (trim (convertHtmlToMarkdown c)) = true)
    by now apply truthy_true.
  assert (H2 : truthy (convertHtmlToMarkdown c) = true).
  { apply truthy_true. intros E. rewrite E in Hn. now apply Hn. }
  now rewrite H1, H2.
Qed.

Lemma outcomes_sections (es : list Element) (m : nat) (fs : list jsstring) :
  Outcomes g es m fs ->
  flat_map (sectionOf g) es = fs /\ length fs + m = length es.
Proof.
  induction 1 as [|e es m fs Hf _ [IH1 IH2]|e f es m fs Hs _ [IH1 IH2]]; simpl.
  - auto.
  - rewrite (sectionOf_fails e Hf). simpl. split; [assumption|lia].
  - rewrite (sectionOf_survives e f Hs). simpl. split; [congruence|lia].
Qed.

(** Every pushed section starts with a code unit that is no white space. *)
Lemma sectionOf_solid (e : Element) (f : jsstring) :
  In f (sectionOf g e) ->
  exists c t, f = c :: t /\ isWhiteSpace c = false.
Proof.
  unfold sectionOf.
  destruct (convertElementToMarkdown g e) as [[md|]|]; simpl; try tauto.
  destruct (truthy md && truthy (trim md)) eqn:E; simpl; try tauto.
  intros [<- | []]. apply andb_true_iff in E as [_ E].
  destruct (trim md) as [|c t] eqn:Et; [discriminate|].
  exists c, t. split; [reflexivity|]. now apply (trim_starts_solid md c t).
Qed.

Lemma processClaudeAiPage_try_eq (document : Document) (elements : list Element) :
  extractClaudeAiElements document = Normal elements ->
  processClaudeAiPage_try g document =
  match elements with
  | [] => Normal (Failure CLAUDE_AI_NO_ELEMENTS_ERROR)
  | _ :: _ =>
      match flat_map (sectionOf g) elements with
      | [] => Normal (Failure EMPTY_MARKDOWN_ERROR)
      | sections => Normal (Success (join SECTION_SEPARATOR sections))
      end
  end.
Proof.
  intros H. unfold processClaudeAiPage_try. rewrite H. simpl.
  destruct elements as [|e es]; [reflexivity|].
  unfold convertElementsToMarkdownSections. rewrite pushSections_eq.
  cbn [bind app length Nat.eqb].
  destruct (flat_map (sectionOf g) (e :: es)); reflexivity.
Qed.

End PipelineFacts.

(* ================================================================== *)
(** * Properties of [convertPageToMarkdown] *)
(* ================================================================== *)

Lemma claude_selector :
  js "[" ++ CLAUDE_AI_ATTRIBUTE ++ js "]" = js "[data-test-render-count]".
Proof. reflexivity. Qed.

Lemma generic_path (g : Globals) (document : Document) :
  isClaudeAiSite g = false ->
  convertPageToMarkdown g document =
  try_catch (convertPageToMarkdown_try g document) catchAsFailure.
Proof. unfold convertPageToMarkdown. now intros ->. Qed.

Lemma claude_path (g : Globals) (document : Document) :
  isClaudeAiSite g = true ->
  convertPageToMarkdown g document =
  try_catch (processClaudeAiPage_try g document) catchAsFailure.
Proof. unfold convertPageToMarkdown. now intros ->. Qed.

Lemma solid_head_not_blank (c : char16) (t : jsstring) :
  isWhiteSpace c = false ->
  c :: t <> [] /\ forallb isWhiteSpace (c :: t) = false.
Proof. intros H. split; [discriminate|]. simpl. now rewrite H. Qed.

Lemma success_not_blank (g : Globals) (document : Document) (markdown : jsstring) :
  convertPageToMarkdown g document = Normal (Success markdown) ->
  markdown <> [] /\ forallb isWhiteSpace markdown = false.
Proof.
  destruct (isClaudeAiSite g) eqn:Hsite.
  - rewrite (claude_path g document Hsite).
    destruct (extractClaudeAiElements document) as [elements|err] eqn:He.
    + rewrite (processClaudeAiPage_try_eq g document elements He).
      destruct elements as [|e es]; [discriminate|].
      destruct (flat_map (sectionOf g) (e :: es)) as [|p rest] eqn:Hs;
        [discriminate|].
      cbn [try_catch]. intros H. injection H as <-.
      assert (Hin : In p (flat_map (sectionOf g) (e :: es)))
        by (rewrite Hs; now left).
      apply in_flat_map in Hin as [e' [_ Hin]].
      destruct (sectionOf_solid g e' p Hin) as [c [t [-> Hc]]].
      destruct rest; cbn [app]; now apply solid_head_not_blank.
    + unfold processClaudeAiPage_try. rewrite He. discriminate.
  - rewrite (generic_path g document Hsite). unfold convertPageToMarkdown_try.
    destruct (bodyOuterHTML g document) as [html|err]; [|discriminate].
    cbn [bind]. destruct (extractPageContent_normal g html) as [[a|] ->];
      [|discriminate].
    cbn [bind]. destruct (convertToMarkdown (Some a)) as [md|err];
      [|discriminate].
    cbn [bind try_catch]. destruct (truthy (trim md)) eqn:Ht; [|discriminate].
    cbn [negb]. intros H. injection H as <-.
    apply truthy_true in Ht. split.
    + intros ->. now apply Ht.
    + destruct (forallb isWhiteSpace md) eqn:Hb; [|reflexivity].
      apply trim_blank in Hb. contradiction.
Qed.

Lemma generic_blank_render (g : Globals) (document : Document)
    (b : Element) (article : Article) (c : jsstring) :
  isClaudeAiSite g = false ->
  body document = Some b ->
  extractPageContent g (outerHTML b) = Normal (Some article) ->
  content article = Some c -> trim c <> [] ->
  trim (convertHtmlToMarkdown c) = [] ->
  convertPageToMarkdown g document = Normal (Failure EMPTY_MARKDOWN_ERROR).
Proof.
  intros Hsite Hb He Hc Hn Hr. rewrite (generic_path g document Hsite).
  unfold convertPageToMarkdown_try, bodyOuterHTML. rewrite Hb. cbn [bind].
  rewrite He. cbn [bind]. rewrite (convertToMarkdown_render article c Hc Hn).
  cbn [bind]. now rewrite Hr.
Qed.

Lemma claude_all_blank (g : Globals) (document : Document)
    (elements : list Element) :
  isClaudeAiSite g = true ->
  extractClaudeAiElements document = Normal elements ->
  elements <> [] ->
  (forall e, In e elements -> Fails g e) ->
  convertPageToMarkdown g document = Normal (Failure EMPTY_MARKDOWN_ERROR).
Proof.
  intros Hsite He Hne Hall. rewrite (claude_path g document Hsite).
  rewrite (processClaudeAiPage_try_eq g document elements He).
  destruct elements as [|e es]; [congruence|].
  assert (Hs : flat_map (sectionOf g) (e :: es) = []).
  { clear He Hne. induction (e :: es) as [|x xs IH]; [reflexivity|].
    simpl. rewrite (sectionOf_fails g x) by (apply Hall; now left).
    apply IH. intros y Hy. apply Hall. now right. }
  now rewrite Hs.
Qed.

(** C1.  Whenever [convertPageToMarkdown] returns the success variant, its
    markdown is neither empty nor made of white space only.  In particular,
    on the generic path a render that trims to the empty string gives the
    failure variant, and so does the site-specific path when the render of
    every marker element trims to the empty string. *)
Theorem ok_markdown_never_blank (g : Globals) (document : Document) :
  (forall markdown,
      convertPageToMarkdown g document = Normal (Success markdown) ->
      markdown <> [] /\ forallb isWhiteSpace markdown = false)
  /\ (forall b article c,
        isClaudeAiSite g = false ->
        body document = Some b ->
        readabilityParse g MINIMUM_CHAR_THRESHOLD (outerHTML b)
          = Normal (Some article) ->
        content article = Some c -> trim c <> [] ->
        trim (convertHtmlToMarkdown c) = [] ->
        exists reason, convertPageToMarkdown g document = Normal (Failure reason))
  /\ (forall elements,
        isClaudeAiSite g = true ->
        querySelectorAll document (js "[data-test-render-count]")
          = Normal elements ->
        elements <> [] ->
        (forall e, In e elements ->
           exists article c,
             readabilityParse g MINIMUM_CHAR_THRESHOLD (outerHTML e)
               = Normal (Some article) /\
             content article = Some c /\ trim c <> [] /\
             trim (convertHtmlToMarkdown c) = []) ->
        exists reason, convertPageToMarkdown g document = Normal (Failure reason)).
Proof.
  split; [|split].
  - apply success_not_blank.
  - intros b article c Hsite Hb Hp Hc Hn Hr. exists EMPTY_MARKDOWN_ERROR.
    apply (generic_blank_render g document b article c); auto.
    now rewrite extractPageContent_eq, Hp.
  - intros elements Hsite Hq Hne Hall. exists EMPTY_MARKDOWN_ERROR.
    apply (claude_all_blank g document elements); auto.
    intros e Hin. destruct (Hall e Hin) as [a [c [Hp [Hc [Hn Hr]]]]].
    now apply (fails_blank_render g e a c).
Qed.

(** C2.  The router takes the claude.ai strategy exactly when the hostname
    contains the substring "claude.ai"; with no location or an empty
    hostname it takes the generic strategy. *)
Theorem router_selects_by_substring (g : Globals) (document : Document) :
  (isClaudeAiSite g = true <->
     exists loc pre post,
       location g = Some loc /\ hostname loc = pre ++ js "claude.ai" ++ post)
  /\ (isClaudeAiSite g = true ->
        convertPageToMarkdown g document = processClaudeAiPage g document)
  /\ (isClaudeAiSite g = false ->
        convertPageToMarkdown g document =
        try_catch (convertPageToMarkdown_try g document) catchAsFailure)
  /\ (location g = None -> isClaudeAiSite g = false)
  /\ (forall loc, location g = Some loc -> hostname loc = [] ->
        isClaudeAiSite g = false).
Proof.
  repeat split.
  - unfold isClaudeAiSite. destruct (location g) as [loc|]; [|discriminate].
    intros H. apply includes_spec in H as [pre [post H]].
    now exists loc, pre, post.
  - intros [loc [pre [post [Hl Hh]]]]. unfold isClaudeAiSite. rewrite Hl.
    apply includes_spec. now exists pre, post.
  - apply claude_path.
  - apply generic_path.
  - unfold isClaudeAiSite. now intros ->.
  - unfold isClaudeAiSite. now intros loc -> ->.
Qed.

Example router_claude_ai :
  isClaudeAiSite (setupLocationEnvironment (js "claude.ai") stubParse) = true.
Proof. reflexivity. Qed.

Example router_www_claude_ai :
  isClaudeAiSite (setupLocationEnvironment (js "www.claude.ai") stubParse) = true.
Proof. reflexivity. Qed.

Example router_fake_claude_ai :
  isClaudeAiSite
    (setupLocationEnvironment (js "fake-claude.ai.evil.com") stubParse) = true.
Proof. reflexivity. Qed.

Example router_example_com :
  isClaudeAiSite (setupLocationEnvironment (js "example.com") stubParse) = false.
Proof. reflexivity. Qed.

(** C3.  On the site-specific path, when the document has N >= 1 marker
    elements of which M fail and M < N, the result is the success variant
    whose markdown is the N - M surviving trimmed fragments, in document
    order, joined by the separator: the first fragment, then each further
    fragment behind the separator.  The failure variant is returned only
    when all N elements fail. *)
Theorem surviving_fragments_are_joined (g : Globals) (document : Document)
    (elements : list Element) (m : nat) (fragments : list jsstring) :
  isClaudeAiSite g = true ->
  querySelectorAll document (js "[data-test-render-count]") = Normal elements ->
  1 <= length elements ->
  Outcomes g elements m fragments ->
  (m < length elements ->
     exists first others,
       fragments = first :: others /\
       convertPageToMarkdown g document
         = Normal (Success
                     (first
                      ++ concat (map (fun f => js "\n\n---\n\n" ++ f) others)))
       /\ length fragments = length elements - m)
  /\ (forall reason,
        convertPageToMarkdown g document = Normal (Failure reason) ->
        m = length elements).
Proof.
  intros Hsite Hq Hn Hout.
  destruct (outcomes_sections g elements m fragments Hout) as [Hs Hlen].
  rewrite (claude_path g document Hsite).
  rewrite (processClaudeAiPage_try_eq g document elements Hq).
  destruct elements as [|e es]; [simpl in Hn; lia|].
  rewrite Hs. cbn [length] in *. split.
  - intros Hm.
    destruct fragments as [|f fs]; [cbn [length] in Hlen; lia|].
    exists f, fs. split; [reflexivity|]. split; [|cbn [length] in *; lia].
    assert (Hjoin : forall sep p ps,
              join sep (p :: ps) = p ++ concat (map (fun x => sep ++ x) ps)).
    { intros sep p ps. revert p.
      induction ps as [|q ps IH]; intros p.
      - cbn [join map concat]. now rewrite app_nil_r.
      - change (join sep (p :: q :: ps)) with (p ++ sep ++ join sep (q :: ps)).
        rewrite IH. cbn [map concat]. now rewrite <- app_assoc. }
    unfold combineMarkdownSections, SECTION_SEPARATOR.
    now rewrite Hjoin.
  - intros reason. destruct fragments as [|f fs]; [|discriminate].
    intros _. cbn [length] in Hlen. lia.
Qed.

(** C4.  On the generic path, when extraction yields [null] the result is
    the failure variant with the extraction-failed reason, and when the
    extracted article has a missing, empty or blank [content] the result is
    the failure variant with the content-property reason. *)
Theorem generic_extraction_failures (g : Globals) (document : Document)
    (b : Element) :
  isClaudeAiSite g = false ->
  body document = Some b ->
  (extractPageContent g (outerHTML b) = Normal None ->
     convertPageToMarkdown g document
       = Normal (Failure (js "記事内容の抽出に失敗しました")))
  /\ (forall article,
        extractPageContent g (outerHTML b) = Normal (Some article) ->
        (content article = None \/
         exists c, content article = Some c /\ trim c = []) ->
        convertPageToMarkdown g document
          = Normal (Failure
                      (js "抽出されたコンテンツにcontentプロパティがありません"))).
Proof.
  intros Hsite Hb. rewrite (generic_path g document Hsite).
  unfold convertPageToMarkdown_try, bodyOuterHTML. rewrite Hb. cbn [bind].
  split.
  - now intros ->.
  - intros article -> Hc. cbn [bind].
    now rewrite (convertToMarkdown_blank article Hc).
Qed.

(** C5, as stated, fails: an exception that the extraction library raises
    is absorbed by [extractPageContent], so on the generic path the reason
    is the extraction-failed message and not the message of the exception,
    and on the site-specific path the element is skipped and the result can
    be the success variant. *)
Lemma exception_message_counterexample :
  readabilityParse genericSite MINIMUM_CHAR_THRESHOLD (js "!raise")
    = Throw (ErrorObject (js "parse error"))
  /\ convertPageToMarkdown genericSite (createTestDocument (js "!raise") [])
     = Normal (Failure EXTRACTION_ERROR)
  /\ EXTRACTION_ERROR <> js "parse error"
  /\ convertPageToMarkdown claudeSite
       (createTestDocument [] [js "!raise"; js "<p>A</p>"])
     = Normal (Success (js "A")).
Proof.
  repeat split; by_computation.
Qed.

(** C5, amended.  [convertPageToMarkdown] always returns a result, no
    exception escapes it.  Whatever leaves the protected block of the entry
    point, on either path, becomes the failure variant, whose reason is the
    message of the raised [Error] or else the default message.  The inner
    handlers absorb the rest: an exception of the extraction library counts
    as a [null] extraction (the extraction-failed reason on the generic
    path), and the conversion of one marker element never raises. *)
Theorem no_exception_escapes (g : Globals) (document : Document) :
  (exists result, convertPageToMarkdown g document = Normal result)
  /\ (forall error,
        (if isClaudeAiSite g
         then processClaudeAiPage_try g document
         else convertPageToMarkdown_try g document) = Throw error ->
        convertPageToMarkdown g document =
        Normal (Failure match error with
                        | ErrorObject message => message
                        | NonError => js "ページの変換に失敗しました"
                        end))
  /\ (forall b error,
        isClaudeAiSite g = false ->
        body document = Some b ->
        readabilityParse g MINIMUM_CHAR_THRESHOLD (outerHTML b) = Throw error ->
        convertPageToMarkdown g document
          = Normal (Failure (js "記事内容の抽出に失敗しました")))
  /\ (forall element,
        exists markdown, convertElementToMarkdown g element = Normal markdown).
Proof.
  split; [|split; [|split]].
  - unfold convertPageToMarkdown, processClaudeAiPage, try_catch, catchAsFailure.
    destruct (isClaudeAiSite g).
    + destruct (processClaudeAiPage_try g document); eauto.
    + destruct (convertPageToMarkdown_try g document); eauto.
  - intros error. unfold convertPageToMarkdown, processClaudeAiPage.
    destruct (isClaudeAiSite g); intros ->; now destruct error.
  - intros b error Hsite Hb Hp. rewrite (generic_path g document Hsite).
    unfold convertPageToMarkdown_try, bodyOuterHTML. rewrite Hb. cbn [bind].
    now rewrite extractPageContent_eq, Hp.
  - apply convertElementToMarkdown_normal.
Qed.

(** C8.  On the site-specific path, a document without any element bearing
    the marker attribute gives the failure variant with the
    no-elements-found reason. *)
Theorem no_marker_elements_is_failure (g : Globals) (document : Document) :
  isClaudeAiSite g = true ->
  querySelectorAll document (js "[data-test-render-count]") = Normal [] ->
  convertPageToMarkdown g document
    = Normal (Failure (js "claude.aiで対象要素が見つかりませんでした")).
Proof.
  intros Hsite Hq. rewrite (claude_path g document Hsite).
  now rewrite (processClaudeAiPage_try_eq g document [] Hq).
Qed.

(** C10.  On the generic path a document whose body is [null] gives the
    failure variant: the [TypeError] raised by reading [outerHTML] of the
    absent body is caught by the entry point, which returns normally. *)
Theorem null_body_is_failure (g : Globals) (document : Document) :
  isClaudeAiSite g = false ->
  body document = None ->
  bodyOuterHTML g document = Throw (ErrorObject (nullPropertyMessage g))
  /\ convertPageToMarkdown g document
     = Normal (Failure (nullPropertyMessage g)).
Proof.
  intros Hsite Hb. rewrite (generic_path g document Hsite).
  unfold convertPageToMarkdown_try, bodyOuterHTML. rewrite Hb. now split.
Qed.

(** ** The properties at concrete pages *)

Lemma ok_markdown_never_blank_witness :
  (js "Hello" <> [] /\ forallb isWhiteSpace (js "Hello") = false)
  /\ (exists reason,
        convertPageToMarkdown genericSite (createTestDocument (js "<p></p>") [])
        = Normal (Failure reason))
  /\ (exists reason,
        convertPageToMarkdown claudeSite
          (createTestDocument [] [js "<p></p>"; js "<br>"])
        = Normal (Failure reason)).
Proof.
  split; [|split].
  - apply (proj1 (ok_markdown_never_blank genericSite
                    (createTestDocument (js "<p>Hello</p>") []))).
    by_computation.
  - apply (proj1 (proj2 (ok_markdown_never_blank genericSite
                           (createTestDocument (js "<p></p>") [])))
             {| outerHTML := js "<p></p>" |}
             (articleOf (Some (js "<p></p>"))) (js "<p></p>"));
      by_computation.
  - apply (proj2 (proj2 (ok_markdown_never_blank claudeSite
                           (createTestDocument [] [js "<p></p>"; js "<br>"])))
             [ {| outerHTML := js "<p></p>" |}; {| outerHTML := js "<br>" |} ]).
    + by_computation.
    + by_computation.
    + discriminate.
    + intros e [<- | [<- | []]].
      * exists (articleOf (Some (js "<p></p>"))), (js "<p></p>").
        repeat split; by_computation.
      * exists (articleOf (Some (js "<br>"))), (js "<br>").
        repeat split; by_computation.
Defined.

Lemma router_selects_by_substring_witness :
  isClaudeAiSite
    (setupLocationEnvironment (js "fake-claude.ai.evil.com") stubParse) = true
  /\ convertPageToMarkdown claudeSite (createTestDocument [] [])
     = processClaudeAiPage claudeSite (createTestDocument [] []).
Proof.
  split.
  - apply (proj1 (router_selects_by_substring
                    (setupLocationEnvironment (js "fake-claude.ai.evil.com")
                       stubParse)
                    (createTestDocument [] []))).
    exists {| hostname := js "fake-claude.ai.evil.com";
              href := js "https://" ++ js "fake-claude.ai.evil.com" |},
           (js "fake-"), (js ".evil.com").
    split; by_computation.
  - apply (proj1 (proj2 (router_selects_by_substring claudeSite
                           (createTestDocument [] [])))).
    by_computation.
Defined.

Lemma conversation_outcomes :
  Outcomes claudeSite (map (fun h => {| outerHTML := h |}) conversation) 5
    [js "## Q"; js "A"].
Proof.
  unfold conversation. cbn [map].
  apply outcomes_survive.
  { apply (survives claudeSite _ _ (articleOf (Some (js "<h2>Q</h2>")))
             (js "<h2>Q</h2>")); by_computation. }
  apply outcomes_fail.
  { apply (fails_blank_render claudeSite _ (articleOf (Some (js "<p></p>")))
             (js "<p></p>")); by_computation. }
  apply outcomes_fail.
  { apply (fails_exception claudeSite _ (ErrorObject (js "parse error"))).
    by_computation. }
  apply outcomes_fail.
  { apply fails_null. by_computation. }
  apply outcomes_fail.
  { apply (fails_blank_content claudeSite _ (articleOf (Some (js "    ")))
             (js "    ")); by_computation. }
  apply outcomes_fail.
  { apply (fails_no_content claudeSite _ (articleOf None)); by_computation. }
  apply outcomes_survive.
  { apply (survives claudeSite _ _ (articleOf (Some (js "<p>A</p>")))
             (js "<p>A</p>")); by_computation. }
  apply outcomes_nil.
Defined.

Lemma surviving_fragments_are_joined_witness :
  convertPageToMarkdown claudeSite (createTestDocument [] conversation)
  = Normal (Success (js "## Q\n\n---\n\nA"))
  /\ (forall reason,
        convertPageToMarkdown claudeSite (createTestDocument [] conversation)
          = Normal (Failure reason) ->
        5 = length (map (fun h => {| outerHTML := h |}) conversation)).
Proof.
  destruct (surviving_fragments_are_joined claudeSite
              (createTestDocument [] conversation)
              (map (fun h => {| outerHTML := h |}) conversation) 5
              [js "## Q"; js "A"]) as [Hjoined Hfailure].
  - by_computation.
  - by_computation.
  - vm_compute. lia.
  - exact conversation_outcomes.
  - split; [|exact Hfailure].
    destruct Hjoined as [first [others [E [Hc _]]]]; [vm_compute; lia|].
    injection E as <- <-. rewrite Hc. vm_compute. reflexivity.
Defined.

Lemma generic_extraction_failures_witness :
  convertPageToMarkdown genericSite (createTestDocument (js "ab") [])
    = Normal (Failure (js "記事内容の抽出に失敗しました"))
  /\ convertPageToMarkdown genericSite (createTestDocument (js "    ") [])
     = Normal (Failure
                 (js "抽出されたコンテンツにcontentプロパティがありません")).
Proof.
  split.
  - refine (proj1 (generic_extraction_failures genericSite
                     (createTestDocument (js "ab") [])
                     {| outerHTML := js "ab" |} _ _) _); by_computation.
  - refine (proj2 (generic_extraction_failures genericSite
                     (createTestDocument (js "    ") [])
                     {| outerHTML := js "    " |} _ _)
              (articleOf (Some (js "    "))) _ _); try by_computation.
    right. exists (js "    "). split; by_computation.
Defined.

Lemma no_exception_escapes_witness :
  convertPageToMarkdown genericSite bodylessDocument
    = Normal (Failure (nullPropertyMessage genericSite))
  /\ convertPageToMarkdown claudeSite bodylessDocument
     = Normal (Failure (js "ページの変換に失敗しました"))
  /\ convertPageToMarkdown genericSite (createTestDocument (js "!raise") [])
     = Normal (Failure (js "記事内容の抽出に失敗しました")).
Proof.
  split; [|split].
  - apply (proj1 (proj2 (no_exception_escapes genericSite bodylessDocument))
             (ErrorObject (nullPropertyMessage genericSite))).
    by_computation.
  - apply (proj1 (proj2 (no_exception_escapes claudeSite bodylessDocument))
             NonError).
    by_computation.
  - refine (proj1 (proj2 (proj2 (no_exception_escapes genericSite
                                   (createTestDocument (js "!raise") []))))
              {| outerHTML := js "!raise" |}
              (ErrorObject (js "parse error")) _ _ _); by_computation.
Defined.

Lemma no_marker_elements_is_failure_witness :
  convertPageToMarkdown claudeSite (createTestDocument (js "<body></body>") [])
    = Normal (Failure (js "claude.aiで対象要素が見つかりませんでした")).
Proof.
  apply (no_marker_elements_is_failure claudeSite
           (createTestDocument (js "<body></body>") [])); by_computation.
Defined.

Lemma null_body_is_failure_witness :
  bodyOuterHTML genericSite bodylessDocument
    = Throw (ErrorObject (nullPropertyMessage genericSite))
  /\ convertPageToMarkdown genericSite bodylessDocument
     = Normal (Failure (nullPropertyMessage genericSite)).
Proof.
  apply (null_body_is_failure genericSite bodylessDocument); by_computation.
Defined.

(* ================================================================== *)
(** * The matcher and the language of an expression *)
(* ================================================================== *)

Section MatcherFacts.

Variable fl : Flags.

Lemma repeatGreedy_sound (p : char16 -> bool) (k : Continuation)
    (cs : list (nat * jsstring)) (s : jsstring) (y : MatchState) :
  repeatGreedy p k cs s = Some y ->
  exists w s', s = w ++ s' /\ forallb p w = true /\
               k {| rest := s'; caps := cs |} = Some y.
Proof.
  induction s as [|c s IH]; simpl.
  - intros H. now exists [], [].
  - destruct (p c) eqn:Hp.
    + destruct (repeatGreedy p k cs s) as [y'|] eqn:E.
      * intros H. injection H as ->.
        destruct (IH eq_refl) as [w [s' [-> [Hw Hk]]]].
        exists (c :: w), s'. simpl. now rewrite Hp, Hw.
      * intros H. now exists [], (c :: s).
    + intros H. now exists [], (c :: s).
Qed.

Lemma repeatLazy_sound (p : char16 -> bool) (k : Continuation)
    (cs : list (nat * jsstring)) (s : jsstring) (y : MatchState) :
  repeatLazy p k cs s = Some y ->
  exists w s', s = w ++ s' /\ forallb p w = true /\
               k {| rest := s'; caps := cs |} = Some y.
Proof.
  induction s as [|c s IH]; simpl.
  - destruct (k {| rest := []; caps := cs |}) eqn:E; [|discriminate].
    intros H. injection H as ->. now exists [], [].
  - destruct (k {| rest := c :: s; caps := cs |}) eqn:E.
    + intros H. injection H as ->. now exists [], (c :: s).
    + destruct (p c) eqn:Hp; [|discriminate].
      intros H. destruct (IH H) as [w [s' [-> [Hw Hk]]]].
      exists (c :: w), s'. simpl. now rewrite Hp, Hw.
Qed.

(** Whatever the matcher finds, the expression accepts: the code units it
    consumed are a word of the language, and the continuation accepted what
    follows. *)
Lemma matcher_sound (r : Regex) :
  forall (k : Continuation) (x y : MatchState),
    matcher fl r k x = Some y ->
    exists w x', rest x = w ++ rest x' /\ accepts fl r w /\ k x' = Some y.
Proof.
  induction r as [|cs|cs|cs|cs|r1 IH1 r2 IH2|r1 IH1 r2 IH2|n r1 IH1];
    intros k x y; simpl.
  - intros H. now exists [], x.
  - destruct (rest x) as [|c s'] eqn:Ex; [discriminate|].
    destruct (charMatches fl cs c) eqn:Hc; [|discriminate].
    intros H. exists [c], {| rest := s'; caps := caps x |}. simpl.
    repeat split; [|assumption]. now exists c.
  - intros H.
    destruct (repeatGreedy_sound _ _ _ _ _ H) as [w [s' [E [Hw Hk]]]].
    exists w, {| rest := s'; caps := caps x |}. now simpl.
  - destruct (rest x) as [|c s'] eqn:Ex; [discriminate|].
    destruct (charMatches fl cs c) eqn:Hc; [|discriminate].
    intros H.
    destruct (repeatGreedy_sound _ _ _ _ _ H) as [w [s'' [E [Hw Hk]]]].
    exists (c :: w), {| rest := s''; caps := caps x |}. simpl.
    repeat split; [now rewrite E| |assumption]. now exists c, w.
  - intros H.
    destruct (repeatLazy_sound _ _ _ _ _ H) as [w [s' [E [Hw Hk]]]].
    exists w, {| rest := s'; caps := caps x |}. now simpl.
  - intros H. destruct (IH1 _ _ _ H) as [w1 [x1 [E1 [A1 H1]]]].
    destruct (IH2 _ _ _ H1) as [w2 [x2 [E2 [A2 H2]]]].
    exists (w1 ++ w2), x2. rewrite E1, E2, app_assoc.
    repeat split; [|assumption]. now exists w1, w2.
  - destruct (matcher fl r1 k x) as [y'|] eqn:E.
    + intros H. injection H as ->.
      destruct (IH1 _ _ _ E) as [w [x' [Ew [A Hk]]]].
      exists w, x'. auto.
    + intros H. destruct (IH2 _ _ _ H) as [w [x' [Ew [A Hk]]]].
      exists w, x'. auto.
  - intros H. destruct (IH1 _ _ _ H) as [w [x' [Ew [A Hk]]]].
    exists w, {| rest := rest x';
                 caps := (n, consumed (rest x) (rest x')) :: caps x' |}.
    now simpl.
Qed.

End MatcherFacts.

Lemma matchAt_accepts (re : RegExp) (s : jsstring) (mr : MatchResult) :
  matchAt re s = Some mr ->
  exists w t, s = w ++ t /\ accepts (flags re) (source re) w.
Proof.
  unfold matchAt.
  destruct (matcher (flags re) (source re) (fun y => Some y)
              {| rest := s; caps := [] |}) as [y|] eqn:E; [|discriminate].
  intros _. destruct (matcher_sound _ _ _ _ _ E) as [w [x' [Ew [A _]]]].
  exists w, (rest x'). auto.
Qed.

(** ** What the shape of an expression says of its words *)

Section Shapes.

Variable fl : Flags.

Lemma Canonicalize_not_letter (c p : char16) :
  isLetter p = false ->
  Canonicalize fl c = Canonicalize fl p -> c = p.
Proof.
  unfold isLetter, Canonicalize. intros Hp.
  apply orb_false_iff in Hp as [H1 H2].
  destruct (ignoreCase fl); [|auto].
  rewrite H2.
  destruct ((97 <=? c)%N && (c <=? 122)%N) eqn:Hc; [|auto].
  intros E. exfalso.
  apply andb_true_iff in Hc as [Ha Hb].
  apply N.leb_le in Ha, Hb.
  apply andb_false_iff in H1 as [H1|H1]; apply N.leb_gt in H1; lia.
Qed.

Lemma onlyChar_sound (cs : CharSet) (p c : char16) :
  onlyChar cs p = true -> charMatches fl cs c = true -> c = p.
Proof.
  destruct cs as [q| | |]; simpl; try discriminate.
  intros H. apply andb_true_iff in H as [Hq Hl].
  apply N.eqb_eq in Hq as ->. apply negb_true_iff in Hl.
  intros H. apply N.eqb_eq in H. now apply Canonicalize_not_letter.
Qed.

Lemma firstIs_sound (p : char16) (r : Regex) (w : jsstring) :
  firstIs p r = true -> accepts fl r w -> exists w', w = p :: w'.
Proof.
  revert w.
  induction r as [|cs|cs|cs|cs|r1 IH1 r2 IH2|r1 IH1 r2 IH2|n r1 IH1];
    intros w; simpl; try discriminate.
  - intros H [c [-> Hc]]. rewrite (onlyChar_sound cs p c H Hc). now exists [].
  - intros H [c [w' [-> [Hc _]]]]. rewrite (onlyChar_sound cs p c H Hc).
    now exists w'.
  - intros H [w1 [w2 [-> [A1 _]]]]. destruct (IH1 w1 H A1) as [w' ->].
    now exists (w' ++ w2).
  - intros H. apply andb_true_iff in H as [H1 H2]. intros [A|A]; auto.
  - auto.
Qed.

Lemma firstAvoids_sound (p : char16) (r : Regex) (w : jsstring) :
  firstAvoids fl p r = true -> accepts fl r w ->
  exists c w', w = c :: w' /\ c <> p.
Proof.
  revert w.
  induction r as [|cs|cs|cs|cs|r1 IH1 r2 IH2|r1 IH1 r2 IH2|n r1 IH1];
    intros w; simpl; try discriminate.
  - intros H [c [-> Hc]]. exists c, []. split; [reflexivity|].
    intros ->. rewrite Hc in H. discriminate.
  - intros H [c [w' [-> [Hc _]]]]. exists c, w'. split; [reflexivity|].
    intros ->. rewrite Hc in H. discriminate.
  - intros H [w1 [w2 [-> [A1 _]]]].
    destruct (IH1 w1 H A1) as [c [w' [-> Hc]]]. now exists c, (w' ++ w2).
  - intros H. apply andb_true_iff in H as [H1 H2]. intros [A|A]; auto.
  - auto.
Qed.

Lemma secondAvoids_sound (p : char16) (r : Regex) (w : jsstring) :
  secondAvoids fl p r = true -> accepts fl r w ->
  exists c d w', w = c :: d :: w' /\ d <> p.
Proof.
  revert w.
  induction r as [|cs|cs|cs|cs|r1 IH1 r2 IH2|r1 IH1 r2 IH2|n r1 IH1];
    intros w; simpl; try discriminate.
  - destruct (isAtom r1) eqn:Ha.
    + destruct r1; try discriminate. simpl.
      intros H [w1 [w2 [-> [[c [-> _]] A2]]]].
      destruct (firstAvoids_sound p r2 w2 H A2) as [d [w' [-> Hd]]].
      now exists c, d, w'.
    + intros H [w1 [w2 [-> [A1 _]]]].
      destruct (IH1 w1 H A1) as [c [d [w' [-> Hd]]]].
      now exists c, d, (w' ++ w2).
  - intros H. apply andb_true_iff in H as [H1 H2]. intros [A|A]; auto.
  - auto.
Qed.

Lemma contains_sound (p : char16) (r : Regex) (w : jsstring) :
  contains p r = true -> accepts fl r w -> In p w.
Proof.
  revert w.
  induction r as [|cs|cs|cs|cs|r1 IH1 r2 IH2|r1 IH1 r2 IH2|n r1 IH1];
    intros w; simpl; try discriminate.
  - intros H [c [-> Hc]]. left. now apply (onlyChar_sound cs p c).
  - intros H [c [w' [-> [Hc _]]]]. left. now apply (onlyChar_sound cs p c).
  - intros H [w1 [w2 [-> [A1 A2]]]]. apply in_or_app.
    apply orb_true_iff in H as [H|H]; [left|right]; auto.
  - intros H. apply andb_true_iff in H as [H1 H2]. intros [A|A]; auto.
  - auto.
Qed.

End Shapes.

Lemma existsb_eqb_In (p : char16) (s : jsstring) :
  In p s -> existsb (N.eqb p) s = true.
Proof.
  intros H. apply existsb_exists. exists p. split; [assumption|].
  apply N.eqb_refl.
Qed.

(** A match of a tag-shaped expression starts a raw tag. *)
Lemma tagShaped_startsTag (re : RegExp) (s : jsstring) (mr : MatchResult) :
  tagShaped re = true -> matchAt re s = Some mr -> startsTag s = true.
Proof.
  unfold tagShaped. intros H Hm.
  apply andb_true_iff in H as [H H3]. apply andb_true_iff in H as [H1 H2].
  destruct (matchAt_accepts re s mr Hm) as [w [t [-> A]]].
  destruct (firstIs_sound _ _ _ _ H1 A) as [w1 E1].
  destruct (secondAvoids_sound _ _ _ _ H2 A) as [c [d [w' [E2 Hd]]]].
  pose proof (contains_sound _ _ _ _ H3 A) as Hin.
  rewrite E2 in E1. injection E1 as -> _. subst w. simpl.
  apply N.eqb_neq in Hd. rewrite Hd. simpl.
  apply existsb_eqb_In. apply in_or_app. left.
  destruct Hin as [E|[E|Hin]]; [discriminate| |assumption].
  subst d. now rewrite N.eqb_refl in Hd.
Qed.

(** [startsTag] is the renderer's own notion of a raw tag: it holds exactly
    where the tag-stripping expression matches. *)
Lemma NOT_GT_spec (c : char16) :
  charMatches caseSensitive NOT_GT c = negb (62 =? c)%N.
Proof.
  unfold charMatches, NOT_GT. change (js ">") with [62%N].
  unfold Canonicalize. cbn [existsb caseSensitive ignoreCase].
  rewrite orb_false_r. now destruct (62 =? c)%N.
Qed.

Lemma repeatGreedy_finds_gt (cs : list (nat * jsstring)) (s : jsstring) :
  existsb (N.eqb 62) s = true ->
  exists y,
    repeatGreedy (charMatches caseSensitive NOT_GT)
      (matcher caseSensitive (Atom (Lit 62%N)) (fun y => Some y)) cs s
    = Some y.
Proof.
  induction s as [|c s IH]; [discriminate|].
  cbn [existsb repeatGreedy]. rewrite NOT_GT_spec.
  destruct (62 =? c)%N eqn:Hc.
  - intros _. apply N.eqb_eq in Hc. subst c. eexists. reflexivity.
  - cbn [orb negb]. intros H. destruct (IH H) as [y ->]. now exists y.
Qed.

Lemma RE_TAG_startsTag (s : jsstring) :
  (exists mr, matchAt RE_TAG s = Some mr) <-> startsTag s = true.
Proof.
  split.
  - intros [mr H]. now apply (tagShaped_startsTag RE_TAG s mr).
  - destruct s as [|c [|d s]]; try discriminate. cbn [startsTag].
    intros H. apply andb_true_iff in H as [H H3].
    apply andb_true_iff in H as [H1 H2].
    apply N.eqb_eq in H1. subst c.
    destruct (repeatGreedy_finds_gt [] s H3) as [y Hy].
    unfold matchAt.
    change (flags RE_TAG) with caseSensitive.
    change (source RE_TAG)
      with (Seq (Atom (Lit 60%N)) (Seq (Plus NOT_GT) (Atom (Lit 62%N)))).
    cbn [matcher rest caps].
    change (charMatches caseSensitive (Lit 60%N) 60%N) with true. cbn iota.
    rewrite NOT_GT_spec, N.eqb_sym, H2.
    change (fun x : MatchState =>
              match rest x with
              | [] => None
              | c :: s' =>
                  if charMatches caseSensitive (Lit 62%N) c
                  then Some {| rest := s'; caps := caps x |}
                  else None
              end)
      with (matcher caseSensitive (Atom (Lit 62%N)) (fun y => Some y)).
    rewrite Hy. eexists. reflexivity.
Qed.

(** ** [replace] where the expression matches nowhere *)

Lemma anywhere_false (P : jsstring -> bool) (c : char16) (s : jsstring) :
  anywhere P (c :: s) = false -> P (c :: s) = false /\ anywhere P s = false.
Proof. cbn [anywhere]. apply orb_false_iff. Qed.

Lemma anywhere_nil_false (P : jsstring -> bool) :
  anywhere P [] = false -> P [] = false.
Proof. cbn [anywhere]. now rewrite orb_false_r. Qed.

Lemma replaceFrom_no_match (St : Type) (re : RegExp)
    (replacer : St -> MatchResult -> jsstring * St) (P : jsstring -> bool) :
  (forall t, P t = false -> matchAt re t = None) ->
  forall (s : jsstring) (st : St),
    anywhere P s = false -> replaceFrom re replacer st 0 s = s.
Proof.
  intros HP. induction s as [|c s IH]; intros st H.
  - cbn [replaceFrom]. now rewrite (HP [] (anywhere_nil_false P H)).
  - apply anywhere_false in H as [H1 H2].
    cbn [replaceFrom]. rewrite (HP _ H1). now rewrite IH.
Qed.

Lemma replace_without_tag (St : Type) (re : RegExp)
    (replacer : St -> MatchResult -> jsstring * St) (st : St) (s : jsstring) :
  tagShaped re = true -> hasTag s = false ->
  replaceFrom re replacer st 0 s = s.
Proof.
  intros Hre. apply (replaceFrom_no_match St re replacer startsTag).
  intros t Ht. destruct (matchAt re t) as [mr|] eqn:E; [|reflexivity].
  rewrite (tagShaped_startsTag re t mr Hre E) in Ht. discriminate.
Qed.

(** ** Literal expressions *)

Lemma accepts_literal (p w : jsstring) :
  accepts caseSensitive (cat (map (fun c => Atom (Lit c)) p)) w -> w = p.
Proof.
  revert w. induction p as [|a p IH]; intros w; [easy|].
  cbn [map cat]. destruct (map (fun c => Atom (Lit c)) p) as [|r rs] eqn:E.
  - destruct p; [|discriminate]. simpl.
    intros [c [-> Hc]]. apply N.eqb_eq in Hc. cbn in Hc. now subst.
  - simpl accepts at 1. intros [w1 [w2 [-> [[c [-> Hc]] A2]]]].
    apply N.eqb_eq in Hc. cbn in Hc. subst c. cbn [app]. f_equal.
    now apply IH.
Qed.

Lemma includes_anywhere (s pat : jsstring) :
  includes s pat = anywhere (fun t => startsWith t pat) s.
Proof.
  induction s as [|c s IH]; [reflexivity|].
  cbn [includes anywhere]. now rewrite IH.
Qed.

Lemma replace_without_literal (name : string) (template s : jsstring) :
  includes s (js name) = false ->
  replaceTemplate (RE_ENTITY name) template s = s.
Proof.
  unfold replaceTemplate. rewrite includes_anywhere.
  apply (replaceFrom_no_match unit (RE_ENTITY name) _
           (fun t => startsWith t (js name))).
  - intros t Ht. destruct (matchAt (RE_ENTITY name) t) as [mr|] eqn:E;
      [|reflexivity].
    destruct (matchAt_accepts _ _ _ E) as [w [t' [-> A]]].
    apply accepts_literal in A. subst w.
    assert (Hs : startsWith (js name ++ t') (js name) = true)
      by (apply startsWith_spec; now exists t').
    congruence.
Qed.

(** ** The blank-line expression *)

Lemma needLF_zero (s : jsstring) : needLF s 0 = true.
Proof. now destruct s. Qed.

Lemma needLF_less (s : jsstring) :
  forall n, needLF s (S n) = true -> needLF s n = true.
Proof.
  induction s as [|c s IH]; intros n; [discriminate|].
  destruct n as [|n]; [reflexivity|]. cbn [needLF].
  destruct (c =? LF)%N; [apply IH|].
  destruct (isWhiteSpace c); [apply IH|discriminate].
Qed.

Lemma needLF_skip (w t : jsstring) (n : nat) :
  forallb isWhiteSpace w = true -> needLF t n = true ->
  needLF (w ++ t) n = true.
Proof.
  intros Hw Ht. induction w as [|c w IH]; [assumption|].
  simpl in Hw. apply andb_true_iff in Hw as [Hc Hw]. specialize (IH Hw).
  destruct n as [|n]; [reflexivity|]. cbn [app needLF].
  rewrite Hc. destruct (c =? LF)%N; [|assumption]. now apply needLF_less.
Qed.

Lemma blankLines_startsBlankLines (s : jsstring) (mr : MatchResult) :
  matchAt RE_BLANK_LINES s = Some mr -> startsBlankLines s = true.
Proof.
  intros Hm. destruct (matchAt_accepts _ _ _ Hm) as [w [t [-> A]]].
  simpl in A.
  destruct A as [w1 [r1 [-> [[c1 [-> H1]] A]]]].
  destruct A as [w2 [r2 [-> [H2 A]]]].
  destruct A as [w3 [r3 [-> [[c3 [-> H3]] A]]]].
  destruct A as [w4 [r4 [-> [H4 [c5 [-> H5]]]]]].
  apply N.eqb_eq in H1, H3, H5. cbn in H1, H3, H5. subst c1 c3 c5.
  cbn [app startsBlankLines]. rewrite N.eqb_refl. cbn [andb].
  rewrite <- !app_assoc. apply needLF_skip; [exact H2|].
  cbn [app needLF]. rewrite N.eqb_refl. rewrite <- app_assoc.
  apply needLF_skip; [exact H4|].
  cbn [app needLF]. rewrite N.eqb_refl. apply needLF_zero.
Qed.

Lemma replace_without_blankLines (template s : jsstring) :
  hasBlankLines s = false ->
  replaceTemplate RE_BLANK_LINES template s = s.
Proof.
  unfold replaceTemplate.
  apply (replaceFrom_no_match unit RE_BLANK_LINES _ startsBlankLines).
  intros t Ht. destruct (matchAt RE_BLANK_LINES t) as [mr|] eqn:E;
    [|reflexivity].
  rewrite (blankLines_startsBlankLines t mr E) in Ht. discriminate.
Qed.

Lemma replaceTemplate_without_tag (re : RegExp) (template s : jsstring) :
  tagShaped re = true -> hasTag s = false -> replaceTemplate re template s = s.
Proof. apply replace_without_tag. Qed.

Lemma replaceFunction_without_tag (re : RegExp) (f : MatchResult -> jsstring)
    (s : jsstring) :
  tagShaped re = true -> hasTag s = false -> replaceFunction re f s = s.
Proof. apply replace_without_tag. Qed.

(* ================================================================== *)
(** * Properties of [convertHtmlToMarkdown] *)
(* ================================================================== *)

Example render_heading_and_paragraph :
  convertHtmlToMarkdown (js "<h1>T</h1><p>Body</p>") = js "# T\n\nBody".
Proof. by_computation. Qed.

Example render_inline_markup :
  convertHtmlToMarkdown
    (js "<p>Body <b>x</b> &amp; <a href='u'>l</a></p><pre>k</pre>")
  = js "Body **x** & [l](u)\n\n```\nk\n```".
Proof. by_computation. Qed.

Example render_images :
  convertHtmlToMarkdown
    (js "<img src='s' alt='t'><img alt='t2' src='s2'><img src='s3'>")
  = js "![t](s)![t2](s2)![](s3)".
Proof. by_computation. Qed.

(** The emphasis expression also takes [<img] for an opening [<i]. *)
Example render_image_before_emphasis :
  convertHtmlToMarkdown (js "a<br>b<img src='s' alt='t'><em>e</em>")
  = js "a\nb*e*".
Proof. by_computation. Qed.

Example render_unordered_list :
  convertHtmlToMarkdown (js "<ul>\n<li>a</li>\n<li>b</li>\n</ul>tail")
  = js "- a\n\n- b\n\ntail".
Proof. by_computation. Qed.

(** C6.  The renderer at an ordered list of two items.  The text of the
    items does not reach the output: each item line is the counter followed
    by the characters [$1] of the replacer's template literal, where the
    unordered list, one pass earlier, substitutes the item text. *)
Theorem ordered_list_items_lose_their_text :
  convertHtmlToMarkdown (js "<ol><li>a</li><li>b</li></ol>") = js "1. $1\n2. $1"
  /\ convertHtmlToMarkdown (js "<ol><li>a</li><li>b</li></ol>")
     <> js "1. a\n2. b"
  /\ convertHtmlToMarkdown (js "<ul><li>a</li><li>b</li></ul>") = js "- a\n- b"
  /\ (forall counter mr,
        olItemReplacer counter mr
        = (numberToString counter ++ js ". $1\n", S counter)).
Proof.
  repeat split; by_computation.
Qed.

(** C7, as stated, fails: text without any tag is changed by the entity and
    blank-line passes. *)
Lemma render_of_plain_text_counterexample :
  hasTag (js "a &amp; b") = false
  /\ convertHtmlToMarkdown (js "a &amp; b") = js "a & b"
  /\ convertHtmlToMarkdown (js "a &amp; b") <> trim (js "a &amp; b")
  /\ hasTag (js "a\n\n\nb") = false
  /\ convertHtmlToMarkdown (js "a\n\n\nb") = js "a\n\nb"
  /\ convertHtmlToMarkdown (js "a\n\n\nb") <> trim (js "a\n\n\nb").
Proof.
  repeat split; by_computation.
Qed.

(** C7, amended.  For every string that holds no raw tag (no [<] followed by
    one or more code units other than [>] and then [>]), none of the entity
    references [&amp;], [&lt;], [&gt;], [&quot;], [&#39;], and no line feed
    followed through white space only by two further line feeds, the
    renderer returns the string trimmed of leading and trailing white
    space. *)
Theorem render_of_plain_text_is_trim (s : jsstring) :
  hasTag s = false ->
  includes s (js "&amp;") = false ->
  includes s (js "&lt;") = false ->
  includes s (js "&gt;") = false ->
  includes s (js "&quot;") = false ->
  includes s (js "&#39;") = false ->
  hasBlankLines s = false ->
  convertHtmlToMarkdown s = trim s.
Proof.
  intros Htag Hamp Hlt Hgt Hquot Hapos Hblank.
  unfold convertHtmlToMarkdown.
  rewrite (replaceTemplate_without_tag (RE_HEADING "h1") _ s eq_refl Htag).
  rewrite (replaceTemplate_without_tag (RE_HEADING "h2") _ s eq_refl Htag).
  rewrite (replaceTemplate_without_tag (RE_HEADING "h3") _ s eq_refl Htag).
  rewrite (replaceTemplate_without_tag (RE_HEADING "h4") _ s eq_refl Htag).
  rewrite (replaceTemplate_without_tag (RE_HEADING "h5") _ s eq_refl Htag).
  rewrite (replaceTemplate_without_tag (RE_HEADING "h6") _ s eq_refl Htag).
  rewrite (replaceTemplate_without_tag RE_P _ s eq_refl Htag).
  rewrite (replaceTemplate_without_tag RE_STRONG _ s eq_refl Htag).
  rewrite (replaceTemplate_without_tag RE_EM _ s eq_refl Htag).
  rewrite (replaceTemplate_without_tag RE_CODE _ s eq_refl Htag).
  rewrite (replaceTemplate_without_tag RE_PRE _ s eq_refl Htag).
  rewrite (replaceTemplate_without_tag RE_A _ s eq_refl Htag).
  rewrite (replaceTemplate_without_tag RE_IMG_SRC_ALT _ s eq_refl Htag).
  rewrite (replaceTemplate_without_tag RE_IMG_ALT_SRC _ s eq_refl Htag).
  rewrite (replaceTemplate_without_tag RE_IMG_SRC _ s eq_refl Htag).
  rewrite (replaceFunction_without_tag RE_UL _ s eq_refl Htag).
  rewrite (replaceFunction_without_tag RE_OL _ s eq_refl Htag).
  rewrite (replaceTemplate_without_tag RE_BR _ s eq_refl Htag).
  rewrite (replaceTemplate_without_tag RE_TAG _ s eq_refl Htag).
  rewrite (replace_without_literal "&amp;" _ s Hamp).
  rewrite (replace_without_literal "&lt;" _ s Hlt).
  rewrite (replace_without_literal "&gt;" _ s Hgt).
  rewrite (replace_without_literal "&quot;" _ s Hquot).
  rewrite (replace_without_literal "&#39;" _ s Hapos).
  rewrite (replace_without_blankLines _ s Hblank).
  reflexivity.
Qed.

Lemma render_of_plain_text_is_trim_witness :
  convertHtmlToMarkdown (js "  1 < 2 and x & y\n\n") =
  trim (js "  1 < 2 and x & y\n\n").
Proof.
  apply (render_of_plain_text_is_trim (js "  1 < 2 and x & y\n\n"));
    by_computation.
Defined.

(* ================================================================== *)
(** * Properties of [handleConvertToMarkdown] *)
(* ================================================================== *)

Lemma createMarkdownHeader_eq (g : Globals) (document : Document) :
  ContentScript.createMarkdownHeader g document =
  js "# "
    ++ (if truthy (doc_title document) then doc_title document else js "無題")
    ++ js "\n\nURL: "
    ++ match location g with Some loc => href loc | None => [] end.
Proof.
  unfold ContentScript.createMarkdownHeader, ContentScript.orElse.
  do 3 f_equal. destruct (location g) as [loc|]; [|reflexivity].
  now destruct (href loc).
Qed.

(** C9, as stated, fails for a page without a title: the header is built
    with the fallback title, not with the empty title of the page. *)
Lemma clipboard_text_counterexample :
  convertPageToMarkdown genericSite untitledDocument
    = Normal (Success (js "Hello"))
  /\ doc_title untitledDocument = []
  /\ ContentScript.handleConvertToMarkdown genericSite untitledDocument
       (convertPageToMarkdown genericSite) (fun _ => Normal true)
       toastShown toastShown
     = ([ContentScript.CopyToClipboard
           (js "# 無題\n\nURL: https://example.com\n\n---\n\nHello");
         ContentScript.ShowSuccessToast ContentScript.SUCCESS_COPY_MESSAGE],
        Normal tt)
  /\ js "# 無題\n\nURL: https://example.com\n\n---\n\nHello"
     <> js "# " ++ doc_title untitledDocument ++ js "\n\nURL: "
          ++ js "https://example.com" ++ js "\n\n---\n\n" ++ js "Hello".
Proof.
  repeat split; by_computation.
Qed.

(** C9, amended.  For every successful conversion the text handed to the
    clipboard is exactly the header, then the separator, then the markdown
    of the conversion, and nothing else is handed to the clipboard; the
    header is [# title], a blank line and [URL: url], where the title is the
    page's title, or the fallback title when the page's title is empty, and
    the url is the [href] of the location, or empty without a location.
    The write is the first call of the run; a toast follows, and no further
    call when that toast returns. *)
Theorem clipboard_text_is_header_separator_body (g : Globals)
    (document : Document)
    (convert : Document -> Completion ConvertResult)
    (copyToClipboard : jsstring -> Completion bool)
    (showErrorToast showSuccessToast : jsstring -> Completion unit)
    (markdown : jsstring) :
  convert document = Normal (Success markdown) ->
  exists toast others,
    fst (ContentScript.handleConvertToMarkdown g document convert
           copyToClipboard showErrorToast showSuccessToast)
    = ContentScript.CopyToClipboard
        (js "# "
           ++ (if truthy (doc_title document) then doc_title document
               else js "無題")
           ++ js "\n\nURL: "
           ++ match location g with Some loc => href loc | None => [] end
           ++ js "\n\n---\n\n" ++ markdown)
      :: toast :: others
    /\ (forall text, toast <> ContentScript.CopyToClipboard text)
    /\ (forall text, ~ In (ContentScript.CopyToClipboard text) others)
    /\ (callToast showErrorToast showSuccessToast toast = Normal tt ->
        others = []).
Proof.
  intros H. unfold ContentScript.handleConvertToMarkdown. rewrite H.
  rewrite createMarkdownHeader_eq. cbv zeta.
  replace ((js "# "
              ++ (if truthy (doc_title document) then doc_title document
                  else js "無題")
              ++ js "\n\nURL: "
              ++ match location g with Some loc => href loc | None => [] end)
             ++ ContentScript.MARKDOWN_SEPARATOR ++ markdown)
    with (js "# "
            ++ (if truthy (doc_title document) then doc_title document
                else js "無題")
            ++ js "\n\nURL: "
            ++ match location g with Some loc => href loc | None => [] end
            ++ js "\n\n---\n\n" ++ markdown)
    by (now rewrite <- !app_assoc).
  unfold ContentScript.toastInTry, ContentScript.catchBlock.
  match goal with
  | |- context [copyToClipboard ?t] => destruct (copyToClipboard t) as [[|]|e]
  end.
  - destruct (showSuccessToast ContentScript.SUCCESS_COPY_MESSAGE)
      as [[]|e] eqn:E; eexists; eexists;
      (split; [reflexivity|]); (split; [discriminate|]); split.
    + intros text [].
    + reflexivity.
    + intros text [Hin|[]]. discriminate Hin.
    + cbn [callToast]. rewrite E. discriminate.
  - destruct (showErrorToast ContentScript.ERROR_CLIPBOARD_COPY)
      as [[]|e] eqn:E; eexists; eexists;
      (split; [reflexivity|]); (split; [discriminate|]); split.
    + intros text [].
    + reflexivity.
    + intros text [Hin|[]]. discriminate Hin.
    + cbn [callToast]. rewrite E. discriminate.
  - eexists; eexists. split; [reflexivity|]. split; [discriminate|].
    split; [intros text []|reflexivity].
Qed.

Lemma clipboard_text_is_header_separator_body_witness :
  exists toast others,
    fst (ContentScript.handleConvertToMarkdown genericSite
           (createTestDocument (js "<p>Hello</p>") [])
           (convertPageToMarkdown genericSite) (fun _ => Normal true)
           toastShown toastShown)
    = ContentScript.CopyToClipboard
        (js "# "
           ++ (if truthy (doc_title (createTestDocument (js "<p>Hello</p>") []))
               then doc_title (createTestDocument (js "<p>Hello</p>") [])
               else js "無題")
           ++ js "\n\nURL: "
           ++ match location genericSite with
              | Some loc => href loc
              | None => []
              end
           ++ js "\n\n---\n\n" ++ js "Hello")
      :: toast :: others
    /\ (forall text, toast <> ContentScript.CopyToClipboard text)
    /\ (forall text, ~ In (ContentScript.CopyToClipboard text) others)
    /\ (callToast toastShown toastShown toast = Normal tt -> others = []).
Proof.
  apply (clipboard_text_is_header_separator_body genericSite
           (createTestDocument (js "<p>Hello</p>") [])
           (convertPageToMarkdown genericSite) (fun _ => Normal true)
           toastShown toastShown (js "Hello")).
  by_computation.
Defined.

(* ================================================================== *)
(** * Further properties of the conversion pipeline *)
(* ================================================================== *)

(** ** Trimmed strings *)

Lemma trimStart_solid (c : char16) (t : jsstring) :
  isWhiteSpace c = false -> trimStart (c :: t) = c :: t.
Proof. intros H. simpl. now rewrite H. Qed.

Lemma trimEnd_solid (t : jsstring) (d : char16) :
  isWhiteSpace d = false -> trimEnd (t ++ [d]) = t ++ [d].
Proof.
  intros H. unfold trimEnd. rewrite rev_app_distr. cbn [rev app].
  rewrite (trimStart_solid d (rev t) H). cbn [rev].
  now rewrite rev_involutive.
Qed.

(** A trimmed string is empty, or starts and ends with a code unit that is
    no white space. *)
Lemma trim_shape (s : jsstring) :
  trim s = [] \/
  exists c t d u, trim s = c :: t /\ trim s = u ++ [d] /\
                  isWhiteSpace c = false /\ isWhiteSpace d = false.
Proof.
  destruct (trim s) as [|c t] eqn:E; [now left|right].
  pose proof (trim_starts_solid s c t E) as Hc.
  unfold trim, trimEnd in E.
  destruct (trimStart (rev (trimStart s))) as [|d w] eqn:Ew;
    [discriminate|].
  pose proof (trimStart_head _ _ _ Ew) as Hd.
  cbn [rev] in E. exists c, t, d, (rev w). repeat split; auto.
Qed.

Lemma solid_ends_trimmed (c d : char16) (t u : jsstring) :
  c :: t = u ++ [d] ->
  isWhiteSpace c = false -> isWhiteSpace d = false ->
  trim (c :: t) = c :: t.
Proof.
  intros E Hc Hd. unfold trim. rewrite (trimStart_solid c t Hc).
  rewrite E. now apply trimEnd_solid.
Qed.

Lemma trim_idempotent (s : jsstring) : trim (trim s) = trim s.
Proof.
  destruct (trim_shape s) as [E | [c [t [d [u [E1 [E2 [Hc Hd]]]]]]]].
  - now rewrite E.
  - rewrite E1. apply (solid_ends_trimmed c d t u); auto. congruence.
Qed.

Lemma convertHtmlToMarkdown_trimmed (html : jsstring) :
  trim (convertHtmlToMarkdown html) = convertHtmlToMarkdown html.
Proof. unfold convertHtmlToMarkdown. apply trim_idempotent. Qed.

Lemma last_cons_default (q p : jsstring) (rest : list jsstring) :
  last (q :: rest) p = last rest q.
Proof.
  revert q p. induction rest as [|r rest IH]; intros q p; [reflexivity|].
  change (last (q :: r :: rest) p) with (last (r :: rest) p).
  rewrite IH. symmetry. apply IH.
Qed.

Lemma last_In (p : jsstring) (rest : list jsstring) :
  In (last rest p) (p :: rest).
Proof.
  revert p. induction rest as [|q rest IH]; intros p; [now left|].
  rewrite last_cons_default. right. apply IH.
Qed.

Lemma join_ends (sep p : jsstring) (rest : list jsstring) :
  exists tail front,
    join sep (p :: rest) = p ++ tail /\
    join sep (p :: rest) = front ++ last rest p.
Proof.
  revert p. induction rest as [|q rest IH]; intros p.
  - exists [], []. cbn. now rewrite app_nil_r.
  - destruct (IH q) as [tail [front [E1 E2]]].
    exists (sep ++ join sep (q :: rest)), (p ++ sep ++ front). split.
    + reflexivity.
    + change (join sep (p :: q :: rest)) with (p ++ sep ++ join sep (q :: rest)).
      rewrite E2, last_cons_default. now rewrite <- !app_assoc.
Qed.

(** A join of non-empty trimmed parts is trimmed. *)
Lemma join_trimmed (sep p : jsstring) (rest : list jsstring) :
  (forall q, In q (p :: rest) -> q <> [] /\ trim q = q) ->
  trim (join sep (p :: rest)) = join sep (p :: rest).
Proof.
  intros H. destruct (join_ends sep p rest) as [tail [front [E1 E2]]].
  destruct (H p (or_introl eq_refl)) as [Hp Tp].
  destruct (H _ (last_In p rest)) as [Hq Tq].
  destruct (trim_shape p) as [E | [c [t [_ [_ [Ec [_ [Hc _]]]]]]]];
    [congruence|].
  destruct (trim_shape (last rest p)) as [E | [_ [_ [d [u [_ [Ed [_ Hd]]]]]]]];
    [congruence|].
  rewrite Tp in Ec. rewrite Tq in Ed.
  assert (Ej : join sep (p :: rest) = c :: (t ++ tail))
    by (rewrite E1, Ec; reflexivity).
  rewrite Ej. apply (solid_ends_trimmed c d (t ++ tail) (front ++ u)); auto.
  rewrite <- Ej, E2, Ed. now rewrite app_assoc.
Qed.

Lemma sectionOf_trimmed (g : Globals) (e : Element) (f : jsstring) :
  In f (sectionOf g e) -> f <> [] /\ trim f = f.
Proof.
  unfold sectionOf.
  destruct (convertElementToMarkdown g e) as [[md|]|]; simpl; try tauto.
  destruct (truthy md && truthy (trim md)) eqn:E; simpl; try tauto.
  intros [<- | []]. apply andb_true_iff in E as [_ E].
  split; [now apply truthy_true | apply trim_idempotent].
Qed.

(** X1.  The markdown of a successful conversion is trimmed: it has no
    leading and no trailing white space, on the generic path (the render
    ends with [trim]) and on the site-specific path (every section is
    trimmed before the join). *)
Theorem success_markdown_is_trimmed (g : Globals) (document : Document)
    (markdown : jsstring) :
  convertPageToMarkdown g document = Normal (Success markdown) ->
  trim markdown = markdown.
Proof.
  destruct (isClaudeAiSite g) eqn:Hsite.
  - rewrite (claude_path g document Hsite).
    destruct (extractClaudeAiElements document) as [elements|err] eqn:He.
    + rewrite (processClaudeAiPage_try_eq g document elements He).
      destruct elements as [|e es]; [discriminate|].
      destruct (flat_map (sectionOf g) (e :: es)) as [|p rest] eqn:Hs;
        [discriminate|].
      cbn [try_catch].
      remember (join SECTION_SEPARATOR (p :: rest)) as joined eqn:Ej.
      intros H. injection H as <-. subst joined.
      apply join_trimmed. intros q Hq. rewrite <- Hs in Hq.
      apply in_flat_map in Hq as [e' [_ Hq]].
      now apply (sectionOf_trimmed g e').
    + unfold processClaudeAiPage_try. rewrite He. discriminate.
  - rewrite (generic_path g document Hsite). unfold convertPageToMarkdown_try.
    destruct (bodyOuterHTML g document) as [html|err]; [|discriminate].
    cbn [bind]. destruct (extractPageContent_normal g html) as [[a|] ->];
      [|discriminate].
    cbn [bind]. unfold convertToMarkdown.
    destruct (content a) as [c|]; [|discriminate].
    destruct (negb (truthy c) || negb (truthy (trim c))); [discriminate|].
    cbn [bind try_catch].
    destruct (negb (truthy (trim (convertHtmlToMarkdown c)))); [discriminate|].
    intros H. injection H as <-. apply convertHtmlToMarkdown_trimmed.
Qed.

Lemma success_markdown_is_trimmed_witness :
  trim (join (js "\n\n---\n\n") [js "## Q"; js "A"])
  = join (js "\n\n---\n\n") [js "## Q"; js "A"].
Proof.
  apply (success_markdown_is_trimmed claudeSite
           (createTestDocument [] conversation)).
  by_computation.
Defined.

Lemma failure_inj (a b : jsstring) :
  @Normal ConvertResult (Failure a) = Normal (Failure b) -> a = b.
Proof. intros H. now injection H. Qed.

(** X2.  The reasons of a failed conversion.  On the generic path the reason
    is the extraction-failed, the content-property or the empty-markdown
    message, or the message of the [TypeError] for a [null] body; the
    default message is the reason there only on a page without a body, and
    only if the engine gives its [TypeError] that very message.  On the
    site-specific
    path the reason is the no-elements or the empty-markdown message, unless
    the query for the marker elements itself raised; what goes wrong inside
    one element never reaches the reason. *)
Theorem failure_reasons (g : Globals) (document : Document)
    (reason : jsstring) :
  convertPageToMarkdown g document = Normal (Failure reason) ->
  if isClaudeAiSite g
  then reason = CLAUDE_AI_NO_ELEMENTS_ERROR
       \/ reason = EMPTY_MARKDOWN_ERROR
       \/ exists error,
            querySelectorAll document (js "[data-test-render-count]")
              = Throw error /\
            reason = match error with
                     | ErrorObject message => message
                     | NonError => DEFAULT_ERROR_MESSAGE
                     end
  else (reason = EXTRACTION_ERROR
        \/ reason = CONTENT_PROPERTY_ERROR
        \/ reason = EMPTY_MARKDOWN_ERROR
        \/ (body document = None /\ reason = nullPropertyMessage g))
       /\ (reason = DEFAULT_ERROR_MESSAGE ->
           body document = None
           /\ nullPropertyMessage g = DEFAULT_ERROR_MESSAGE).
Proof.
  destruct (isClaudeAiSite g) eqn:Hsite.
  - rewrite (claude_path g document Hsite).
    destruct (extractClaudeAiElements document) as [elements|err] eqn:He.
    + rewrite (processClaudeAiPage_try_eq g document elements He).
      destruct elements as [|e es].
      * intros H. apply failure_inj in H. subst reason. left. reflexivity.
      * destruct (flat_map (sectionOf g) (e :: es)); [|discriminate].
        intros H. apply failure_inj in H. subst reason.
        right. left. reflexivity.
    + unfold processClaudeAiPage_try. rewrite He. cbn [bind try_catch].
      unfold catchAsFailure. intros H. apply failure_inj in H. subst reason.
      right. right. exists err. split; [exact He|].
      destruct err; reflexivity.
  - intros Hfail.
    assert (Hone : reason = EXTRACTION_ERROR
                   \/ reason = CONTENT_PROPERTY_ERROR
                   \/ reason = EMPTY_MARKDOWN_ERROR
                   \/ (body document = None /\ reason = nullPropertyMessage g)).
    { revert Hfail. rewrite (generic_path g document Hsite).
      unfold convertPageToMarkdown_try, bodyOuterHTML.
      destruct (body document) as [b|].
      + cbn [bind].
        destruct (extractPageContent_normal g (outerHTML b)) as [[a|] ->].
        * cbn [bind]. unfold convertToMarkdown.
          destruct (content a) as [c|].
          -- destruct (negb (truthy c) || negb (truthy (trim c))).
             ++ intros H. apply failure_inj in H. subst reason.
                right. left. reflexivity.
             ++ cbn [bind try_catch].
                destruct (negb (truthy (trim (convertHtmlToMarkdown c))));
                  [|discriminate].
                intros H. apply failure_inj in H. subst reason.
                right. right. left. reflexivity.
          -- intros H. apply failure_inj in H. subst reason.
             right. left. reflexivity.
        * intros H. apply failure_inj in H. subst reason. left. reflexivity.
      + intros H. apply failure_inj in H. subst reason.
        right. right. right. split; reflexivity. }
    split; [exact Hone|]. intros Hdefault.
    destruct Hone as [H|[H|[H|[Hbody H]]]].
    + exfalso. rewrite Hdefault in H. revert H. by_computation.
    + exfalso. rewrite Hdefault in H. revert H. by_computation.
    + exfalso. rewrite Hdefault in H. revert H. by_computation.
    + split; [exact Hbody|]. now rewrite <- H.
Qed.

Lemma failure_reasons_witness :
  if isClaudeAiSite genericSite
  then nullPropertyMessage genericSite = CLAUDE_AI_NO_ELEMENTS_ERROR
       \/ nullPropertyMessage genericSite = EMPTY_MARKDOWN_ERROR
       \/ exists error,
            querySelectorAll bodylessDocument (js "[data-test-render-count]")
              = Throw error /\
            nullPropertyMessage genericSite
              = match error with
                | ErrorObject message => message
                | NonError => DEFAULT_ERROR_MESSAGE
                end
  else (nullPropertyMessage genericSite = EXTRACTION_ERROR
        \/ nullPropertyMessage genericSite = CONTENT_PROPERTY_ERROR
        \/ nullPropertyMessage genericSite = EMPTY_MARKDOWN_ERROR
        \/ (body bodylessDocument = None /\
            nullPropertyMessage genericSite = nullPropertyMessage genericSite))
       /\ (nullPropertyMessage genericSite = DEFAULT_ERROR_MESSAGE ->
           body bodylessDocument = None
           /\ nullPropertyMessage genericSite = DEFAULT_ERROR_MESSAGE).
Proof.
  refine (failure_reasons genericSite bodylessDocument
            (nullPropertyMessage genericSite) _).
  by_computation.
Defined.

(* ================================================================== *)
(** * Properties of [functions/clipboard.ts] *)
(* ================================================================== *)

Module ClipboardFacts.
Import Clipboard.

Lemma runCalls_prefix (browser : Browser) (cs : list Call) :
  exists rest, cs = fst (runCalls browser cs) ++ rest.
Proof.
  induction cs as [|c cs [rest IH]]; [now exists []|].
  cbn [runCalls]. destruct (raises browser c).
  - now exists cs.
  - destruct (runCalls browser cs) as [made r]. exists rest.
    cbn [fst app] in *. now rewrite <- IH.
Qed.

Lemma runCalls_complete (browser : Browser) (cs : list Call) :
  snd (runCalls browser cs) = None <->
  (forall c, In c cs -> raises browser c = None).
Proof.
  induction cs as [|c cs IH]; cbn [runCalls].
  - split; [intros _ c [] | reflexivity].
  - destruct (raises browser c) eqn:E.
    + split; [discriminate|]. intros H. specialize (H c (or_introl eq_refl)).
      congruence.
    + destruct (runCalls browser cs) as [made r]. cbn [snd] in *. rewrite IH.
      split.
      * intros H d [<-|Hd]; auto.
      * intros H d Hd. apply H. now right.
Qed.

Lemma runCalls_all (browser : Browser) (cs : list Call) :
  snd (runCalls browser cs) = None -> fst (runCalls browser cs) = cs.
Proof.
  induction cs as [|c cs IH]; [reflexivity|]. cbn [runCalls].
  destruct (raises browser c); [discriminate|].
  destruct (runCalls browser cs) as [made r]. cbn [fst snd] in *.
  intros H. now rewrite IH.
Qed.

(** The fallback makes the calls of [fallbackCalls] up to the first that
    raises; it answers what [execCommand] answered when none raised, and
    [false] otherwise. *)
Lemma copyToClipboardFallback_eq (browser : Browser) (text : jsstring) :
  copyToClipboardFallback browser text =
  match runCalls browser (fallbackCalls text) with
  | (made, None) => (made, Normal (execCommandResult browser))
  | (made, Some _) => (made, Normal false)
  end.
Proof.
  unfold copyToClipboardFallback, fallbackCalls, call.
  unfold TEXTAREA_POSITION_FIXED, TEXTAREA_LEFT_OFFSET, TEXTAREA_TOP_OFFSET,
    COPY_COMMAND.
  cbn [runCalls].
  repeat match goal with
         | |- context [raises browser ?c] =>
             destruct (raises browser c);
             [reflexivity | cbn [bindRun tryRun ret app]]
         end.
  reflexivity.
Qed.

Lemma fallback_normal (browser : Browser) (text : jsstring) :
  exists b, snd (copyToClipboardFallback browser text) = Normal b.
Proof.
  rewrite copyToClipboardFallback_eq.
  destruct (runCalls browser (fallbackCalls text)) as [made [e|]];
    cbn [snd]; eauto.
Qed.

(** The answer of [copyToClipboard] is [true] or the fallback's. *)
Lemma copyToClipboard_answer (browser : Browser) (text : jsstring) :
  snd (copyToClipboard browser text) = Normal true \/
  snd (copyToClipboard browser text)
  = snd (copyToClipboardFallback browser text).
Proof.
  unfold copyToClipboard.
  destruct (fallback_normal browser text) as [b Hb].
  destruct (copyToClipboardFallback browser text) as [calls r] eqn:E.
  cbn [snd] in *. subst r.
  destruct (navigator browser) as [error| |].
  - right. reflexivity.
  - right. reflexivity.
  - destruct (isSecureContext browser); [|right; reflexivity].
    unfold call, bindRun, tryRun, ret.
    destruct (raises browser (WriteText text)); [right|left]; reflexivity.
Qed.

(** X3.  [copyToClipboard] always resolves to a boolean, whatever the
    browser raises or rejects. *)
Theorem copyToClipboard_never_rejects (browser : Browser) (text : jsstring) :
  exists b, snd (copyToClipboard browser text) = Normal b.
Proof.
  destruct (copyToClipboard_answer browser text) as [H|H].
  - exists true. exact H.
  - destruct (fallback_normal browser text) as [b Hb]. exists b.
    rewrite H. exact Hb.
Qed.

(** X4.  The Clipboard API is tried exactly when [navigator.clipboard]
    exists and the context is secure, with the given text, once.  When the
    write goes through, the result is [true] and nothing else is called;
    when it rejects, and when the API is not tried at all, the calls that
    follow and the result are those of the fallback for the same text. *)
Theorem copyToClipboard_api_then_fallback (browser : Browser)
    (text : jsstring) :
  (navigator browser = HasClipboard -> isSecureContext browser = true ->
     copyToClipboard browser text =
     match raises browser (WriteText text) with
     | None => ([WriteText text], Normal true)
     | Some _ =>
         (WriteText text :: fst (copyToClipboardFallback browser text),
          snd (copyToClipboardFallback browser text))
     end)
  /\ (navigator browser <> HasClipboard \/ isSecureContext browser = false ->
        copyToClipboard browser text = copyToClipboardFallback browser text).
Proof.
  destruct (fallback_normal browser text) as [b Hb].
  unfold copyToClipboard.
  destruct (copyToClipboardFallback browser text) as [calls r] eqn:E.
  cbn [snd fst] in *. subst r. split.
  - intros -> ->. unfold call, bindRun, tryRun, ret.
    destruct (raises browser (WriteText text)); reflexivity.
  - intros [H|H].
    + destruct (navigator browser); [| |congruence]; cbn;
        now rewrite ?app_nil_r.
    + rewrite H. destruct (navigator browser); cbn; now rewrite ?app_nil_r.
Qed.

(** X5.  The fallback answers [true] exactly when none of its ten browser
    calls raises and [execCommand] answers [true]; the calls it makes are
    always an initial part of the same fixed sequence, in which the value
    given to the textarea is the text to copy. *)
Theorem fallback_true_iff (browser : Browser) (text : jsstring) :
  (snd (copyToClipboardFallback browser text) = Normal true <->
     (forall c, In c (fallbackCalls text) -> raises browser c = None) /\
     execCommandResult browser = true)
  /\ exists rest,
       fallbackCalls text = fst (copyToClipboardFallback browser text) ++ rest.
Proof.
  rewrite copyToClipboardFallback_eq.
  pose proof (runCalls_complete browser (fallbackCalls text)) as Hc.
  destruct (runCalls_prefix browser (fallbackCalls text)) as [rest Hp].
  destruct (runCalls browser (fallbackCalls text)) as [made [e|]];
    cbn [fst snd] in *.
  - split; [|now exists rest]. split; [discriminate|].
    intros [H _]. apply Hc in H. discriminate.
  - split; [|now exists rest]. split.
    + intros H. split; [now apply Hc | congruence].
    + intros [_ ->]. reflexivity.
Qed.

(** X6.  Once the textarea is attached to the page, the fallback removes it
    again exactly when [focus], [select] and [execCommand] do not raise: an
    exception of one of them is answered with [false] and leaves the
    textarea in the page. *)
Theorem fallback_removes_textarea (browser : Browser) (text : jsstring) :
  In AppendChild (fst (copyToClipboardFallback browser text)) ->
  raises browser AppendChild = None ->
  (In RemoveChild (fst (copyToClipboardFallback browser text)) <->
   raises browser Focus = None /\ raises browser Select = None /\
   raises browser (ExecCommand (js "copy")) = None).
Proof.
  rewrite copyToClipboardFallback_eq. unfold fallbackCalls. cbn [runCalls].
  repeat match goal with
         | |- context [match raises browser ?c with _ => _ end] =>
             destruct (raises browser c) eqn:?
         end;
    cbn [fst snd In];
    intros Hin Ha; split; intros H;
    repeat match goal with
           | H : _ \/ _ |- _ => destruct H
           | H : _ /\ _ |- _ => destruct H
           | H : False |- _ => destruct H
           end;
    try discriminate; try congruence; auto 20.
Qed.

(** ** The properties at the browsers of [tests/clipboard.test.ts] *)

Lemma copyToClipboard_api_then_fallback_witness :
  copyToClipboard (mockBrowser true) (js "test text")
  = (WriteText (js "test text") :: fallbackCalls (js "test text"), Normal true)
  /\ copyToClipboard brokenExecCommand (js "test text")
     = copyToClipboardFallback brokenExecCommand (js "test text").
Proof.
  split.
  - refine (eq_trans
              (proj1 (copyToClipboard_api_then_fallback (mockBrowser true)
                        (js "test text")) _ _) _); by_computation.
  - apply (proj2 (copyToClipboard_api_then_fallback brokenExecCommand
                    (js "test text"))).
    left. by_computation.
Defined.

Lemma fallback_removes_textarea_witness :
  ~ In RemoveChild
      (fst (copyToClipboardFallback brokenExecCommand (js "test text")))
  /\ In RemoveChild
       (fst (copyToClipboardFallback (mockBrowser false) (js "test text"))).
Proof.
  split.
  - intros H.
    assert (Ha : In AppendChild
                   (fst (copyToClipboardFallback brokenExecCommand
                           (js "test text")))) by in_calls.
    assert (Hr : raises brokenExecCommand AppendChild = None)
      by by_computation.
    destruct (proj1 (fallback_removes_textarea brokenExecCommand
                       (js "test text") Ha Hr) H) as [_ [_ He]].
    vm_compute in He. discriminate.
  - refine (proj2 (fallback_removes_textarea (mockBrowser false)
                     (js "test text") _ _) _).
    + in_calls.
    + by_computation.
    + repeat split; by_computation.
Defined.

End ClipboardFacts.

(* ================================================================== *)
(** * Properties of [functions/toast.ts] *)
(* ================================================================== *)

Module ToastFacts.
Import Toast.

Lemma strictEquals_spec (a b : jsstring) : strictEquals a b = true <-> a = b.
Proof.
  revert b. induction a as [|x a IH]; intros [|y b]; cbn [strictEquals];
    try (split; [discriminate|discriminate]); try tauto.
  rewrite andb_true_iff, N.eqb_eq, IH. split.
  - now intros [-> ->].
  - intros H. injection H as -> ->. auto.
Qed.

Lemma style_is_no_toast (n : Node) :
  hasId STYLE_ID n = true -> hasId TOAST_ID n = false.
Proof.
  unfold hasId. intros H. apply strictEquals_spec in H. rewrite H.
  by_computation.
Qed.


(** ** Lists of elements *)


Section Lists.

Variable P : Node -> bool.



Lemma find_some_in (l : list Node) (n : Node) :
  find P l = Some n -> In n l /\ P n = true.
Proof. apply find_some. Qed.


End Lists.


(** ** The steps of [showToast] *)





















(** ** The timers *)

Section Relabel.

(** A change of the elements that keeps serial and id. *)
Variable f : Node -> Node.
Hypothesis f_serial : forall n, serial (f n) = serial n.
Hypothesis f_id : forall n, id (f n) = id n.

Lemma relabel_serials (l : list Node) : map serial (map f l) = map serial l.
Proof.
  rewrite map_map. apply map_ext. exact f_serial.
Qed.


Lemma relabel_count (i : jsstring) (l : list Node) :
  length (filter (hasId i) (map f l)) = length (filter (hasId i) l).
Proof.
  induction l as [|x l IH]; [reflexivity|]. cbn [map filter].
  assert (E : hasId i (f x) = hasId i x) by (unfold hasId; now rewrite f_id).
  rewrite E. destruct (hasId i x); cbn [length]; now rewrite IH.
Qed.


End Relabel.





(** ** The properties at the toasts of [tests/toast.test.ts] *)







End ToastFacts.

(* ================================================================== *)
(** * Properties of [background.ts] *)
(* ================================================================== *)

Module BackgroundFacts.
Import Background.

(** A message that is sent is the given one. *)
Lemma sent_message_is_given (chrome : Chrome) (message : ExtensionMessage)
    (i : Z) (m : ExtensionMessage) :
  In (SendMessage i m) (sendMessageToActiveTab chrome message) -> m = message.
Proof.
  unfold sendMessageToActiveTab.
  destruct (tabsQuery chrome) as [tabs|error];
    [|intros [H|[]]; discriminate].
  destruct (noTabId (hd_error tabs)); [intros [H|[]]; discriminate|].
  destruct (hd_error tabs) as [[[j|]]|]; cbn [In]; try tauto.
  destruct (tabsSendMessage chrome j message); cbn [In];
    intros [H|H]; try (now injection H); try destruct H as [H|H];
    try discriminate; destruct H.
Qed.

(** X11.  A click sends at most one message.  A message that is sent is the
    given one, and goes to the first tab of the query, whose id is not zero.
    When nothing is sent, exactly one error is logged; in particular a first
    tab with the id 0 counts as no tab at all. *)
Theorem message_to_first_tab_only (chrome : Chrome)
    (message : ExtensionMessage) :
  length (filter isSendMessage (sendMessageToActiveTab chrome message)) <= 1
  /\ (forall i m,
        In (SendMessage i m) (sendMessageToActiveTab chrome message) ->
        m = message /\ i <> 0%Z /\
        exists rest, tabsQuery chrome = Normal ({| id := Some i |} :: rest))
  /\ (filter isSendMessage (sendMessageToActiveTab chrome message) = [] ->
        exists text error,
          sendMessageToActiveTab chrome message = [ConsoleError text error])
  /\ (forall rest,
        tabsQuery chrome = Normal ({| id := Some 0%Z |} :: rest) ->
        sendMessageToActiveTab chrome message
        = [ConsoleError ERROR_NO_ACTIVE_TAB None]).
Proof.
  assert (Hlog : forall text error,
             length (filter isSendMessage [ConsoleError text error]) <= 1
             /\ (forall i m,
                   In (SendMessage i m) [ConsoleError text error] ->
                   m = message /\ i <> 0%Z /\
                   exists rest,
                     tabsQuery chrome = Normal ({| id := Some i |} :: rest))
             /\ (filter isSendMessage [ConsoleError text error] = [] ->
                   exists text' error',
                     [ConsoleError text error] = [ConsoleError text' error'])).
  { intros text error. split; [cbn; lia|]. split.
    - intros i m [H|[]]. discriminate.
    - intros _. exists text, error. reflexivity. }
  unfold sendMessageToActiveTab.
  destruct (tabsQuery chrome) as [[|[[i|]] rest]|error];
    cbn [hd_error noTabId id].
  - destruct (Hlog ERROR_NO_ACTIVE_TAB None) as [H1 [H2 H3]].
    repeat (split; [assumption|]). discriminate.
  - destruct (Z.eqb_spec i 0) as [->|Hi].
    + destruct (Hlog ERROR_NO_ACTIVE_TAB None) as [H1 [H2 H3]].
      repeat (split; [assumption|]). reflexivity.
    + split; [|split; [|split]].
      * destruct (tabsSendMessage chrome i message); cbn; lia.
      * intros j m Hin.
        assert (E : SendMessage i message = SendMessage j m).
        { destruct (tabsSendMessage chrome i message);
            cbn [In] in Hin; destruct Hin as [H|H]; try assumption;
            try destruct H as [H|H]; try discriminate; now destruct H. }
        injection E as <- <-. eauto.
      * destruct (tabsSendMessage chrome i message); discriminate.
      * intros rest' H. injection H as -> _. congruence.
  - destruct (Hlog ERROR_NO_ACTIVE_TAB None) as [H1 [H2 H3]].
    repeat (split; [assumption|]). discriminate.
  - destruct (Hlog ERROR_MESSAGE_SEND (Some error)) as [H1 [H2 H3]].
    repeat (split; [assumption|]). discriminate.
Qed.

End BackgroundFacts.

(* ================================================================== *)
(** * Properties of the scripts together *)
(* ================================================================== *)

Module ScriptFacts.
Import ContentScript.

Lemma showErrorToast_inj (a b : jsstring) :
  ShowErrorToast a = ShowErrorToast b -> a = b.
Proof. intros H. now injection H. Qed.

Lemma success_inj (a b : jsstring) :
  @Normal ConvertResult (Success a) = Normal (Success b) -> a = b.
Proof. intros H. now injection H. Qed.

Lemma convertPageToMarkdown_normal (g : Globals) (document : Document) :
  exists result, convertPageToMarkdown g document = Normal result.
Proof.
  unfold convertPageToMarkdown, processClaudeAiPage, try_catch, catchAsFailure.
  destruct (isClaudeAiSite g).
  - destruct (processClaudeAiPage_try g document); eauto.
  - destruct (convertPageToMarkdown_try g document); eauto.
Qed.

(** X12.  The message that a click on the extension's icon sends is one the
    content script acts on: the listener answers it by running the
    conversion. *)
Theorem click_starts_conversion (chrome : Background.Chrome)
    (g : Globals) (document : Document)
    (convert : Document -> Completion ConvertResult)
    (copy : jsstring -> Completion bool)
    (showErrorToast showSuccessToast : jsstring -> Completion unit)
    (tabId : Z) (message : ExtensionMessage) :
  In (Background.SendMessage tabId message)
     (Background.handleExtensionClick chrome) ->
  messageListener g document convert copy showErrorToast showSuccessToast
    message
  = handleConvertToMarkdown g document convert copy
      showErrorToast showSuccessToast.
Proof.
  intros Hin. unfold Background.handleExtensionClick in Hin.
  apply BackgroundFacts.sent_message_is_given in Hin. subst message.
  reflexivity.
Qed.

Lemma click_starts_conversion_witness :
  messageListener genericSite untitledDocument
    (convertPageToMarkdown genericSite)
    (fun text => snd (Clipboard.copyToClipboard (Clipboard.mockBrowser false) text))
    toastShown toastShown
    CONVERT_TO_MARKDOWN
  = handleConvertToMarkdown genericSite untitledDocument
      (convertPageToMarkdown genericSite)
      (fun text => snd (Clipboard.copyToClipboard (Clipboard.mockBrowser false) text))
      toastShown toastShown.
Proof.
  apply (click_starts_conversion
           (Background.chromeWithTabs [ {| Background.id := Some 7%Z |} ] false)
           genericSite untitledDocument
           (convertPageToMarkdown genericSite)
           (fun text =>
              snd (Clipboard.copyToClipboard (Clipboard.mockBrowser false) text))
           toastShown toastShown
           7%Z CONVERT_TO_MARKDOWN).
  in_calls.
Defined.

(** X13.  The calls of a run of [handleConvertToMarkdown], and how its
    promise settles.  The clipboard is written at most once, before any
    toast, and only with the text of a successful conversion.  Then a first
    toast is called; it is the success toast exactly when the conversion
    succeeded and the write resolved to [true].  When the conversion or the
    write raised, that first toast is the one of the [catch] block: it is the
    last call, and the promise settles as that call ends.  Otherwise the
    first toast is called in the [try] block: when it returns it is the last
    call and the promise is fulfilled; when it raises, the [catch] block
    calls a second toast, with the message of what the first one raised, and
    the promise settles as that second call ends. *)
Theorem toasts_of_a_run (g : Globals) (document : Document)
    (convert : Document -> Completion ConvertResult)
    (copy : jsstring -> Completion bool)
    (showErrorToast showSuccessToast : jsstring -> Completion unit) :
  exists before first,
    isToast first = true
    /\ (before = [] \/
        exists markdown,
          convert document = Normal (Success markdown) /\
          before = [CopyToClipboard
                      (createMarkdownHeader g document
                       ++ MARKDOWN_SEPARATOR ++ markdown)])
    /\ (first = ShowSuccessToast SUCCESS_COPY_MESSAGE <->
        exists markdown,
          convert document = Normal (Success markdown) /\
          copy (createMarkdownHeader g document
                ++ MARKDOWN_SEPARATOR ++ markdown) = Normal true)
    /\ ((exists error,
           raisedBeforeToast g document convert copy error
           /\ first = unexpectedErrorToast error
           /\ handleConvertToMarkdown g document convert copy
                showErrorToast showSuccessToast
              = (before ++ [first],
                 callToast showErrorToast showSuccessToast first))
        \/ ((forall error, ~ raisedBeforeToast g document convert copy error)
            /\ match callToast showErrorToast showSuccessToast first with
               | Normal _ =>
                   handleConvertToMarkdown g document convert copy
                     showErrorToast showSuccessToast
                   = (before ++ [first], Normal tt)
               | Throw error =>
                   handleConvertToMarkdown g document convert copy
                     showErrorToast showSuccessToast
                   = (before ++ [first; unexpectedErrorToast error],
                      callToast showErrorToast showSuccessToast
                        (unexpectedErrorToast error))
               end)).
Proof.
  unfold handleConvertToMarkdown, raisedBeforeToast. cbv zeta.
  destruct (convert document) as [[markdown|reason]|error] eqn:Hc.
  - destruct (copy (createMarkdownHeader g document
                    ++ MARKDOWN_SEPARATOR ++ markdown))
      as [[|]|error] eqn:Hk.
    + exists [CopyToClipboard (createMarkdownHeader g document
                                ++ MARKDOWN_SEPARATOR ++ markdown)],
             (ShowSuccessToast SUCCESS_COPY_MESSAGE).
      split; [reflexivity|]. split.
      { right. exists markdown. split; reflexivity. }
      split.
      { split; [|reflexivity]. intros _. exists markdown.
        split; [reflexivity|exact Hk]. }
      right. split.
      { intros error [H|[m [Hm H]]]; [discriminate|].
        apply success_inj in Hm. subst m. rewrite Hk in H. discriminate. }
      cbn [callToast]. unfold toastInTry, catchBlock.
      destruct (showSuccessToast SUCCESS_COPY_MESSAGE) as [[]|error];
        reflexivity.
    + exists [CopyToClipboard (createMarkdownHeader g document
                                ++ MARKDOWN_SEPARATOR ++ markdown)],
             (ShowErrorToast ERROR_CLIPBOARD_COPY).
      split; [reflexivity|]. split.
      { right. exists markdown. split; reflexivity. }
      split.
      { split; [discriminate|]. intros [m [Hm Hk']].
        apply success_inj in Hm. subst m. rewrite Hk in Hk'. discriminate. }
      right. split.
      { intros error [H|[m [Hm H]]]; [discriminate|].
        apply success_inj in Hm. subst m. rewrite Hk in H. discriminate. }
      cbn [callToast]. unfold toastInTry, catchBlock.
      destruct (showErrorToast ERROR_CLIPBOARD_COPY) as [[]|error];
        reflexivity.
    + exists [CopyToClipboard (createMarkdownHeader g document
                                ++ MARKDOWN_SEPARATOR ++ markdown)],
             (unexpectedErrorToast error).
      split; [reflexivity|]. split.
      { right. exists markdown. split; reflexivity. }
      split.
      { split; [discriminate|]. intros [m [Hm Hk']].
        apply success_inj in Hm. subst m. rewrite Hk in Hk'. discriminate. }
      left. exists error. split.
      { right. exists markdown. split; [reflexivity|exact Hk]. }
      split; reflexivity.
  - exists [], (ShowErrorToast (ERROR_CONVERT_PREFIX ++ js " " ++ reason)).
    split; [reflexivity|]. split; [now left|]. split.
    { split; [discriminate|]. intros [m [Hm _]]. discriminate. }
    right. split.
    { intros error [H|[m [Hm _]]]; discriminate. }
    cbn [callToast]. unfold toastInTry, catchBlock.
    destruct (showErrorToast (ERROR_CONVERT_PREFIX ++ js " " ++ reason))
      as [[]|error]; reflexivity.
  - exists [], (unexpectedErrorToast error).
    split; [reflexivity|]. split; [now left|]. split.
    { split; [discriminate|]. intros [m [Hm _]]. discriminate. }
    left. exists error. split; [now left|]. split; reflexivity.
Qed.

(** The run on a page without a body, where each toast raises: the toast of
    the failed conversion, then the toast of the [catch] block, and a
    rejected promise. *)
Lemma run_without_body :
  contentScript genericSite (Clipboard.mockBrowser true) bodylessDocument
    toastWithoutBody toastWithoutBody
  = ([ShowErrorToast (js "変換エラー: Cannot read properties of null");
      ShowErrorToast
        (js "エラー: Cannot read properties of null (reading 'appendChild')")],
     Throw (ErrorObject
              (js "Cannot read properties of null (reading 'appendChild')"))).
Proof. by_computation. Qed.

(** X14.  With the conversion of [readability.ts] and the write of
    [clipboard.ts], neither of which raises or rejects, the [catch] block is
    reached only from a toast that raised.  An error toast of the content
    script tells a failed conversion, with its reason, or a failed write, and
    then does not start with the prefix of the unexpected errors; or it is
    the toast of the [catch] block, called right after a toast that raised,
    with the message of what that toast raised, and it is the last call: the
    promise settles as it ends. *)
Theorem error_toasts_of_the_content_script (g : Globals)
    (browser : Clipboard.Browser) (document : Document)
    (showErrorToast showSuccessToast : jsstring -> Completion unit)
    (message : jsstring) :
  In (ShowErrorToast message)
     (fst (contentScript g browser document showErrorToast showSuccessToast)) ->
  (startsWith message ERROR_PREFIX = false
   /\ ((exists reason,
          convertPageToMarkdown g document = Normal (Failure reason) /\
          message = ERROR_CONVERT_PREFIX ++ js " " ++ reason)
       \/ (message = ERROR_CLIPBOARD_COPY /\
           exists markdown,
             convertPageToMarkdown g document = Normal (Success markdown) /\
             snd (Clipboard.copyToClipboard browser
                    (createMarkdownHeader g document
                     ++ MARKDOWN_SEPARATOR ++ markdown)) = Normal false)))
  \/ (exists before first error,
        isToast first = true
        /\ callToast showErrorToast showSuccessToast first = Throw error
        /\ ShowErrorToast message = unexpectedErrorToast error
        /\ contentScript g browser document showErrorToast showSuccessToast
           = (before ++ [first; ShowErrorToast message],
              showErrorToast message)).
Proof.
  unfold contentScript, handleConvertToMarkdown. cbv zeta.
  destruct (convertPageToMarkdown_normal g document) as [[markdown|reason] ->].
  - assert (Hk : exists b,
               snd (Clipboard.copyToClipboard browser
                      (createMarkdownHeader g document
                       ++ MARKDOWN_SEPARATOR ++ markdown)) = Normal b).
    { destruct (ClipboardFacts.copyToClipboard_answer browser
                  (createMarkdownHeader g document
                   ++ MARKDOWN_SEPARATOR ++ markdown)) as [H|H].
      - exists true. exact H.
      - rewrite H. apply ClipboardFacts.fallback_normal. }
    destruct Hk as [b Hb]. rewrite Hb. unfold toastInTry, catchBlock.
    destruct b.
    + destruct (showSuccessToast SUCCESS_COPY_MESSAGE) as [[]|error] eqn:Ht;
        cbn [fst In]; intros H.
      * destruct H as [H|[H|[]]]; discriminate.
      * destruct H as [H|[H|[H|[]]]]; try discriminate.
        apply showErrorToast_inj in H. subst message. right.
        exists [CopyToClipboard (createMarkdownHeader g document
                                  ++ MARKDOWN_SEPARATOR ++ markdown)],
               (ShowSuccessToast SUCCESS_COPY_MESSAGE), error.
        split; [reflexivity|]. split; [exact Ht|]. split; reflexivity.
    + destruct (showErrorToast ERROR_CLIPBOARD_COPY) as [[]|error] eqn:Ht;
        cbn [fst In]; intros H.
      * destruct H as [H|[H|[]]]; try discriminate.
        apply showErrorToast_inj in H. subst message. left.
        split; [by_computation|]. right. split; [reflexivity|].
        exists markdown. split; [reflexivity|exact Hb].
      * destruct H as [H|[H|[H|[]]]]; try discriminate.
        -- apply showErrorToast_inj in H. subst message. left.
           split; [by_computation|]. right. split; [reflexivity|].
           exists markdown. split; [reflexivity|exact Hb].
        -- apply showErrorToast_inj in H. subst message. right.
           exists [CopyToClipboard (createMarkdownHeader g document
                                     ++ MARKDOWN_SEPARATOR ++ markdown)],
                  (ShowErrorToast ERROR_CLIPBOARD_COPY), error.
           split; [reflexivity|]. split; [exact Ht|]. split; reflexivity.
  - unfold toastInTry, catchBlock.
    destruct (showErrorToast (ERROR_CONVERT_PREFIX ++ js " " ++ reason))
      as [[]|error] eqn:Ht; cbn [fst In]; intros H.
    + destruct H as [H|[]].
      apply showErrorToast_inj in H. subst message. left.
      split; [by_computation|]. left. exists reason. split; reflexivity.
    + destruct H as [H|[H|[]]].
      * apply showErrorToast_inj in H. subst message. left.
        split; [by_computation|]. left. exists reason. split; reflexivity.
      * apply showErrorToast_inj in H. subst message. right.
        exists [], (ShowErrorToast (ERROR_CONVERT_PREFIX ++ js " " ++ reason)),
               error.
        split; [reflexivity|]. split; [exact Ht|]. split; reflexivity.
Qed.

Lemma error_toasts_of_the_content_script_witness :
  (startsWith
     (js "エラー: Cannot read properties of null (reading 'appendChild')")
     ERROR_PREFIX = false
   /\ ((exists reason,
          convertPageToMarkdown genericSite bodylessDocument
          = Normal (Failure reason) /\
          js "エラー: Cannot read properties of null (reading 'appendChild')"
          = ERROR_CONVERT_PREFIX ++ js " " ++ reason)
       \/ (js "エラー: Cannot read properties of null (reading 'appendChild')"
           = ERROR_CLIPBOARD_COPY /\
           exists markdown,
             convertPageToMarkdown genericSite bodylessDocument
             = Normal (Success markdown) /\
             snd (Clipboard.copyToClipboard (Clipboard.mockBrowser true)
                    (createMarkdownHeader genericSite bodylessDocument
                     ++ MARKDOWN_SEPARATOR ++ markdown)) = Normal false)))
  \/ (exists before first error,
        isToast first = true
        /\ callToast toastWithoutBody toastWithoutBody first = Throw error
        /\ ShowErrorToast
             (js "エラー: Cannot read properties of null (reading 'appendChild')")
           = unexpectedErrorToast error
        /\ contentScript genericSite (Clipboard.mockBrowser true)
             bodylessDocument toastWithoutBody toastWithoutBody
           = (before
              ++ [first;
                  ShowErrorToast
                    (js "エラー: Cannot read properties of null (reading 'appendChild')")],
              toastWithoutBody
                (js "エラー: Cannot read properties of null (reading 'appendChild')"))).
Proof.
  apply (error_toasts_of_the_content_script genericSite
           (Clipboard.mockBrowser true) bodylessDocument
           toastWithoutBody toastWithoutBody
           (js "エラー: Cannot read properties of null (reading 'appendChild')")).
  in_calls.
Defined.

End ScriptFacts.

(* ================================================================== *)
(** * Properties of [functions/readability.ts] with [@mizchi/readability] *)
(* ================================================================== *)

Module MizchiFacts.
Import Mizchi.

Section Library.

Variable Root : Type.
Variable g : Globals Root.

Lemma mizchi_extractPageContent_normal (html : jsstring) :
  exists r, extractPageContent g html = Normal r.
Proof.
  unfold extractPageContent, try_catch.
  destruct (extract g MINIMUM_CHAR_THRESHOLD html); eauto.
Qed.

Lemma mizchi_convertElementToMarkdown_normal (e : Element) :
  exists r, convertElementToMarkdown g e = Normal r.
Proof.
  unfold convertElementToMarkdown, try_catch.
  match goal with |- context [match ?m with _ => _ end] => destruct m end;
    eauto.
Qed.

Lemma mizchi_pushSections_eq (elements : list Element) (acc : list jsstring) :
  pushSections g acc elements = Normal (acc ++ flat_map (sectionOf g) elements).
Proof.
  revert acc. induction elements as [|e es IH]; intros acc.
  - cbn. now rewrite app_nil_r.
  - cbn [pushSections flat_map]. unfold sectionOf.
    destruct (mizchi_convertElementToMarkdown_normal e) as [[md|] ->]; cbn [bind].
    + destruct (truthy md && truthy (trim md)).
      * rewrite IH. now rewrite <- app_assoc.
      * now rewrite IH.
    + now rewrite IH.
Qed.

Lemma mizchi_sectionOf_trimmed (e : Element) (f : jsstring) :
  In f (sectionOf g e) -> f <> [] /\ trim f = f.
Proof.
  unfold sectionOf.
  destruct (convertElementToMarkdown g e) as [[md|]|]; try (intros []).
  destruct (truthy md && truthy (trim md)) eqn:E; [|intros []].
  intros [<-|[]]. apply andb_true_iff in E as [_ E]. split.
  - now apply truthy_true.
  - apply trim_idempotent.
Qed.

(** The site-specific path, told from the sections. *)
Lemma processClaudeAiPage_eq (document : Document) :
  processClaudeAiPage g document =
  match extractClaudeAiElements document with
  | Throw error => Normal (Failure (errorMessage DEFAULT_ERROR_MESSAGE error))
  | Normal [] => Normal (Failure CLAUDE_AI_NO_ELEMENTS_ERROR)
  | Normal elements =>
      match flat_map (sectionOf g) elements with
      | [] => Normal (Failure EMPTY_MARKDOWN_ERROR)
      | sections => Normal (Success (join SECTION_SEPARATOR sections))
      end
  end.
Proof.
  unfold processClaudeAiPage.
  destruct (extractClaudeAiElements document) as [[|e es]|error];
    [reflexivity| |reflexivity].
  cbn [bind length Nat.eqb]. unfold convertElementsToMarkdownSections.
  rewrite mizchi_pushSections_eq. cbn [app bind].
  now destruct (flat_map (sectionOf g) (e :: es)).
Qed.

(** The generic path, told from the library's answers. *)
Lemma generic_eq (document : Document) :
  isClaudeAiSite g = false ->
  convertPageToMarkdown g document =
  match body document with
  | None => Normal (Failure (nullPropertyMessage g))
  | Some b =>
      match extract g MINIMUM_CHAR_THRESHOLD (outerHTML b) with
      | Throw _ | Normal None => Normal (Failure EXTRACTION_ERROR)
      | Normal (Some e) =>
          match root e with
          | None => Normal (Failure ROOT_PROPERTY_ERROR)
          | Some r =>
              match toMarkdown g r with
              | Throw error =>
                  Normal (Failure (errorMessage DEFAULT_ERROR_MESSAGE error))
              | Normal markdown =>
                  if truthy (trim markdown)
                  then Normal (Success markdown)
                  else Normal (Failure EMPTY_MARKDOWN_ERROR)
              end
          end
      end
  end.
Proof.
  intros Hsite. unfold convertPageToMarkdown. rewrite Hsite.
  destruct (body document) as [b|]; [|reflexivity].
  cbn [bind]. unfold extractPageContent.
  destruct (extract g MINIMUM_CHAR_THRESHOLD (outerHTML b)) as [[e|]|error];
    [|reflexivity|reflexivity].
  cbn [try_catch bind]. unfold convertToMarkdown.
  destruct (root e) as [r|]; [|reflexivity].
  destruct (toMarkdown g r) as [markdown|error]; [|reflexivity].
  cbn [bind]. now destruct (truthy (trim markdown)).
Qed.

End Library.

(** X15.  The conversion with [@mizchi/readability] always returns a result,
    whatever the library raises, and the markdown of a success is never
    blank. *)
Theorem mizchi_result_never_blank (Root : Type) (g : Globals Root)
    (document : Document) :
  (exists result, convertPageToMarkdown g document = Normal result)
  /\ (forall markdown,
        convertPageToMarkdown g document = Normal (Success markdown) ->
        trim markdown <> []).
Proof.
  destruct (isClaudeAiSite g) eqn:Hsite.
  - unfold convertPageToMarkdown. rewrite Hsite, processClaudeAiPage_eq.
    destruct (extractClaudeAiElements document) as [[|e es]|error];
      [split; [eauto|discriminate] | | split; [eauto|discriminate]].
    destruct (flat_map (sectionOf g) (e :: es)) as [|p rest] eqn:Hs;
      [split; [eauto|discriminate]|].
    split; [eauto|]. intros markdown H. apply ScriptFacts.success_inj in H.
    subst markdown.
    assert (Hall : forall q, In q (p :: rest) -> q <> [] /\ trim q = q).
    { intros q Hq. rewrite <- Hs in Hq. apply in_flat_map in Hq as [e' [_ Hq]].
      now apply (mizchi_sectionOf_trimmed Root g e'). }
    rewrite (join_trimmed _ _ _ Hall).
    destruct (join_cons_head SECTION_SEPARATOR p rest) as [tail ->].
    destruct (Hall p (or_introl eq_refl)) as [Hp _].
    destruct p; [congruence|discriminate].
  - rewrite (generic_eq Root g document Hsite).
    destruct (body document) as [b|]; [|split; [eauto|discriminate]].
    destruct (extract g MINIMUM_CHAR_THRESHOLD (outerHTML b)) as [[e|]|error];
      [|split; [eauto|discriminate]|split; [eauto|discriminate]].
    destruct (root e) as [r|]; [|split; [eauto|discriminate]].
    destruct (toMarkdown g r) as [markdown|error];
      [|split; [eauto|discriminate]].
    destruct (truthy (trim markdown)) eqn:Ht; [|split; [eauto|discriminate]].
    split; [eauto|]. intros m H. apply ScriptFacts.success_inj in H. subst m.
    now apply truthy_true.
Qed.

(** X16.  Where the markdown of a success comes from.  On the generic path
    it is the text that [toMarkdown] gave for the root of the extraction of
    the body, unchanged (so not trimmed); on the site-specific path it is
    the join of the trimmed texts of the marker elements that [toMarkdown]
    could render to something not blank, and is trimmed itself. *)
Theorem mizchi_success_text (Root : Type) (g : Globals Root)
    (document : Document) (markdown : jsstring) :
  convertPageToMarkdown g document = Normal (Success markdown) ->
  (isClaudeAiSite g = true ->
     trim markdown = markdown /\
     exists elements,
       extractClaudeAiElements document = Normal elements /\
       markdown = join SECTION_SEPARATOR (flat_map (sectionOf g) elements))
  /\ (isClaudeAiSite g = false ->
        exists b e r,
          body document = Some b /\
          extract g MINIMUM_CHAR_THRESHOLD (outerHTML b) = Normal (Some e) /\
          root e = Some r /\
          toMarkdown g r = Normal markdown).
Proof.
  destruct (isClaudeAiSite g) eqn:Hsite.
  - unfold convertPageToMarkdown. rewrite Hsite, processClaudeAiPage_eq.
    destruct (extractClaudeAiElements document) as [[|e es]|error];
      try discriminate.
    destruct (flat_map (sectionOf g) (e :: es)) as [|p rest] eqn:Hs;
      [discriminate|].
    intros H. apply ScriptFacts.success_inj in H. subst markdown.
    split; [intros _|discriminate]. split.
    + apply join_trimmed. intros q Hq. rewrite <- Hs in Hq.
      apply in_flat_map in Hq as [e' [_ Hq]].
      now apply (mizchi_sectionOf_trimmed Root g e').
    + exists (e :: es). split; [reflexivity|]. now rewrite Hs.
  - rewrite (generic_eq Root g document Hsite).
    destruct (body document) as [b|]; [|discriminate].
    destruct (extract g MINIMUM_CHAR_THRESHOLD (outerHTML b)) as [[e|]|error]
      eqn:He; try discriminate.
    destruct (root e) as [r|] eqn:Hr; [|discriminate].
    destruct (toMarkdown g r) as [md|error] eqn:Hm; [|discriminate].
    destruct (truthy (trim md)); [|discriminate].
    intros H. apply ScriptFacts.success_inj in H. subst md.
    split; [discriminate|intros _].
    exists b, e, r. repeat split; assumption.
Qed.

Lemma mizchi_success_text_witness :
  (exists b e r,
     body (createTestDocument (js "<p>Hello</p>") []) = Some b /\
     extract (stubLibrary (js "example.com")) MINIMUM_CHAR_THRESHOLD (outerHTML b)
     = Normal (Some e) /\
     root e = Some r /\
     toMarkdown (stubLibrary (js "example.com")) r
     = Normal (js " <p>Hello</p>\n"))
  /\ trim (js "Q\n\n---\n\nA") = js "Q\n\n---\n\nA".
Proof.
  split.
  - refine (proj2 (mizchi_success_text jsstring (stubLibrary (js "example.com"))
                     (createTestDocument (js "<p>Hello</p>") [])
                     (js " <p>Hello</p>\n") _) _); by_computation.
  - refine (proj1 (proj1 (mizchi_success_text jsstring
                            (stubLibrary (js "claude.ai"))
                            (createTestDocument []
                               [js " Q "; js "!raise"; js "ab"; js " A\n"])
                            (js "Q\n\n---\n\nA") _) _)); by_computation.
Defined.

(** X17.  What becomes of the library's failures.  On the generic path each
    has its reason: an extraction that raises or answers [null], an answer
    without [root], and an exception of [toMarkdown], whose message is the
    reason when it is an [Error].  On the site-specific path none of them is
    reported: the marker element gives no section. *)
Theorem mizchi_library_failures (Root : Type) (g : Globals Root)
    (document : Document) (b : Element) :
  isClaudeAiSite g = false ->
  body document = Some b ->
  ((extract g MINIMUM_CHAR_THRESHOLD (outerHTML b) = Normal None \/
    (exists error,
       extract g MINIMUM_CHAR_THRESHOLD (outerHTML b) = Throw error)) ->
   convertPageToMarkdown g document = Normal (Failure EXTRACTION_ERROR)
   /\ sectionOf g b = [])
  /\ (forall e,
        extract g MINIMUM_CHAR_THRESHOLD (outerHTML b) = Normal (Some e) ->
        root e = None ->
        convertPageToMarkdown g document = Normal (Failure ROOT_PROPERTY_ERROR)
        /\ sectionOf g b = [])
  /\ (forall e r error,
        extract g MINIMUM_CHAR_THRESHOLD (outerHTML b) = Normal (Some e) ->
        root e = Some r ->
        toMarkdown g r = Throw error ->
        convertPageToMarkdown g document
        = Normal (Failure (errorMessage DEFAULT_ERROR_MESSAGE error))
        /\ sectionOf g b = []).
Proof.
  intros Hsite Hb. rewrite (generic_eq Root g document Hsite), Hb.
  unfold sectionOf, convertElementToMarkdown, extractPageContent,
    convertToMarkdown.
  split; [|split].
  - intros [H|[error H]]; rewrite H; split; reflexivity.
  - intros e He Hr. rewrite He. cbn [try_catch bind]. rewrite Hr.
    split; reflexivity.
  - intros e r error He Hr Hm. rewrite He. cbn [try_catch bind].
    rewrite Hr, Hm. split; reflexivity.
Qed.

Lemma mizchi_library_failures_witness :
  convertPageToMarkdown (stubLibrary (js "example.com"))
    (createTestDocument (js "!raise") [])
  = Normal (Failure (errorMessage DEFAULT_ERROR_MESSAGE
                       (ErrorObject (js "cannot render"))))
  /\ sectionOf (stubLibrary (js "example.com")) {| outerHTML := js "!raise" |}
     = [].
Proof.
  refine (proj2 (proj2 (mizchi_library_failures jsstring
                          (stubLibrary (js "example.com"))
                          (createTestDocument (js "!raise") [])
                          {| outerHTML := js "!raise" |} _ _))
            {| root := Some (js "!raise") |} (js "!raise")
            (ErrorObject (js "cannot render")) _ _ _); by_computation.
Defined.

End MizchiFacts.

(* ================================================================== *)
(** * The renderer on elements *)
(* ================================================================== *)
(** ** The scan of [replace] *)

Lemma matchAt_other_start (re : RegExp) (c : char16) (s : jsstring) :
  firstIs 60%N (source re) = true -> (c =? 60)%N = false ->
  matchAt re (c :: s) = None.
Proof.
  intros Hf Hc. destruct (matchAt re (c :: s)) as [mr|] eqn:E; [|reflexivity].
  apply matchAt_accepts in E as [w [t [Es Ha]]].
  destruct (firstIs_sound (flags re) 60%N (source re) w Hf Ha) as [w' ->].
  injection Es as -> _. now rewrite N.eqb_refl in Hc.
Qed.

Section Scan.
Variable St : Type.
Variable re : RegExp.
Variable replacer : St -> MatchResult -> jsstring * St.

Lemma replaceFrom_none_cons (st : St) (c : char16) (s : jsstring) :
  matchAt re (c :: s) = None ->
  replaceFrom re replacer st 0 (c :: s) = c :: replaceFrom re replacer st 0 s.
Proof. intros H. cbn [replaceFrom]. now rewrite H. Qed.

Lemma replaceFrom_none_nil (st : St) :
  matchAt re [] = None -> replaceFrom re replacer st 0 [] = [].
Proof. intros H. cbn [replaceFrom]. now rewrite H. Qed.

Lemma replaceFrom_inert (st : St) (t u : jsstring) :
  firstIs 60%N (source re) = true -> noLT t = true ->
  replaceFrom re replacer st 0 (t ++ u) = t ++ replaceFrom re replacer st 0 u.
Proof.
  intros Hf. induction t as [|c t IH]; [reflexivity|].
  cbn [noLT forallb]. rewrite andb_true_iff, negb_true_iff. intros [Hc Ht].
  cbn [app]. rewrite replaceFrom_none_cons by now apply matchAt_other_start.
  f_equal. now apply IH.
Qed.

Lemma replaceFrom_skip_all (st : St) (s : jsstring) :
  matchAt re [] = None ->
  replaceFrom re replacer st (length s) s = [].
Proof.
  intros H. induction s as [|c s IH]; [now apply replaceFrom_none_nil|].
  exact IH.
Qed.

Lemma replaceFrom_whole (st : St) (c : char16) (s : jsstring) (mr : MatchResult) :
  matchAt re [] = None ->
  matchAt re (c :: s) = Some mr -> matched mr = c :: s ->
  replaceFrom re replacer st 0 (c :: s) = fst (replacer st mr).
Proof.
  intros He Hm Hw. cbn [replaceFrom]. rewrite Hm.
  destruct (replacer st mr) as [out st']. rewrite Hw. cbn [length fst].
  now rewrite (replaceFrom_skip_all st' s He), app_nil_r.
Qed.

End Scan.

(** ** The matcher on an element *)

Lemma repeatGreedy_through (p : char16 -> bool) (k : Continuation)
    (cs : list (nat * jsstring)) (a u : jsstring) (y : MatchState) :
  forallb p a = true ->
  repeatGreedy p k cs u = Some y ->
  repeatGreedy p k cs (a ++ u) = Some y.
Proof.
  intros Ha Hu. induction a as [|c a IH]; [exact Hu|].
  cbn [forallb] in Ha. apply andb_true_iff in Ha as [Hc Ha].
  cbn [app repeatGreedy]. rewrite Hc, (IH Ha). reflexivity.
Qed.

Lemma repeatLazy_through (p : char16 -> bool) (k : Continuation)
    (cs : list (nat * jsstring)) (t u : jsstring) :
  (forall c s, In c t -> p c = true /\ k {| rest := c :: s; caps := cs |} = None) ->
  repeatLazy p k cs (t ++ u) = repeatLazy p k cs u.
Proof.
  induction t as [|c t IH]; [reflexivity|]. intros H.
  cbn [app]. 
  replace (repeatLazy p k cs (c :: t ++ u))
    with (match k {| rest := c :: t ++ u; caps := cs |} with
          | Some y => Some y
          | None => if p c then repeatLazy p k cs (t ++ u) else None
          end) by reflexivity.
  destruct (H c (t ++ u) (or_introl eq_refl)) as [-> ->].
  apply IH. intros d s Hd. apply H. now right.
Qed.

Lemma consumed_all (s : jsstring) : consumed s [] = s.
Proof. unfold consumed. cbn [length]. rewrite Nat.sub_0_r. apply firstn_all. Qed.

Lemma consumed_app (t u : jsstring) : consumed (t ++ u) u = t.
Proof.
  unfold consumed. rewrite length_app.
  replace (length t + length u - length u) with (length t) by lia.
  rewrite firstn_app, Nat.sub_diag, firstn_all. cbn. apply app_nil_r.
Qed.


Lemma charMatches_lt (fl : Flags) (c : char16) :
  (c =? 60)%N = false -> charMatches fl (Lit 60%N) c = false.
Proof.
  intros Hc. cbn [charMatches]. apply N.eqb_neq. intros E.
  apply (Canonicalize_not_letter fl c 60%N eq_refl) in E.
  subst c. discriminate.
Qed.

Lemma inlineText_In (t : jsstring) (c : char16) :
  inlineText t = true -> In c t ->
  (c =? 60)%N = false /\ (c =? 38)%N = false /\ isLineTerminator c = false.
Proof.
  unfold inlineText. rewrite forallb_forall. intros H Hc.
  specialize (H c Hc). rewrite !andb_true_iff, !negb_true_iff in H. tauto.
Qed.

Ltac eval_tests :=
  repeat match goal with
         | |- context [charMatches ?f ?cs (Npos ?p)] =>
             let b := eval vm_compute in (charMatches f cs (Npos p)) in
             change (charMatches f cs (Npos p)) with b
         end.

Ltac run := repeat (eval_tests; progress cbn -[charMatches consumed]).


Lemma charMatches_not_gt (fl : Flags) (c : char16) :
  (c =? 62)%N = false -> charMatches fl NOT_GT c = true.
Proof.
  intros Hc. unfold NOT_GT.
  change (js ">") with [62%N]. cbn [charMatches existsb]. rewrite orb_false_r.
  cbn [xorb]. apply negb_true_iff, N.eqb_neq. intros E. symmetry in E.
  apply (Canonicalize_not_letter fl c 62%N eq_refl) in E.
  subst c. discriminate.
Qed.

Lemma attributeText_greedy (fl : Flags) (a : jsstring) :
  attributeText a = true -> forallb (charMatches fl NOT_GT) a = true.
Proof.
  unfold attributeText. rewrite !forallb_forall. intros H c Hc.
  specialize (H c Hc). rewrite andb_true_iff, !negb_true_iff in H.
  now apply charMatches_not_gt.
Qed.

Lemma inlineText_lazy (fl : Flags) (k : Continuation) (cs : list (nat * jsstring))
    (t u : jsstring) :
  inlineText t = true -> dotAll fl = false ->
  (forall c s, (c =? 60)%N = false -> k {| rest := c :: s; caps := cs |} = None) ->
  repeatLazy (charMatches fl Dot) k cs (t ++ u)
  = repeatLazy (charMatches fl Dot) k cs u.
Proof.
  intros Ht Hd Hk. apply repeatLazy_through. intros c s Hc.
  destruct (inlineText_In t c Ht Hc) as [H1 [_ H2]]. split.
  - cbn [charMatches]. now rewrite Hd, H2.
  - now apply Hk.
Qed.

Ltac lazy_through Ht :=
  rewrite inlineText_lazy;
  [ | exact Ht | reflexivity
    | let c := fresh "c" in let s := fresh "s" in let H := fresh "H" in
      intros c s H; cbn -[charMatches consumed];
      rewrite (charMatches_lt _ c H); reflexivity ].

Ltac greedy_through Ha :=
  erewrite repeatGreedy_through;
  [ | exact (attributeText_greedy _ _ Ha) | ].

(** ** Text that no later pass changes *)

Lemma noLT_hasTag (s : jsstring) : noLT s = true -> hasTag s = false.
Proof.
  unfold hasTag. induction s as [|c s IH]; [reflexivity|].
  cbn [noLT forallb]. rewrite andb_true_iff, negb_true_iff. intros [Hc Hs].
  cbn [anywhere]. rewrite (IH Hs), orb_false_r.
  unfold startsTag. destruct s as [|d s]; [reflexivity|]. now rewrite Hc.
Qed.

Lemma noAmp_includes (s pat : jsstring) :
  forallb (fun c => negb (c =? 38)%N) s = true ->
  includes s (38%N :: pat) = false.
Proof.
  induction s as [|c s IH]; [reflexivity|].
  cbn [forallb]. rewrite andb_true_iff, negb_true_iff. intros [Hc Hs].
  cbn [includes startsWith]. now rewrite Hc, (IH Hs).
Qed.

Lemma needLF_lineFeeds (s : jsstring) (n : nat) :
  needLF s n = true -> n <= lineFeeds s.
Proof.
  revert n. induction s as [|c s IH]; intros [|n]; cbn [needLF]; try lia;
    try discriminate.
  unfold lineFeeds. cbn [filter]. fold LF.
  rewrite (N.eqb_sym LF c).
  destruct (c =? LF)%N.
  - intros H. apply IH in H. cbn [length]. unfold lineFeeds in H. lia.
  - destruct (isWhiteSpace c); [|discriminate]. intros H. apply IH in H.
    exact H.
Qed.

Lemma lineFeeds_hasBlankLines (s : jsstring) :
  lineFeeds s < 3 -> hasBlankLines s = false.
Proof.
  unfold hasBlankLines. induction s as [|c s IH]; [reflexivity|].
  intros H. cbn [anywhere].
  assert (Hs : lineFeeds s <= lineFeeds (c :: s)).
  { unfold lineFeeds. cbn [filter]. destruct (LF =? c)%N; cbn [length]; lia. }
  rewrite IH by lia. rewrite orb_false_r.
  unfold startsBlankLines. destruct (c =? LF)%N eqn:Ec; [|reflexivity].
  cbn [andb]. destruct (needLF s 2) eqn:En; [|reflexivity].
  apply needLF_lineFeeds in En.
  unfold lineFeeds in *. cbn [filter] in H. rewrite (N.eqb_sym LF c), Ec in H.
  cbn [length] in H. lia.
Qed.


Lemma inlineText_noLT (t : jsstring) : inlineText t = true -> noLT t = true.
Proof.
  unfold inlineText, noLT. rewrite !forallb_forall. intros H c Hc.
  specialize (H c Hc). rewrite !andb_true_iff in H. tauto.
Qed.

Lemma inlineText_noAmp (t : jsstring) :
  inlineText t = true -> forallb (fun c => negb (c =? 38)%N) t = true.
Proof.
  unfold inlineText. rewrite !forallb_forall. intros H c Hc.
  specialize (H c Hc). rewrite !andb_true_iff in H. tauto.
Qed.

Lemma inlineText_lineFeeds (t : jsstring) :
  inlineText t = true -> lineFeeds t = 0.
Proof.
  unfold lineFeeds. induction t as [|c t IH]; [reflexivity|].
  unfold inlineText. cbn [forallb filter].
  rewrite !andb_true_iff, !negb_true_iff. intros [[_ Hl] Ht].
  unfold isLineTerminator in Hl. rewrite !orb_false_iff in Hl.
  destruct Hl as [[[Hl _] _] _]. unfold LF. rewrite N.eqb_sym, Hl.
  now apply IH.
Qed.

Lemma attributeText_noLT (a : jsstring) : attributeText a = true -> noLT a = true.
Proof.
  unfold attributeText, noLT. rewrite !forallb_forall. intros H c Hc.
  specialize (H c Hc). rewrite !andb_true_iff in H. tauto.
Qed.

Lemma lineFeeds_app (s u : jsstring) : lineFeeds (s ++ u) = lineFeeds s + lineFeeds u.
Proof. unfold lineFeeds. now rewrite filter_app, length_app. Qed.

Lemma lineFeeds_cons (c : char16) (s : jsstring) :
  lineFeeds (c :: s) = (if (LF =? c)%N then 1 else 0) + lineFeeds s.
Proof. unfold lineFeeds. cbn [filter]. now destruct (LF =? c)%N. Qed.

Ltac literals :=
  repeat match goal with
         | |- context [js ?s] =>
             let v := eval vm_compute in (js s) in change (js s) with v
         end.

Ltac scan :=
  repeat first
    [ rewrite replaceFrom_none_cons by (vm_compute; reflexivity)
    | rewrite replaceFrom_inert by (first [assumption | vm_compute; reflexivity])
    | rewrite replaceFrom_none_nil by (vm_compute; reflexivity) ].

Ltac pass_none :=
  match goal with
  | |- context [replaceTemplate ?re ?tpl ?x] =>
      lazymatch x with
      | _ :: _ =>
          replace (replaceTemplate re tpl x) with x
            by (unfold replaceTemplate; scan; reflexivity)
      end
  end.

Lemma replaceTemplate_whole (re : RegExp) (tpl x : jsstring) (mr : MatchResult) :
  matchAt re [] = None -> matchAt re x = Some mr -> matched mr = x -> x <> [] ->
  replaceTemplate re tpl x = GetSubstitution (groupCount (source re)) mr tpl.
Proof.
  intros He Hm Hw Hx. destruct x as [|c s]; [congruence|].
  unfold replaceTemplate.
  now rewrite (replaceFrom_whole unit re _ tt c s mr He Hm Hw).
Qed.

Ltac pass_match Ha Ht :=
  match goal with
  | |- context [replaceTemplate ?re ?tpl ?x] =>
      lazymatch x with
      | _ :: _ =>
          let Hm := fresh "Hm" in
          eassert (Hm : matchAt re x = Some _);
          [ unfold matchAt; run; greedy_through Ha;
            [ | run; lazy_through Ht; run; reflexivity ];
            run; reflexivity
          | rewrite (replaceTemplate_whole re tpl x _ eq_refl Hm);
            [ clear Hm;
              match goal with
              | |- context [GetSubstitution ?m ?mr ?tp] =>
                  let v := eval cbv -[consumed app] in (GetSubstitution m mr tp) in
                  change (GetSubstitution m mr tp) with v
              end;
              rewrite ?consumed_app
            | cbn [matched]; apply consumed_all
            | discriminate ] ]
      end
  end.

Ltac innermost e :=
  lazymatch e with
  | replaceTemplate _ _ ?x => innermost x
  | replaceFunction _ _ ?x => innermost x
  | _ => e
  end.

Ltac all_chars H := repeat (cbn [forallb]; rewrite ?forallb_app); rewrite H; reflexivity.

Ltac plain_passes s1 Htag Hamp Hlt_ Hgt_ Hquot Hapos Hblank :=
  rewrite ?(replaceTemplate_without_tag (RE_HEADING "h1") _ s1 eq_refl Htag);
  rewrite ?(replaceTemplate_without_tag (RE_HEADING "h2") _ s1 eq_refl Htag);
  rewrite ?(replaceTemplate_without_tag (RE_HEADING "h3") _ s1 eq_refl Htag);
  rewrite ?(replaceTemplate_without_tag (RE_HEADING "h4") _ s1 eq_refl Htag);
  rewrite ?(replaceTemplate_without_tag (RE_HEADING "h5") _ s1 eq_refl Htag);
  rewrite ?(replaceTemplate_without_tag (RE_HEADING "h6") _ s1 eq_refl Htag);
  rewrite ?(replaceTemplate_without_tag RE_P _ s1 eq_refl Htag);
  rewrite ?(replaceTemplate_without_tag RE_STRONG _ s1 eq_refl Htag);
  rewrite ?(replaceTemplate_without_tag RE_EM _ s1 eq_refl Htag);
  rewrite ?(replaceTemplate_without_tag RE_CODE _ s1 eq_refl Htag);
  rewrite (replaceTemplate_without_tag RE_PRE _ s1 eq_refl Htag);
  rewrite (replaceTemplate_without_tag RE_A _ s1 eq_refl Htag);
  rewrite (replaceTemplate_without_tag RE_IMG_SRC_ALT _ s1 eq_refl Htag);
  rewrite (replaceTemplate_without_tag RE_IMG_ALT_SRC _ s1 eq_refl Htag);
  rewrite (replaceTemplate_without_tag RE_IMG_SRC _ s1 eq_refl Htag);
  rewrite (replaceFunction_without_tag RE_UL _ s1 eq_refl Htag);
  rewrite (replaceFunction_without_tag RE_OL _ s1 eq_refl Htag);
  rewrite (replaceTemplate_without_tag RE_BR _ s1 eq_refl Htag);
  rewrite (replaceTemplate_without_tag RE_TAG _ s1 eq_refl Htag);
  rewrite (replace_without_literal "&amp;" _ s1 Hamp);
  rewrite (replace_without_literal "&lt;" _ s1 Hlt_);
  rewrite (replace_without_literal "&gt;" _ s1 Hgt_);
  rewrite (replace_without_literal "&quot;" _ s1 Hquot);
  rewrite (replace_without_literal "&#39;" _ s1 Hapos);
  rewrite (replace_without_blankLines _ s1 Hblank).

Ltac finish Hnt Hat Hlf :=
  match goal with
  | |- trim ?e = _ =>
      let s1 := innermost e in
      let Htag := fresh "Htag" in
      let Hamp := fresh "Hamp" in
      let Hlt_ := fresh "Hlt" in
      let Hgt_ := fresh "Hgt" in
      let Hquot := fresh "Hquot" in
      let Hapos := fresh "Hapos" in
      let Hblank := fresh "Hblank" in
      assert (Htag : hasTag s1 = false)
        by (apply noLT_hasTag; unfold noLT in *; all_chars Hnt);
      assert (Hamp : includes s1 (js "&amp;") = false)
        by (apply (noAmp_includes s1 (js "amp;")); all_chars Hat);
      assert (Hlt_ : includes s1 (js "&lt;") = false)
        by (apply (noAmp_includes s1 (js "lt;")); all_chars Hat);
      assert (Hgt_ : includes s1 (js "&gt;") = false)
        by (apply (noAmp_includes s1 (js "gt;")); all_chars Hat);
      assert (Hquot : includes s1 (js "&quot;") = false)
        by (apply (noAmp_includes s1 (js "quot;")); all_chars Hat);
      assert (Hapos : includes s1 (js "&#39;") = false)
        by (apply (noAmp_includes s1 (js "#39;")); all_chars Hat);
      assert (Hblank : hasBlankLines s1 = false)
        by (apply lineFeeds_hasBlankLines;
            rewrite ?lineFeeds_cons, ?lineFeeds_app, Hlf; vm_compute; lia);
      plain_passes s1 Htag Hamp Hlt_ Hgt_ Hquot Hapos Hblank;
      reflexivity
  end.



Ltac render_element Ha Ht Hnt Hat Hlf :=
  unfold convertHtmlToMarkdown; literals; cbn [app];
  repeat pass_none; pass_match Ha Ht; finish Hnt Hat Hlf.

(** X18.  One element around inline text.  For each of the tags h1 to h6,
    p, strong, b, em, i and code, whatever attributes the opening tag
    carries, an element whose content is one line of text without markup
    renders as the text between the two halves of the pass's template:
    hashes and a blank before a heading's text, a pair of asterisks around
    bold text, one asterisk around emphasised text, back quotes around code,
    and the bare text for a paragraph; the result is trimmed. *)
Theorem simple_element_renders (opening closing before after : string)
    (attrs t : jsstring) :
  In (opening, closing, before, after) simpleElements ->
  attributeText attrs = true -> inlineText t = true ->
  convertHtmlToMarkdown (js opening ++ attrs ++ js ">" ++ t ++ js closing)
  = trim (js before ++ t ++ js after).
Proof.
  intros Hin Ha Ht.
  pose proof (attributeText_noLT attrs Ha) as Hna.
  pose proof (inlineText_noLT t Ht) as Hnt.
  pose proof (inlineText_noAmp t Ht) as Hat.
  pose proof (inlineText_lineFeeds t Ht) as Hlf.
  unfold simpleElements in Hin. cbn [In] in Hin.
  repeat (destruct Hin as [Hin|Hin];
          [injection Hin as <- <- <- <-|]); [..|destruct Hin].
  - render_element Ha Ht Hnt Hat Hlf.
  - render_element Ha Ht Hnt Hat Hlf.
  - render_element Ha Ht Hnt Hat Hlf.
  - render_element Ha Ht Hnt Hat Hlf.
  - render_element Ha Ht Hnt Hat Hlf.
  - render_element Ha Ht Hnt Hat Hlf.
  - render_element Ha Ht Hnt Hat Hlf.
  - render_element Ha Ht Hnt Hat Hlf.
  - render_element Ha Ht Hnt Hat Hlf.
  - render_element Ha Ht Hnt Hat Hlf.
  - render_element Ha Ht Hnt Hat Hlf.
  - render_element Ha Ht Hnt Hat Hlf.
Qed.

Lemma simple_element_renders_witness :
  convertHtmlToMarkdown
    (js "<h2" ++ js " id='intro'" ++ js ">" ++ js "Getting started"
     ++ js "</h2>")
  = trim (js "## " ++ js "Getting started" ++ js "\n\n").
Proof.
  apply (simple_element_renders "<h2" "</h2>" "## " "\n\n"
           (js " id='intro'") (js "Getting started")).
  - in_calls.
  - by_computation.
  - by_computation.
Defined.

(** ** Flat content *)

Section Scan2.
Variable St : Type.
Variable re : RegExp.
Variable replacer : St -> MatchResult -> jsstring * St.

Lemma replaceFrom_skip (st : St) (w rest : jsstring) :
  replaceFrom re replacer st (length w) (w ++ rest)
  = replaceFrom re replacer st 0 rest.
Proof. induction w as [|c w IH]; [reflexivity|exact IH]. Qed.

Lemma replaceFrom_match (st st' : St) (s w rest out : jsstring)
    (mr : MatchResult) :
  matchAt re s = Some mr -> replacer st mr = (out, st') ->
  s = w ++ rest -> matched mr = w -> w <> [] ->
  replaceFrom re replacer st 0 s = out ++ replaceFrom re replacer st' 0 rest.
Proof.
  intros Hm Hr -> Hw Hne. destruct w as [|c w]; [congruence|].
  cbn [app replaceFrom]. cbn [app] in Hm. rewrite Hm, Hr, Hw. cbn [length].
  now rewrite replaceFrom_skip.
Qed.

Lemma replaceFrom_segments (A : Type) (before after : A -> jsstring)
    (valid : A -> Prop) :
  (forall st, replaceFrom re replacer st 0 [] = []) ->
  (forall seg rest st, valid seg ->
     replaceFrom re replacer st 0 (before seg ++ rest)
     = after seg ++ replaceFrom re replacer st 0 rest) ->
  forall segs st, Forall valid segs ->
    replaceFrom re replacer st 0 (concat (map before segs))
    = concat (map after segs).
Proof.
  intros Hnil Hseg segs st Hall. induction Hall as [|seg segs Hv _ IH].
  - apply Hnil.
  - cbn [map concat]. rewrite (Hseg seg _ st Hv). now rewrite IH.
Qed.

End Scan2.

Lemma consumed_suffix (s w rest : jsstring) :
  s = w ++ rest -> consumed s rest = w.
Proof. intros ->. apply consumed_app. Qed.


Ltac normal_form :=
  rewrite <- ?app_assoc; literals; cbn [app].

(** The element is matched at the start of the text. *)
Ltac segment_match Ha Ht :=
  match goal with
  | |- replaceFrom ?re ?f ?st 0 (?w ++ ?r) = _ =>
      let Hm := fresh "Hm" in
      eassert (Hm : matchAt re (w ++ r) = Some _);
      [ normal_form; unfold matchAt; run; greedy_through Ha;
        [ | run; lazy_through Ht; run; reflexivity ];
        run; reflexivity
      | rewrite (replaceFrom_match unit re f st tt (w ++ r) w r _ _
                   Hm eq_refl eq_refl);
        [ clear Hm; f_equal;
          match goal with
          | |- GetSubstitution ?m ?mr ?tp = _ =>
              let v := eval cbv -[consumed app] in (GetSubstitution m mr tp) in
              change (GetSubstitution m mr tp) with v
          end;
          rewrite ?consumed_app; normal_form; reflexivity
        | cbn [matched]; apply consumed_suffix; normal_form; reflexivity
        | literals; discriminate ] ]
  end.

(** The expression matches nowhere along the element. *)
Ltac segment_scan :=
  normal_form; scan; reflexivity.

Ltac segment_inert Hnt :=
  apply replaceFrom_inert;
  [ vm_compute; reflexivity
  | unfold noLT in *; literals; all_chars Hnt ].


Lemma pass_stage (k : nat) (re : RegExp) (tpl : string) (names : list string)
    (segs : list Segment) :
  nth_error simplePasses k = Some (re, tpl, names) ->
  Forall flat segs ->
  replaceTemplate re (js tpl) (concat (map (stage k) segs))
  = concat (map (stage (S k)) segs).
Proof.
  intros Hk Hall. unfold replaceTemplate.
  assert (Hseg : forall seg rest st, flat seg ->
            replaceFrom re
              (fun (_ : unit) mr =>
                 (GetSubstitution (groupCount (source re)) mr (js tpl), tt))
              st 0 (stage k seg ++ rest)
            = stage (S k) seg ++
              replaceFrom re
                (fun (_ : unit) mr =>
                   (GetSubstitution (groupCount (source re)) mr (js tpl), tt))
                st 0 rest).
  { intros [t|[[[opening closing] before] after] attrs t] rest [] Hv.
    - assert (Hf : firstIs 60%N (source re) = true).
      { do 10 (destruct k as [|k]; [injection Hk as <- _ _; reflexivity|]).
        destruct k; discriminate. }
      apply replaceFrom_inert; [exact Hf|]. now apply inlineText_noLT.
    - destruct Hv as [Hin [Ha Ht]].
      pose proof (attributeText_noLT attrs Ha) as Hna.
      pose proof (inlineText_noLT t Ht) as Hnt.
      unfold simpleElements in Hin. cbn [In] in Hin.
      do 10 (destruct k as [|k];
             [ injection Hk as <- <- <-;
               repeat (destruct Hin as [Hin|Hin];
                       [injection Hin as <- <- <- <-|]); [..|destruct Hin];
               cbn -[js];
               first [ segment_inert Hnt | segment_scan
                     | segment_match Ha Ht ]
             | ]).
      destruct k; discriminate. }
  apply (replaceFrom_segments unit _ _ Segment (stage k) (stage (S k)) flat);
    [ | exact Hseg | exact Hall ].
  intros []. do 10 (destruct k as [|k]; [injection Hk as <- _ _; reflexivity|]).
  destruct k; discriminate.
Qed.


Lemma forallb_concat (A : Type) (f : A -> bool) (l : list (list A)) :
  forallb f (concat l) = forallb (forallb f) l.
Proof.
  induction l as [|x l IH]; [reflexivity|].
  cbn [concat forallb]. now rewrite forallb_app, IH.
Qed.

Lemma stage_raw (seg : Segment) : stage 0 seg = raw seg.
Proof. now destruct seg as [t|[[[o c] b] a] attrs t]. Qed.

Lemma stage_rendered (seg : Segment) :
  flat seg -> stage (length simplePasses) seg = rendered seg.
Proof.
  destruct seg as [t|[[[o c] b] a] attrs t]; [reflexivity|].
  intros [Hin _]. unfold simpleElements in Hin. cbn [In] in Hin.
  repeat (destruct Hin as [Hin|Hin]; [injection Hin as <- <- <- <-|]);
    [..|destruct Hin]; reflexivity.
Qed.

Lemma forallb_app3 (f : char16 -> bool) (b t a : jsstring) :
  forallb f b = true -> forallb f t = true -> forallb f a = true ->
  forallb f (b ++ t ++ a) = true.
Proof. intros Hb Ht Ha. now rewrite !forallb_app, Hb, Ht, Ha. Qed.

Lemma rendered_plain (seg : Segment) :
  flat seg ->
  noLT (rendered seg) = true /\
  forallb (fun c => negb (c =? 38)%N) (rendered seg) = true.
Proof.
  destruct seg as [t|[[[o c] b] a] attrs t].
  - intros Ht. split; [now apply inlineText_noLT|now apply inlineText_noAmp].
  - intros [Hin [_ Ht]].
    pose proof (inlineText_noLT t Ht) as Hnt.
    pose proof (inlineText_noAmp t Ht) as Hat.
    unfold noLT in *. cbn [rendered].
    unfold simpleElements in Hin. cbn [In] in Hin.
    repeat (destruct Hin as [Hin|Hin]; [injection Hin as <- <- <- <-|]);
      [..|destruct Hin]; split; apply forallb_app3;
      first [exact Hnt | exact Hat | by_computation].
Qed.

Lemma rendered_all_plain (segs : list Segment) :
  Forall flat segs ->
  noLT (concat (map rendered segs)) = true /\
  forallb (fun c => negb (c =? 38)%N) (concat (map rendered segs)) = true.
Proof.
  intros Hall. unfold noLT. rewrite !forallb_concat.
  induction Hall as [|seg segs Hv _ [IH1 IH2]]; [now split|].
  cbn [map forallb]. destruct (rendered_plain seg Hv) as [H1 H2].
  split; apply andb_true_iff; split;
    first [exact H1 | exact H2 | exact IH1 | exact IH2].
Qed.

(** X19.  Flat content renders piece by piece.  For a sequence of text
    nodes and simple elements (h1 to h6, p, strong, b, em, i, code, with any
    attributes, around inline text), the passes for the elements leave the
    text nodes as they are and turn each element into its markdown, at its
    place; no other pass but the collapse of blank lines and the final trim
    changes the result. *)
Theorem flat_content_renders (segs : list Segment) :
  Forall flat segs ->
  convertHtmlToMarkdown (concat (map raw segs))
  = trim (replaceTemplate RE_BLANK_LINES (js "\n\n")
            (concat (map rendered segs))).
Proof.
  intros Hall. unfold convertHtmlToMarkdown.
  rewrite <- (map_ext _ _ stage_raw).
  rewrite (pass_stage 0 (RE_HEADING "h1") "# $1\n\n" ["<h1"%string] segs eq_refl Hall).
  rewrite (pass_stage 1 (RE_HEADING "h2") "## $1\n\n" ["<h2"%string] segs eq_refl Hall).
  rewrite (pass_stage 2 (RE_HEADING "h3") "### $1\n\n" ["<h3"%string] segs eq_refl Hall).
  rewrite (pass_stage 3 (RE_HEADING "h4") "#### $1\n\n" ["<h4"%string] segs eq_refl Hall).
  rewrite (pass_stage 4 (RE_HEADING "h5") "##### $1\n\n" ["<h5"%string] segs eq_refl Hall).
  rewrite (pass_stage 5 (RE_HEADING "h6") "###### $1\n\n" ["<h6"%string] segs eq_refl Hall).
  rewrite (pass_stage 6 RE_P "$1\n\n" ["<p"%string] segs eq_refl Hall).
  rewrite (pass_stage 7 RE_STRONG "**$2**" ["<strong"; "<b"]%string segs eq_refl Hall).
  rewrite (pass_stage 8 RE_EM "*$2*" ["<em"; "<i"]%string segs eq_refl Hall).
  rewrite (pass_stage 9 RE_CODE "`$1`" ["<code"%string] segs eq_refl Hall).
  replace (map (stage 10) segs) with (map rendered segs).
  2:{ apply map_ext_in. intros seg Hin. symmetry.
      apply (stage_rendered seg). rewrite Forall_forall in Hall. now apply Hall. }
  destruct (rendered_all_plain segs Hall) as [Hlt Hamp].
  set (s1 := concat (map rendered segs)) in *.
  pose proof (noLT_hasTag s1 Hlt) as Htag.
  rewrite (replaceTemplate_without_tag RE_PRE _ s1 eq_refl Htag).
  rewrite (replaceTemplate_without_tag RE_A _ s1 eq_refl Htag).
  rewrite (replaceTemplate_without_tag RE_IMG_SRC_ALT _ s1 eq_refl Htag).
  rewrite (replaceTemplate_without_tag RE_IMG_ALT_SRC _ s1 eq_refl Htag).
  rewrite (replaceTemplate_without_tag RE_IMG_SRC _ s1 eq_refl Htag).
  rewrite (replaceFunction_without_tag RE_UL _ s1 eq_refl Htag).
  rewrite (replaceFunction_without_tag RE_OL _ s1 eq_refl Htag).
  rewrite (replaceTemplate_without_tag RE_BR _ s1 eq_refl Htag).
  rewrite (replaceTemplate_without_tag RE_TAG _ s1 eq_refl Htag).
  rewrite (replace_without_literal "&amp;" _ s1 (noAmp_includes s1 (js "amp;") Hamp)).
  rewrite (replace_without_literal "&lt;" _ s1 (noAmp_includes s1 (js "lt;") Hamp)).
  rewrite (replace_without_literal "&gt;" _ s1 (noAmp_includes s1 (js "gt;") Hamp)).
  rewrite (replace_without_literal "&quot;" _ s1 (noAmp_includes s1 (js "quot;") Hamp)).
  rewrite (replace_without_literal "&#39;" _ s1 (noAmp_includes s1 (js "#39;") Hamp)).
  reflexivity.
Qed.

Lemma flat_content_renders_witness :
  convertHtmlToMarkdown
    (concat (map raw
       [ElementNode ("<h1", "</h1>", "# ", "\n\n")%string [] (js "Title");
        TextNode (js "Some ");
        ElementNode ("<b", "</b>", "**", "**")%string (js " class='x'")
          (js "bold");
        TextNode (js " text > here");
        ElementNode ("<p", "</p>", "", "\n\n")%string [] (js "More")]))
  = trim (replaceTemplate RE_BLANK_LINES (js "\n\n")
            (concat (map rendered
               [ElementNode ("<h1", "</h1>", "# ", "\n\n")%string [] (js "Title");
                TextNode (js "Some ");
                ElementNode ("<b", "</b>", "**", "**")%string (js " class='x'")
                  (js "bold");
                TextNode (js " text > here");
                ElementNode ("<p", "</p>", "", "\n\n")%string [] (js "More")]))).
Proof.
  apply flat_content_renders.
  repeat (apply Forall_cons;
          [first [ by_computation
                 | split; [in_calls|split; by_computation] ]|]).
  apply Forall_nil.
Defined.

(** ** Lists *)

Lemma li_match (item : jsstring * jsstring) (rest : jsstring) :
  itemOk item ->
  exists mr,
    matchAt RE_LI (listItem item ++ rest) = Some mr /\
    matched mr = listItem item /\ capture mr 1 = snd item.
Proof.
  destruct item as [a t]. intros [Ha Ht]. cbn [fst snd] in *.
  unfold listItem. cbn [fst snd]. eexists. split; [|split].
  - normal_form. unfold matchAt. run. greedy_through Ha.
    2:{ run. lazy_through Ht. run. reflexivity. }
    run. reflexivity.
  - cbn [matched]. apply consumed_suffix. normal_form. reflexivity.
  - cbv [capture lookup captures Nat.eqb]. apply consumed_app.
Qed.

Lemma li_template (mr : MatchResult) :
  GetSubstitution (groupCount (source RE_LI)) mr (js "- $1\n")
  = js "- " ++ capture mr 1 ++ js "\n".
Proof.
  match goal with
  | |- ?l = _ => let v := eval cbv -[capture app] in l in change l with v
  end.
  literals. reflexivity.
Qed.

Lemma ul_items (items : list (jsstring * jsstring)) :
  Forall itemOk items ->
  replaceTemplate RE_LI (js "- $1\n") (concat (map listItem items))
  = concat (map ulLine items).
Proof.
  intros Hall. unfold replaceTemplate.
  apply (replaceFrom_segments unit RE_LI _ _ listItem ulLine itemOk);
    [intros []; reflexivity| |exact Hall].
  intros item rest [] Hv. destruct (li_match item rest Hv) as [mr [Hm [Hw Hc]]].
  rewrite (replaceFrom_match unit RE_LI _ tt tt (listItem item ++ rest)
             (listItem item) rest _ mr Hm eq_refl eq_refl Hw).
  - rewrite li_template, Hc. reflexivity.
  - unfold listItem. literals. discriminate.
Qed.

Lemma ol_items (items : list (jsstring * jsstring)) (counter : nat) :
  Forall itemOk items ->
  replaceFrom RE_LI olItemReplacer counter 0 (concat (map listItem items))
  = concat (map olLine (seq counter (length items))).
Proof.
  intros Hall. revert counter.
  induction Hall as [|item items Hv _ IH]; intros counter; [reflexivity|].
  cbn [map concat length seq].
  destruct (li_match item (concat (map listItem items)) Hv)
    as [mr [Hm [Hw _]]].
  rewrite (replaceFrom_match nat RE_LI _ counter (S counter) _
             (listItem item) _ _ mr Hm eq_refl eq_refl Hw).
  - now rewrite IH.
  - unfold listItem. literals. discriminate.
Qed.


(** ** The lazy star across the items of a list *)

Lemma repeatLazy_step (p : char16 -> bool) (k : Continuation)
    (cs : list (nat * jsstring)) (c : char16) (s : jsstring) :
  k {| rest := c :: s; caps := cs |} = None -> p c = true ->
  repeatLazy p k cs (c :: s) = repeatLazy p k cs s.
Proof. intros Hk Hp. cbn [repeatLazy]. now rewrite Hk, Hp. Qed.

Lemma repeatLazy_noLT (p : char16 -> bool) (k : Continuation)
    (cs : list (nat * jsstring)) (t u : jsstring) :
  (forall c, p c = true) ->
  (forall c s, (c =? 60)%N = false ->
               k {| rest := c :: s; caps := cs |} = None) ->
  noLT t = true ->
  repeatLazy p k cs (t ++ u) = repeatLazy p k cs u.
Proof.
  intros Hp Hk Ht. apply repeatLazy_through. intros c s Hc. split; [apply Hp|].
  apply Hk. unfold noLT in Ht. rewrite forallb_forall in Ht.
  now apply negb_true_iff, Ht.
Qed.

Lemma repeatLazy_items (p : char16 -> bool) (k : Continuation)
    (cs : list (nat * jsstring)) (items : list (jsstring * jsstring))
    (u : jsstring) :
  (forall c, p c = true) ->
  (forall c s, (c =? 60)%N = false ->
               k {| rest := c :: s; caps := cs |} = None) ->
  (forall s, k {| rest := 60%N :: 108%N :: s; caps := cs |} = None) ->
  (forall s, k {| rest := 60%N :: 47%N :: 108%N :: s; caps := cs |} = None) ->
  Forall itemOk items ->
  repeatLazy p k cs (concat (map listItem items) ++ u) = repeatLazy p k cs u.
Proof.
  intros Hp Hk Hl Hc Hall.
  induction Hall as [|[a t] items [Ha Ht] _ IH]; [reflexivity|].
  cbn [fst snd] in *. cbn [map concat]. unfold listItem at 1. cbn [fst snd].
  normal_form.
  rewrite repeatLazy_step by (first [apply Hl | apply Hp]).
  rewrite repeatLazy_step by (first [apply Hk; reflexivity | apply Hp]).
  rewrite repeatLazy_step by (first [apply Hk; reflexivity | apply Hp]).
  rewrite (repeatLazy_noLT p k cs a _ Hp Hk (attributeText_noLT a Ha)).
  rewrite repeatLazy_step by (first [apply Hk; reflexivity | apply Hp]).
  rewrite (repeatLazy_noLT p k cs t _ Hp Hk (inlineText_noLT t Ht)).
  rewrite repeatLazy_step by (first [apply Hc | apply Hp]).
  rewrite repeatLazy_step by (first [apply Hk; reflexivity | apply Hp]).
  rewrite repeatLazy_step by (first [apply Hk; reflexivity | apply Hp]).
  rewrite repeatLazy_step by (first [apply Hk; reflexivity | apply Hp]).
  rewrite repeatLazy_step by (first [apply Hk; reflexivity | apply Hp]).
  exact IH.
Qed.

Ltac items_through Hall :=
  rewrite repeatLazy_items;
  [ | intros ?; reflexivity
    | let c := fresh "c" in let s := fresh "s" in let H := fresh "H" in
      intros c s H; cbn -[charMatches consumed];
      rewrite (charMatches_lt _ c H); reflexivity
    | intros ?; run; reflexivity
    | intros ?; run; reflexivity
    | exact Hall ].

Lemma ul_match (attrs : jsstring) (items : list (jsstring * jsstring)) :
  attributeText attrs = true -> Forall itemOk items ->
  exists mr,
    matchAt RE_UL (js "<ul" ++ attrs ++ js ">" ++ concat (map listItem items)
                   ++ js "</ul>") = Some mr /\
    matched mr = js "<ul" ++ attrs ++ js ">" ++ concat (map listItem items)
                 ++ js "</ul>" /\
    capture mr 1 = concat (map listItem items).
Proof.
  intros Ha Hall. eexists. split; [|split].
  - normal_form. unfold matchAt. run. greedy_through Ha.
    2:{ run. items_through Hall. run. reflexivity. }
    run. reflexivity.
  - cbn [matched rest]. normal_form. apply consumed_all.
  - cbv [capture lookup captures Nat.eqb]. apply consumed_app.
Qed.

Lemma ol_match (attrs : jsstring) (items : list (jsstring * jsstring)) :
  attributeText attrs = true -> Forall itemOk items ->
  exists mr,
    matchAt RE_OL (js "<ol" ++ attrs ++ js ">" ++ concat (map listItem items)
                   ++ js "</ol>") = Some mr /\
    matched mr = js "<ol" ++ attrs ++ js ">" ++ concat (map listItem items)
                 ++ js "</ol>" /\
    capture mr 1 = concat (map listItem items).
Proof.
  intros Ha Hall. eexists. split; [|split].
  - normal_form. unfold matchAt. run. greedy_through Ha.
    2:{ run. items_through Hall. run. reflexivity. }
    run. reflexivity.
  - cbn [matched rest]. normal_form. apply consumed_all.
  - cbv [capture lookup captures Nat.eqb]. apply consumed_app.
Qed.


(** ** Passes that do not see a list *)

Section Blind.
Variable St : Type.
Variable re : RegExp.
Variable replacer : St -> MatchResult -> jsstring * St.
Variable letter : char16.
Hypothesis blind : listBlind re letter.

Ltac blind_scan :=
  repeat first
    [ rewrite replaceFrom_none_cons
        by (first [ apply (proj2 (proj2 blind))
                  | apply matchAt_other_start;
                    [exact (proj1 blind)|reflexivity] ])
    | rewrite replaceFrom_inert
        by (first [exact (proj1 blind) | assumption]) ].

Lemma items_unseen (st : St) (items : list (jsstring * jsstring))
    (rest : jsstring) :
  Forall itemOk items ->
  replaceFrom re replacer st 0 (concat (map listItem items) ++ rest)
  = concat (map listItem items) ++ replaceFrom re replacer st 0 rest.
Proof.
  intros Hall. induction Hall as [|[a t] items [Ha Ht] _ IH]; [reflexivity|].
  cbn [fst snd] in *.
  pose proof (attributeText_noLT a Ha) as Hna.
  pose proof (inlineText_noLT t Ht) as Hnt.
  cbn [map concat]. unfold listItem at 1 3. cbn [fst snd].
  normal_form. blind_scan. now rewrite IH.
Qed.

Lemma list_unseen (st : St) (attrs : jsstring)
    (items : list (jsstring * jsstring)) :
  (letter =? 60)%N = false ->
  attributeText attrs = true -> Forall itemOk items ->
  replaceFrom re replacer st 0
    (60%N :: letter :: 108%N :: attrs ++ 62%N
     :: concat (map listItem items) ++ [60%N; 47%N; letter; 108%N; 62%N])
  = 60%N :: letter :: 108%N :: attrs ++ 62%N
    :: concat (map listItem items) ++ [60%N; 47%N; letter; 108%N; 62%N].
Proof.
  intros Hletter Ha Hall. pose proof (attributeText_noLT attrs Ha) as Hna.
  rewrite replaceFrom_none_cons by apply (proj2 (proj2 blind)).
  rewrite replaceFrom_none_cons
    by (apply matchAt_other_start; [exact (proj1 blind)|exact Hletter]).
  rewrite replaceFrom_none_cons
    by (apply matchAt_other_start; [exact (proj1 blind)|reflexivity]).
  rewrite replaceFrom_inert by (first [exact (proj1 blind) | assumption]).
  rewrite replaceFrom_none_cons
    by (apply matchAt_other_start; [exact (proj1 blind)|reflexivity]).
  rewrite (items_unseen st items _ Hall).
  rewrite replaceFrom_none_cons by apply (proj2 (proj2 blind)).
  rewrite replaceFrom_none_cons
    by (apply matchAt_other_start; [exact (proj1 blind)|reflexivity]).
  rewrite replaceFrom_none_cons
    by (apply matchAt_other_start; [exact (proj1 blind)|exact Hletter]).
  rewrite replaceFrom_none_cons
    by (apply matchAt_other_start; [exact (proj1 blind)|reflexivity]).
  rewrite replaceFrom_none_cons
    by (apply matchAt_other_start; [exact (proj1 blind)|reflexivity]).
  rewrite replaceFrom_none_nil by exact (proj1 (proj2 blind)).
  reflexivity.
Qed.

End Blind.

Ltac blindness :=
  split; [reflexivity|]; split; [reflexivity|];
  intros tail; repeat split; vm_compute; reflexivity.

Lemma blind_passes (letter : char16) :
  letter = 117%N \/ letter = 111%N ->
  Forall (fun re => listBlind re letter)
    [RE_HEADING "h1"; RE_HEADING "h2"; RE_HEADING "h3"; RE_HEADING "h4";
     RE_HEADING "h5"; RE_HEADING "h6"; RE_P; RE_STRONG; RE_EM; RE_CODE;
     RE_PRE; RE_A; RE_IMG_SRC_ALT; RE_IMG_ALT_SRC; RE_IMG_SRC].
Proof.
  intros [->| ->]; repeat (apply Forall_cons; [blindness|]); apply Forall_nil.
Qed.

Lemma blind_ul : listBlind RE_UL 111%N.
Proof. blindness. Qed.

(** ** Lines without blank lines *)

Lemma anywhere_without_LF (w u : jsstring) :
  forallb (fun x => negb (x =? LF)%N) w = true ->
  anywhere startsBlankLines (w ++ u) = anywhere startsBlankLines u.
Proof.
  induction w as [|c w IH]; [reflexivity|]. cbn [forallb].
  rewrite andb_true_iff, negb_true_iff. intros [Hc Hw].
  cbn [app anywhere]. rewrite (IH Hw).
  unfold startsBlankLines at 1. now rewrite Hc.
Qed.

Lemma needLF_solid (c : char16) (s : jsstring) (n : nat) :
  isWhiteSpace c = false -> needLF (c :: s) (S n) = false.
Proof.
  intros Hc. cbn [needLF]. rewrite Hc.
  destruct (c =? LF)%N eqn:E; [|reflexivity].
  apply N.eqb_eq in E. subst c. discriminate.
Qed.

Lemma solid_lines (lines : list jsstring) :
  Forall solidLine lines ->
  hasBlankLines (concat lines ++ [LF]) = false
  /\ needLF (concat lines ++ [LF]) 2 = false.
Proof.
  unfold hasBlankLines.
  induction 1 as [|l lines [c [w [-> [Hc Hw]]]] _ [IH1 IH2]];
    [split; reflexivity|].
  cbn [concat]. rewrite <- !app_assoc. cbn [app]. rewrite <- !app_assoc.
  cbn [app]. split.
  - cbn [anywhere]. rewrite anywhere_without_LF by exact Hw.
    cbn [anywhere]. rewrite IH1, orb_false_r.
    unfold startsBlankLines at 2. rewrite N.eqb_refl, IH2. cbn [andb orb].
    unfold startsBlankLines. destruct (c =? LF)%N eqn:E; [|reflexivity].
    apply N.eqb_eq in E. subst c. discriminate.
  - now apply needLF_solid.
Qed.

(** ** The lines of the two kinds of list *)

Lemma inlineText_no_LF (t : jsstring) :
  inlineText t = true -> forallb (fun x => negb (x =? LF)%N) t = true.
Proof.
  unfold inlineText. rewrite !forallb_forall. intros H c Hc.
  specialize (H c Hc). rewrite !andb_true_iff, !negb_true_iff in H.
  destruct H as [_ H]. unfold isLineTerminator in H.
  rewrite !orb_false_iff in H. apply negb_true_iff. tauto.
Qed.

Lemma ulLine_solid (item : jsstring * jsstring) :
  itemOk item -> solidLine (ulLine item).
Proof.
  intros [_ Ht]. exists 45%N, (32%N :: snd item). split; [|split].
  - unfold ulLine. literals. reflexivity.
  - reflexivity.
  - cbn [forallb]. now rewrite (inlineText_no_LF _ Ht).
Qed.

Lemma digits_are_digits (u : Decimal.uint) :
  forallb isDigitUnit (digits u) = true.
Proof. induction u; cbn [digits forallb]; auto. Qed.

Lemma numberToString_shape (n : nat) :
  exists d ds, numberToString n = d :: ds /\
               forallb isDigitUnit (d :: ds) = true.
Proof.
  unfold numberToString.
  pose proof (digits_are_digits (Nat.to_uint n)) as H.
  destruct (Nat.to_uint n) eqn:E;
    try (cbn [digits] in *; eexists; eexists; split; [reflexivity|exact H]).
  exfalso. pose proof (DecimalNat.Unsigned.to_of (Nat.to_uint n)) as Hn.
  rewrite DecimalNat.Unsigned.of_to in Hn.
  apply (DecimalFacts.unorm_nonnil (Nat.to_uint n)). rewrite <- Hn. exact E.
Qed.

Lemma digit_facts (c : char16) :
  isDigitUnit c = true ->
  isWhiteSpace c = false /\ (c =? LF)%N = false /\ (c =? 60)%N = false /\
  (c =? 38)%N = false.
Proof.
  unfold isDigitUnit. rewrite andb_true_iff, !N.leb_le. intros [H1 H2].
  assert (Hne : forall k, (k < 48 \/ 57 < k)%N -> (c =? k)%N = false).
  { intros k Hk. apply N.eqb_neq. lia. }
  unfold isWhiteSpace, LF.
  rewrite !Hne by lia.
  replace (8192 <=? c)%N with false by (symmetry; apply N.leb_gt; lia).
  repeat split; reflexivity.
Qed.


Lemma replaceFunction_whole (re : RegExp) (f : MatchResult -> jsstring)
    (x : jsstring) (mr : MatchResult) :
  matchAt re [] = None -> matchAt re x = Some mr -> matched mr = x -> x <> [] ->
  replaceFunction re f x = f mr.
Proof.
  intros He Hm Hw Hx. destruct x as [|c s]; [congruence|].
  unfold replaceFunction.
  now rewrite (replaceFrom_whole unit re _ tt c s mr He Hm Hw).
Qed.

Lemma replaceTemplate_unseen (re : RegExp) (tpl : jsstring) (letter : char16)
    (attrs : jsstring) (items : list (jsstring * jsstring)) :
  listBlind re letter -> (letter =? 60)%N = false ->
  attributeText attrs = true -> Forall itemOk items ->
  replaceTemplate re tpl
    (60%N :: letter :: 108%N :: attrs ++ 62%N
     :: concat (map listItem items) ++ [60%N; 47%N; letter; 108%N; 62%N])
  = 60%N :: letter :: 108%N :: attrs ++ 62%N
    :: concat (map listItem items) ++ [60%N; 47%N; letter; 108%N; 62%N].
Proof. intros. now apply list_unseen. Qed.

Lemma replaceFunction_unseen (re : RegExp) (f : MatchResult -> jsstring)
    (letter : char16) (attrs : jsstring) (items : list (jsstring * jsstring)) :
  listBlind re letter -> (letter =? 60)%N = false ->
  attributeText attrs = true -> Forall itemOk items ->
  replaceFunction re f
    (60%N :: letter :: 108%N :: attrs ++ 62%N
     :: concat (map listItem items) ++ [60%N; 47%N; letter; 108%N; 62%N])
  = 60%N :: letter :: 108%N :: attrs ++ 62%N
    :: concat (map listItem items) ++ [60%N; 47%N; letter; 108%N; 62%N].
Proof. intros. now apply list_unseen. Qed.

(** The lines of a list hold no markup. *)
Lemma lines_plain (lines : list jsstring) :
  Forall (fun l => noLT l = true /\
                   forallb (fun c => negb (c =? 38)%N) l = true) lines ->
  noLT (concat lines ++ js "\n") = true /\
  forallb (fun c => negb (c =? 38)%N) (concat lines ++ js "\n") = true.
Proof.
  intros Hall. unfold noLT. rewrite !forallb_app, !forallb_concat.
  induction Hall as [|l lines [H1 H2] _ [IH1 IH2]]; [split; reflexivity|].
  cbn [forallb]. apply andb_true_iff in IH1 as [IH1 _].
  apply andb_true_iff in IH2 as [IH2 _].
  split; apply andb_true_iff; split; try reflexivity;
    apply andb_true_iff; split;
    first [exact H1 | exact H2 | exact IH1 | exact IH2].
Qed.

Lemma ulLine_plain (item : jsstring * jsstring) :
  itemOk item ->
  noLT (ulLine item) = true /\
  forallb (fun c => negb (c =? 38)%N) (ulLine item) = true.
Proof.
  intros [_ Ht]. unfold ulLine, noLT.
  split; apply forallb_app3;
    first [ exact (inlineText_noLT _ Ht) | exact (inlineText_noAmp _ Ht)
          | by_computation ].
Qed.

Lemma olLine_shape (counter : nat) :
  solidLine (olLine counter)
  /\ noLT (olLine counter) = true
  /\ forallb (fun c => negb (c =? 38)%N) (olLine counter) = true.
Proof.
  unfold olLine. destruct (numberToString_shape counter) as [d [ds [-> Hd]]].
  cbn [forallb] in Hd. apply andb_true_iff in Hd as [Hd Hds].
  destruct (digit_facts d Hd) as [Hw [_ [Hl Ha]]].
  assert (Hall : forall P : char16 -> bool,
             (forall c, isDigitUnit c = true -> P c = true) ->
             forallb P ds = true).
  { intros P HP. rewrite forallb_forall in *. intros c Hc. apply HP.
    now apply Hds. }
  split; [|split].
  - exists d, (ds ++ js ". $1"). split; [|split].
    + cbn [app]. rewrite <- app_assoc. reflexivity.
    + exact Hw.
    + rewrite forallb_app. apply andb_true_iff. split; [|by_computation].
      apply Hall. intros c Hc. apply negb_true_iff.
      now destruct (digit_facts c Hc) as [_ [H _]].
  - unfold noLT. cbn [app forallb]. rewrite Hl. cbn [negb andb].
    rewrite forallb_app. apply andb_true_iff. split; [|by_computation].
    apply Hall. intros c Hc. apply negb_true_iff.
    now destruct (digit_facts c Hc) as [_ [_ [H _]]].
  - cbn [app forallb]. rewrite Ha. cbn [negb andb].
    rewrite forallb_app. apply andb_true_iff. split; [|by_computation].
    apply Hall. intros c Hc. apply negb_true_iff.
    now destruct (digit_facts c Hc) as [_ [_ [_ H]]].
Qed.

(** What the passes behind the list passes do to rendered lines. *)
Lemma lines_finish (lines : list jsstring) :
  Forall solidLine lines ->
  Forall (fun l => noLT l = true /\
                   forallb (fun c => negb (c =? 38)%N) l = true) lines ->
  trim
    (replaceTemplate RE_BLANK_LINES (js "\n\n")
       (replaceTemplate (RE_ENTITY "&#39;") (js "'")
          (replaceTemplate (RE_ENTITY "&quot;") [34%N]
             (replaceTemplate (RE_ENTITY "&gt;") (js ">")
                (replaceTemplate (RE_ENTITY "&lt;") (js "<")
                   (replaceTemplate (RE_ENTITY "&amp;") (js "&")
                      (replaceTemplate RE_TAG []
                         (replaceTemplate RE_BR (js "\n")
                            (concat lines ++ js "\n")))))))))
  = trim (concat lines ++ js "\n").
Proof.
  intros Hsolid Hplain.
  destruct (lines_plain lines Hplain) as [Hlt Hamp].
  destruct (solid_lines lines Hsolid) as [Hblank _].
  change [LF] with (js "\n") in Hblank.
  set (s1 := concat lines ++ js "\n") in *.
  pose proof (noLT_hasTag s1 Hlt) as Htag.
  rewrite (replaceTemplate_without_tag RE_BR _ s1 eq_refl Htag).
  rewrite (replaceTemplate_without_tag RE_TAG _ s1 eq_refl Htag).
  rewrite (replace_without_literal "&amp;" _ s1 (noAmp_includes s1 (js "amp;") Hamp)).
  rewrite (replace_without_literal "&lt;" _ s1 (noAmp_includes s1 (js "lt;") Hamp)).
  rewrite (replace_without_literal "&gt;" _ s1 (noAmp_includes s1 (js "gt;") Hamp)).
  rewrite (replace_without_literal "&quot;" _ s1 (noAmp_includes s1 (js "quot;") Hamp)).
  rewrite (replace_without_literal "&#39;" _ s1 (noAmp_includes s1 (js "#39;") Hamp)).
  rewrite (replace_without_blankLines _ s1 Hblank).
  reflexivity.
Qed.


Ltac unseen_pass raw letter attrs items Ha Hall :=
  match goal with
  | |- context [replaceTemplate ?re ?tpl raw] =>
      replace (replaceTemplate re tpl raw) with raw
        by (symmetry;
            apply (replaceTemplate_unseen re tpl letter attrs items);
            [blindness | reflexivity | exact Ha | exact Hall])
  end.

(** X20.  An unordered list.  A [ul] element, with any attributes, whose
    content is a sequence of [li] elements around inline text renders as
    one line per item, a hyphen and a blank before the item's text, in the
    order of the items; the result is trimmed. *)
Theorem unordered_list_renders (attrs : jsstring)
    (items : list (jsstring * jsstring)) :
  attributeText attrs = true -> Forall itemOk items ->
  convertHtmlToMarkdown
    (js "<ul" ++ attrs ++ js ">" ++ concat (map listItem items) ++ js "</ul>")
  = trim (concat (map ulLine items) ++ js "\n").
Proof.
  intros Ha Hall. unfold convertHtmlToMarkdown.
  set (raw := js "<ul" ++ attrs ++ js ">" ++ concat (map listItem items)
              ++ js "</ul>").
  do 15 unseen_pass raw 117%N attrs items Ha Hall.
  destruct (ul_match attrs items Ha Hall) as [mr [Hm [Hw Hc]]]. fold raw in Hm, Hw.
  rewrite (replaceFunction_whole RE_UL ulReplacer raw mr eq_refl Hm Hw)
    by (unfold raw; literals; discriminate).
  unfold ulReplacer. cbv zeta. rewrite Hc, (ul_items items Hall).
  set (lines := map ulLine items).
  assert (Hsolid : Forall solidLine lines).
  { apply Forall_map. apply (Forall_impl _ ulLine_solid Hall). }
  assert (Hplain : Forall (fun l => noLT l = true /\
                     forallb (fun c => negb (c =? 38)%N) l = true) lines).
  { apply Forall_map. apply (Forall_impl _ ulLine_plain Hall). }
  pose proof (lines_plain lines Hplain) as [Hlt _].
  rewrite (replaceFunction_without_tag RE_OL _ _ eq_refl (noLT_hasTag _ Hlt)).
  exact (lines_finish lines Hsolid Hplain).
Qed.

(** X21.  An ordered list, whatever its items.  An [ol] element whose
    content is a sequence of [li] elements renders as one line per item that
    holds the number of the item, counted from one, and the characters [$1]
    of the replacer's template literal; the text of no item reaches the
    output. *)
Theorem ordered_list_renders (attrs : jsstring)
    (items : list (jsstring * jsstring)) :
  attributeText attrs = true -> Forall itemOk items ->
  convertHtmlToMarkdown
    (js "<ol" ++ attrs ++ js ">" ++ concat (map listItem items) ++ js "</ol>")
  = trim (concat (map olLine (seq 1 (length items))) ++ js "\n").
Proof.
  intros Ha Hall. unfold convertHtmlToMarkdown.
  set (raw := js "<ol" ++ attrs ++ js ">" ++ concat (map listItem items)
              ++ js "</ol>").
  do 15 unseen_pass raw 111%N attrs items Ha Hall.
  replace (replaceFunction RE_UL ulReplacer raw) with raw
    by (symmetry;
        apply (replaceFunction_unseen RE_UL ulReplacer 111%N attrs items);
        [blindness | reflexivity | exact Ha | exact Hall]).
  destruct (ol_match attrs items Ha Hall) as [mr [Hm [Hw Hc]]]. fold raw in Hm, Hw.
  rewrite (replaceFunction_whole RE_OL olReplacer raw mr eq_refl Hm Hw)
    by (unfold raw; literals; discriminate).
  unfold olReplacer. cbv zeta. rewrite Hc, (ol_items items 1 Hall).
  set (lines := map olLine (seq 1 (length items))).
  assert (Hshape : Forall (fun l => solidLine l /\ noLT l = true /\
                     forallb (fun c => negb (c =? 38)%N) l = true) lines).
  { apply Forall_map. apply Forall_forall. intros i _. apply olLine_shape. }
  apply lines_finish.
  - apply (Forall_impl _ (fun l H => proj1 H) Hshape).
  - apply (Forall_impl _ (fun l H => proj2 H) Hshape).
Qed.

Lemma unordered_list_renders_witness :
  convertHtmlToMarkdown
    (js "<ul" ++ js " id='toc'" ++ js ">"
     ++ concat (map listItem [(js " class='x'", js "first"); ([], js "second item")])
     ++ js "</ul>")
  = trim (concat (map ulLine [(js " class='x'", js "first"); ([], js "second item")])
          ++ js "\n").
Proof.
  apply (unordered_list_renders (js " id='toc'")
           [(js " class='x'", js "first"); ([], js "second item")]).
  - by_computation.
  - repeat (apply Forall_cons; [split; by_computation|]). apply Forall_nil.
Defined.

Lemma ordered_list_renders_witness :
  convertHtmlToMarkdown
    (js "<ol" ++ js " start='3'" ++ js ">"
     ++ concat (map listItem [(js " class='x'", js "first"); ([], js "second item")])
     ++ js "</ol>")
  = trim (concat (map olLine
                    (seq 1 (length [(js " class='x'", js "first");
                                    (@nil char16, js "second item")])))
          ++ js "\n").
Proof.
  apply (ordered_list_renders (js " start='3'")
           [(js " class='x'", js "first"); ([], js "second item")]).
  - by_computation.
  - repeat (apply Forall_cons; [split; by_computation|]). apply Forall_nil.
Defined.

(** ** Nested content, pass by pass *)

Lemma wellNested_children (tag : string * string * string * string)
    (attrs : jsstring) (children : list Markup) :
  wellNested (NElement tag attrs children) ->
  In tag simpleElements /\ attributeLine attrs = true /\
  Forall (fun c => wellNested c /\ mayHold tag c) children.
Proof.
  cbn [wellNested]. intros [H1 [H2 H3]]. split; [exact H1|]. split; [exact H2|].
  induction children as [|c l IH]; [constructor|].
  destruct H3 as [Hc Hl]. constructor; [exact Hc|exact (IH Hl)].
Qed.

(** Induction on nodes, with the children. *)
Lemma Markup_induction (P : Markup -> Prop) :
  (forall t, P (NText t)) ->
  (forall name attrs, P (NStray name attrs)) ->
  (forall tag attrs children,
     Forall P children -> P (NElement tag attrs children)) ->
  forall n, P n.
Proof.
  intros Ht Hs He. fix IH 1. intros [t|name attrs|tag attrs children].
  - apply Ht.
  - apply Hs.
  - apply He. induction children as [|c l IHl]; constructor.
    + apply IH.
    + exact IHl.
Qed.


(** ** Facts about the tables *)

Lemma lineText_noLT (s : jsstring) : lineText s = true -> noLT s = true.
Proof.
  unfold lineText, noLT. rewrite !forallb_forall. intros H c Hc.
  specialize (H c Hc). rewrite andb_true_iff in H. tauto.
Qed.

Lemma attributeLine_lineText (s : jsstring) :
  attributeLine s = true -> lineText s = true.
Proof.
  unfold attributeLine, lineText. rewrite !forallb_forall. intros H c Hc.
  specialize (H c Hc). rewrite !andb_true_iff in *. tauto.
Qed.

Lemma attributeLine_attributeText (s : jsstring) :
  attributeLine s = true -> attributeText s = true.
Proof.
  unfold attributeLine, attributeText. rewrite !forallb_forall. intros H c Hc.
  specialize (H c Hc). rewrite !andb_true_iff in *. tauto.
Qed.

Lemma inlineText_lineText (s : jsstring) :
  inlineText s = true -> lineText s = true.
Proof.
  unfold inlineText, lineText. rewrite !forallb_forall. intros H c Hc.
  specialize (H c Hc). rewrite !andb_true_iff in *. tauto.
Qed.

Lemma lineText_app (s u : jsstring) :
  lineText s = true -> lineText u = true -> lineText (s ++ u) = true.
Proof.
  unfold lineText. intros Hs Hu. rewrite forallb_app.
  apply andb_true_iff. split; assumption.
Qed.

(** How the tags of the table start, and what their renderings hold. *)
Lemma row_shape (opening closing before after : string) :
  In (opening, closing, before, after) simpleElements ->
  (exists o, js opening = 60%N :: o /\ lineText o = true)
  /\ (exists c, js closing = 60%N :: c /\ lineText c = true)
  /\ noLT (js before) = true /\ noLT (js after) = true
  /\ forallb (fun c => negb (c =? 38)%N) (js before) = true
  /\ forallb (fun c => negb (c =? 38)%N) (js after) = true
  /\ passIndex opening < 10.
Proof.
  intros Hin. unfold simpleElements in Hin. cbn [In] in Hin.
  repeat (destruct Hin as [Hin|Hin]; [injection Hin as <- <- <- <-|]);
    [..|destruct Hin];
    (split; [eexists; split; [by_computation|by_computation]|]);
    (split; [eexists; split; [by_computation|by_computation]|]);
    repeat split; try by_computation; vm_compute; lia.
Qed.

Lemma stray_shape (name : string) :
  In name strayNames -> lineText (js name) = true.
Proof.
  intros Hin. unfold strayNames in Hin. cbn [In] in Hin.
  repeat (destruct Hin as [<-|Hin]; [by_computation|]). destruct Hin.
Qed.

(** ** Stages *)

Lemma stageOf_element (k : nat) (opening closing before after : string)
    (attrs : jsstring) (children : list Markup) :
  stageOf k (NElement (opening, closing, before, after) attrs children)
  = if passIndex opening <? k
    then js before ++ concat (map (stageOf k) children) ++ js after
    else js opening ++ attrs ++ js ">"
         ++ concat (map (stageOf k) children) ++ js closing.
Proof. reflexivity. Qed.

Lemma above_children (k : nat) (tag : string * string * string * string)
    (children : list Markup) :
  k <= passIndex (fst (fst (fst tag))) ->
  Forall (fun c => wellNested c /\ mayHold tag c) children ->
  Forall (fun c => wellNested c /\ above k c) children.
Proof.
  intros Hk Hall. apply (Forall_impl _ (P := fun c => wellNested c /\ mayHold tag c));
    [|exact Hall].
  intros c [Hw Hm]. split; [exact Hw|].
  destruct c as [t|name attrs|[[[o cl] b] a] attrs ch]; cbn in *; try exact I.
  lia.
Qed.

(** A node all of whose elements wait for a later pass is the same before
    and after pass [k]. *)
Lemma stage_above (k : nat) :
  k < TAG_PASS ->
  forall n, wellNested n -> above k n -> stageOf k n = stageOf (S k) n.
Proof.
  intros Hk. induction n as [t|name attrs|[[[o cl] b] a] attrs ch IH]
    using Markup_induction; intros Hw Ha.
  - reflexivity.
  - cbn [stageOf].
    replace (TAG_PASS <? k) with false by (symmetry; apply Nat.ltb_ge; lia).
    replace (TAG_PASS <? S k) with false by (symmetry; apply Nat.ltb_ge; lia).
    reflexivity.
  - change (k < passIndex o) in Ha. rewrite !stageOf_element.
    replace (passIndex o <? k) with false by (symmetry; apply Nat.ltb_ge; lia).
    replace (passIndex o <? S k) with false
      by (symmetry; apply Nat.ltb_ge; lia).
    destruct (wellNested_children _ _ _ Hw) as [_ [_ Hch]].
    apply (above_children k) in Hch; [|cbn [fst]; lia].
    do 3 f_equal. f_equal. f_equal. apply map_ext_in. intros c Hc.
    rewrite Forall_forall in IH, Hch. destruct (Hch c Hc) as [Hwc Hac].
    now apply IH.
Qed.

(** ** The scan across a tag *)

Section Tags.
Variable St : Type.
Variable re : RegExp.
Variable replacer : St -> MatchResult -> jsstring * St.
Hypothesis Hfirst : firstIs 60%N (source re) = true.

Lemma skip_tag (st : St) (ts rest : jsstring) :
  blindTo re (60%N :: ts) -> noLT ts = true ->
  replaceFrom re replacer st 0 ((60%N :: ts) ++ rest)
  = (60%N :: ts) ++ replaceFrom re replacer st 0 rest.
Proof.
  intros Hb Hts. cbn [app].
  rewrite replaceFrom_none_cons by apply (Hb rest).
  now rewrite replaceFrom_inert.
Qed.

End Tags.

(** ** The lazy star across nodes *)

Section Lazy.
Variable p : char16 -> bool.
Variable K : Continuation.
Variable cs : list (nat * jsstring).
Variable k : nat.
Hypothesis Hp : forall c, isLineTerminator c = false -> p c = true.
Hypothesis HK : forall c s, (c =? 60)%N = false ->
                            K {| rest := c :: s; caps := cs |} = None.
Hypothesis Htags : forall ts, In ts (laterStarts k) ->
                   forall s, K {| rest := ts ++ s; caps := cs |} = None.

Lemma lazy_line (t u : jsstring) :
  lineText t = true -> repeatLazy p K cs (t ++ u) = repeatLazy p K cs u.
Proof.
  intros Ht. apply repeatLazy_through. intros c s Hc.
  unfold lineText in Ht. rewrite forallb_forall in Ht. specialize (Ht c Hc).
  rewrite andb_true_iff, !negb_true_iff in Ht. destruct Ht as [H1 H2].
  split; [now apply Hp|now apply HK].
Qed.

Lemma lazy_tag (ts u : jsstring) :
  (forall s, K {| rest := (60%N :: ts) ++ s; caps := cs |} = None) ->
  lineText ts = true ->
  repeatLazy p K cs ((60%N :: ts) ++ u) = repeatLazy p K cs u.
Proof.
  intros Hk Hts. cbn [app].
  rewrite repeatLazy_step; [now apply lazy_line|apply (Hk u)|].
  apply Hp. reflexivity.
Qed.

Lemma lazy_node :
  forall n, wellNested n -> above k n ->
  forall u, repeatLazy p K cs (stageOf k n ++ u) = repeatLazy p K cs u.
Proof.
  induction n as [t|name attrs|[[[o cl] b] a] attrs ch IH]
    using Markup_induction; intros Hw Ha u.
  - cbn [stageOf]. apply lazy_line. now apply inlineText_lineText.
  - destruct Hw as [Hin Hattrs]. cbn [stageOf].
    destruct (TAG_PASS <? k); [reflexivity|].
    change (js "<") with [60%N]. cbn [app]. rewrite <- !app_assoc.
    change (60%N :: js name ++ attrs ++ js ">" ++ u)
      with ((60%N :: js name) ++ attrs ++ js ">" ++ u).
    rewrite lazy_tag.
    + rewrite lazy_line by now apply attributeLine_lineText.
      now apply lazy_line.
    + intros s. apply (Htags (js "<" ++ js name)). unfold laterStarts.
      apply in_or_app. left. now apply (in_map (fun n => js "<" ++ js n)).
    + now apply stray_shape.
  - change (k < passIndex o) in Ha. rewrite stageOf_element.
    replace (passIndex o <? k) with false by (symmetry; apply Nat.ltb_ge; lia).
    destruct (wellNested_children _ _ _ Hw) as [Hin [Hattrs Hch]].
    apply (above_children k) in Hch; [|cbn [fst]; lia].
    destruct (row_shape o cl b a Hin) as [[o' [Eo Ho]] [[c' [Ec Hc]] _]].
    assert (Hstarts : In (js o) (laterStarts k) /\ In (js cl) (laterStarts k)).
    { unfold laterStarts. split; apply in_or_app; right;
        apply in_flat_map; exists (o, cl, b, a); (split; [exact Hin|]);
        replace (k <? passIndex o) with true
          by (symmetry; apply Nat.ltb_lt; lia); cbn [In]; auto. }
    destruct Hstarts as [Hso Hsc].
    rewrite <- !app_assoc. rewrite Eo. rewrite lazy_tag.
    + rewrite lazy_line by now apply attributeLine_lineText.
      rewrite lazy_line by reflexivity.
      assert (Hkids : forall l, Forall (fun c => wellNested c /\ above k c) l ->
                 Forall (fun n => wellNested n -> above k n ->
                           forall u, repeatLazy p K cs (stageOf k n ++ u)
                                     = repeatLazy p K cs u) l ->
                 forall v, repeatLazy p K cs (concat (map (stageOf k) l) ++ v)
                           = repeatLazy p K cs v).
      { induction l as [|c l IHl]; intros Hl Hi v; [reflexivity|].
        inversion Hl as [|? ? [Hwc Hac] Hl']; subst.
        inversion Hi as [|? ? Hic Hi']; subst.
        cbn [map concat]. rewrite <- app_assoc. rewrite (Hic Hwc Hac).
        now apply IHl. }
      rewrite (Hkids ch Hch IH). rewrite Ec. apply lazy_tag.
      * intros s. rewrite <- Ec. now apply Htags.
      * exact Hc.
    + intros s. rewrite <- Eo. now apply Htags.
    + exact Ho.
Qed.

Lemma lazy_children (children : list Markup) (u : jsstring) :
  Forall (fun c => wellNested c /\ above k c) children ->
  repeatLazy p K cs (concat (map (stageOf k) children) ++ u)
  = repeatLazy p K cs u.
Proof.
  induction 1 as [|c l [Hw Ha] _ IH]; [reflexivity|].
  cbn [map concat]. rewrite <- app_assoc. now rewrite lazy_node.
Qed.

End Lazy.

(** ** One pass over nested content *)

Section Pass.
Variable St : Type.
Variable re : RegExp.
Variable replacer : St -> MatchResult -> jsstring * St.
Variable k : nat.
Hypothesis Hfirst : firstIs 60%N (source re) = true.
Hypothesis Hend : matchAt re [] = None.
Hypothesis Hstray :
  forall name attrs rest st,
    In name strayNames -> attributeLine attrs = true ->
    replaceFrom re replacer st 0 (stageOf k (NStray name attrs) ++ rest)
    = stageOf (S k) (NStray name attrs) ++ replaceFrom re replacer st 0 rest.
Hypothesis Hraw :
  forall o c b a,
    In (o, c, b, a) simpleElements -> k < passIndex o ->
    blindTo re (js o) /\ blindTo re (js c).
Hypothesis Hown :
  forall o c b a attrs children rest st,
    In (o, c, b, a) simpleElements -> passIndex o = k ->
    attributeLine attrs = true ->
    Forall (fun n => wellNested n /\ above k n) children ->
    replaceFrom re replacer st 0
      (js o ++ attrs ++ js ">" ++ concat (map (stageOf k) children)
       ++ js c ++ rest)
    = js b ++ concat (map (stageOf k) children) ++ js a
      ++ replaceFrom re replacer st 0 rest.

Let passed (n : Markup) : Prop :=
  forall rest st,
    replaceFrom re replacer st 0 (stageOf k n ++ rest)
    = stageOf (S k) n ++ replaceFrom re replacer st 0 rest.

Lemma pass_children (children : list Markup) :
  Forall (fun n => wellNested n -> passed n) children ->
  Forall wellNested children ->
  forall rest st,
    replaceFrom re replacer st 0 (concat (map (stageOf k) children) ++ rest)
    = concat (map (stageOf (S k)) children)
      ++ replaceFrom re replacer st 0 rest.
Proof.
  induction 1 as [|c l Hc _ IH]; intros Hw rest st; [reflexivity|].
  inversion Hw as [|? ? Hwc Hwl]; subst.
  cbn [map concat]. rewrite <- !app_assoc. rewrite (Hc Hwc).
  now rewrite (IH Hwl).
Qed.

Lemma pass_node (n : Markup) : wellNested n -> passed n.
Proof.
  induction n as [t|name attrs|[[[o c] b] a] attrs ch IH]
    using Markup_induction; intros Hw rest st.
  - cbn [stageOf]. apply replaceFrom_inert; [exact Hfirst|].
    now apply inlineText_noLT.
  - destruct Hw as [Hin Ha]. now apply Hstray.
  - destruct (wellNested_children _ _ _ Hw) as [Hin [Hattrs Hch]].
    destruct (row_shape o c b a Hin)
      as [[o' [Eo Ho]] [[c' [Ec Hc]] [Hb [Ha [_ [_ Hlt]]]]]].
    assert (Hkids : Forall wellNested ch).
    { apply (Forall_impl _ (P := fun x => wellNested x /\ mayHold (o, c, b, a) x));
        [now intros ? [? _]|exact Hch]. }
    rewrite !stageOf_element.
    destruct (Nat.lt_trichotomy (passIndex o) k) as [Hlt'|[Heq|Hgt]].
    + replace (passIndex o <? k) with true
        by (symmetry; apply Nat.ltb_lt; lia).
      replace (passIndex o <? S k) with true
        by (symmetry; apply Nat.ltb_lt; lia).
      rewrite <- !app_assoc.
      rewrite replaceFrom_inert by assumption.
      rewrite (pass_children ch IH Hkids).
      now rewrite replaceFrom_inert by assumption.
    + replace (passIndex o <? k) with false
        by (symmetry; apply Nat.ltb_ge; lia).
      replace (passIndex o <? S k) with true
        by (symmetry; apply Nat.ltb_lt; lia).
      apply (above_children k) in Hch; [|cbn [fst]; lia].
      rewrite <- !app_assoc.
      rewrite (Hown o c b a attrs ch rest st Hin Heq Hattrs Hch).
      do 2 f_equal. f_equal. apply map_ext_in. intros n Hn.
      rewrite Forall_forall in Hch. destruct (Hch n Hn) as [Hwn Han].
      apply stage_above; [unfold TAG_PASS; lia|exact Hwn|exact Han].
    + replace (passIndex o <? k) with false
        by (symmetry; apply Nat.ltb_ge; lia).
      replace (passIndex o <? S k) with false
        by (symmetry; apply Nat.ltb_ge; lia).
      destruct (Hraw o c b a Hin Hgt) as [Hbo Hbc].
      rewrite <- !app_assoc. rewrite Eo, Ec in *.
      rewrite (skip_tag St re replacer Hfirst st o' _ Hbo (lineText_noLT _ Ho)).
      rewrite replaceFrom_inert
        by (first [exact Hfirst
                  | apply attributeText_noLT;
                    now apply attributeLine_attributeText]).
      rewrite replaceFrom_inert by (first [exact Hfirst | reflexivity]).
      rewrite (pass_children ch IH Hkids).
      rewrite (skip_tag St re replacer Hfirst st c' _ Hbc (lineText_noLT _ Hc)).
      reflexivity.
Qed.

Lemma pass_nodes (nodes : list Markup) (st : St) :
  Forall wellNested nodes ->
  replaceFrom re replacer st 0 (concat (map (stageOf k) nodes))
  = concat (map (stageOf (S k)) nodes).
Proof.
  intros Hall.
  rewrite <- (app_nil_r (concat (map (stageOf k) nodes))).
  rewrite (pass_children nodes); [|now apply Forall_forall; intros n _; apply pass_node|exact Hall].
  rewrite replaceFrom_none_nil by exact Hend. apply app_nil_r.
Qed.

End Pass.

(** ** The passes, one by one *)

Ltac blind_here := intros ?; vm_compute; reflexivity.

(** The expression is blind to every stray tag. *)
Ltac stray_blindness :=
  let name := fresh "name" in
  let Hin := fresh "Hin" in
  intros name Hin; unfold strayNames in Hin; cbn [In] in Hin;
  repeat (destruct Hin as [<-|Hin]; [blind_here|]); destruct Hin.

Lemma stray_unseen (St : Type) (re : RegExp)
    (replacer : St -> MatchResult -> jsstring * St) (k : nat) :
  k < TAG_PASS ->
  firstIs 60%N (source re) = true ->
  (forall name, In name strayNames -> blindTo re (js "<" ++ js name)) ->
  forall name attrs rest st,
    In name strayNames -> attributeLine attrs = true ->
    replaceFrom re replacer st 0 (stageOf k (NStray name attrs) ++ rest)
    = stageOf (S k) (NStray name attrs) ++ replaceFrom re replacer st 0 rest.
Proof.
  intros Hk Hfirst Hblind name attrs rest st Hin Ha. cbn [stageOf].
  replace (TAG_PASS <? k) with false by (symmetry; apply Nat.ltb_ge; lia).
  replace (TAG_PASS <? S k) with false by (symmetry; apply Nat.ltb_ge; lia).
  change (js "<") with [60%N]. cbn [app]. rewrite <- !app_assoc.
  rewrite replaceFrom_none_cons by apply (Hblind name Hin).
  rewrite replaceFrom_inert
    by (first [exact Hfirst | apply lineText_noLT; now apply stray_shape]).
  rewrite replaceFrom_inert
    by (first [exact Hfirst
              | apply attributeText_noLT;
                now apply attributeLine_attributeText]).
  now rewrite replaceFrom_inert by (first [exact Hfirst | reflexivity]).
Qed.

(** The expression is blind to the tags of the later passes. *)
Ltac rows_blindness :=
  let o := fresh "o" in let c := fresh "c" in
  let b := fresh "b" in let a := fresh "a" in
  let Hin := fresh "Hin" in let Hlt := fresh "Hlt" in
  intros o c b a Hin Hlt; unfold simpleElements in Hin; cbn [In] in Hin;
  repeat (destruct Hin as [Hin|Hin];
          [ injection Hin as <- <- <- <-;
            first [ exfalso; vm_compute in Hlt; lia
                  | split; blind_here ]
          | ]);
  destruct Hin.

(** The continuation of the lazy star fails at the start of every tag that
    is still markup. *)
Ltac tags_fail k0 :=
  let ts := fresh "ts" in let Hin := fresh "Hin" in let s := fresh "s" in
  intros ts Hin s;
  let l := eval vm_compute in (laterStarts k0) in
  change (laterStarts k0) with l in Hin;
  cbn [In] in Hin;
  repeat (destruct Hin as [<-|Hin]; [cbn [app]; run; reflexivity|]);
  destruct Hin.

Ltac children_through k0 Hch :=
  rewrite (lazy_children _ _ _ k0);
  [ 
  | let c := fresh "c" in let H := fresh "H" in
    intros c H; cbn [charMatches dotAll orb]; rewrite H; reflexivity
  | let c := fresh "c" in let s := fresh "s" in let H := fresh "H" in
    intros c s H; cbn -[charMatches consumed];
    rewrite (charMatches_lt _ c H); reflexivity
  | tags_fail k0
  | exact Hch ].

(** The element of this pass is matched and rendered. *)
Ltac own_match k0 :=
  let o := fresh "o" in let c := fresh "c" in
  let b := fresh "b" in let a := fresh "a" in
  let attrs := fresh "attrs" in let ch := fresh "ch" in
  let rest := fresh "rest" in let st := fresh "st" in
  let Hin := fresh "Hin" in let Hk := fresh "Hk" in
  let Ha := fresh "Ha" in let Hch := fresh "Hch" in
  intros o c b a attrs ch rest st Hin Hk Ha Hch; destruct st;
  apply attributeLine_attributeText in Ha;
  unfold simpleElements in Hin; cbn [In] in Hin;
  repeat (destruct Hin as [Hin|Hin];
          [ injection Hin as <- <- <- <-;
            first
              [ exfalso; vm_compute in Hk; discriminate
              | match goal with
                | |- replaceFrom ?re ?f tt 0 ?x = _ =>
                    let Hm := fresh "Hm" in
                    eassert (Hm : matchAt re x = Some _);
                    [ normal_form; unfold matchAt; run; greedy_through Ha;
                      [ | run; children_through k0 Hch; run; reflexivity ];
                      run; reflexivity
                    | erewrite (replaceFrom_match unit re f tt tt x _ rest _ _
                                  Hm eq_refl);
                      [ clear Hm Hch;
                        generalize (concat (map (stageOf k0) ch));
                        let body := fresh "body" in intros body;
                        match goal with
                        | |- GetSubstitution ?m ?mr ?tp ++ _ = _ =>
                            let v := eval cbv -[consumed app]
                                     in (GetSubstitution m mr tp) in
                            change (GetSubstitution m mr tp) with v
                        end;
                        rewrite ?consumed_app; normal_form;
                        rewrite <- ?app_assoc; cbn [app]; reflexivity
                      | rewrite !app_assoc; reflexivity
                      | cbn [matched]; apply consumed_suffix;
                        normal_form; reflexivity
                      | literals; discriminate ] ]
                end ]
          | ]);
  destruct Hin.


(** One of the ten passes for the simple elements. *)
Ltac simple_pass k0 Hall :=
  unfold replaceTemplate;
  apply (pass_nodes unit _ _ k0);
  [ reflexivity | reflexivity
  | apply stray_unseen; [unfold TAG_PASS; lia|reflexivity|stray_blindness]
  | rows_blindness
  | own_match k0
  | exact Hall ].

Lemma simple_pass_stage (k : nat) (re : RegExp) (template : string)
    (openings : list string) (nodes : list Markup) :
  nth_error simplePasses k = Some (re, template, openings) ->
  Forall wellNested nodes ->
  replaceTemplate re (js template) (concat (map (stageOf k) nodes))
  = concat (map (stageOf (S k)) nodes).
Proof.
  intros Hk Hall.
  do 10 (destruct k as [|k];
         [ cbn in Hk; injection Hk as <- <- <-;
           match goal with
           | |- context [stageOf (S ?n)] =>
               let m := eval cbv in n in simple_pass m Hall
           end
         | ]).
  destruct k; discriminate.
Qed.

(** A pass between the simple elements and the tag strip changes nothing, as
    long as its expression sees none of the stray tags. *)
Lemma late_pass_stage (St : Type) (re : RegExp)
    (replacer : St -> MatchResult -> jsstring * St) (k : nat) (st : St)
    (nodes : list Markup) :
  10 <= k < TAG_PASS ->
  firstIs 60%N (source re) = true ->
  matchAt re [] = None ->
  (forall name, In name strayNames -> blindTo re (js "<" ++ js name)) ->
  Forall wellNested nodes ->
  replaceFrom re replacer st 0 (concat (map (stageOf k) nodes))
  = concat (map (stageOf (S k)) nodes).
Proof.
  intros [Hk1 Hk2] Hfirst Hend Hblind Hall.
  apply (pass_nodes St re replacer k); [exact Hfirst|exact Hend| | | |exact Hall].
  - now apply stray_unseen.
  - intros o c b a Hin Hlt. apply row_shape in Hin. lia.
  - intros o c b a attrs ch rest st0 Hin Hp. apply row_shape in Hin. lia.
Qed.

Lemma markup_passes_stage (nodes : list Markup) :
  Forall wellNested nodes ->
  (concat (map (stageOf 10) nodes)
     |> replaceTemplate RE_PRE (js "```\n$1\n```\n\n")
     |> replaceTemplate RE_A (js "[$2]($1)")
     |> replaceTemplate RE_IMG_SRC_ALT (js "![$2]($1)")
     |> replaceTemplate RE_IMG_ALT_SRC (js "![$1]($2)")
     |> replaceTemplate RE_IMG_SRC (js "![]($1)")
     |> replaceFunction RE_UL ulReplacer
     |> replaceFunction RE_OL olReplacer
     |> replaceTemplate RE_BR (js "\n"))
  = concat (map (stageOf 18) nodes).
Proof.
  intros Hall. unfold replaceTemplate, replaceFunction.
  rewrite (late_pass_stage unit RE_PRE _ 10);
    [ | unfold TAG_PASS; lia | reflexivity | reflexivity | stray_blindness | exact Hall ].
  rewrite (late_pass_stage unit RE_A _ 11);
    [ | unfold TAG_PASS; lia | reflexivity | reflexivity | stray_blindness | exact Hall ].
  rewrite (late_pass_stage unit RE_IMG_SRC_ALT _ 12);
    [ | unfold TAG_PASS; lia | reflexivity | reflexivity | stray_blindness | exact Hall ].
  rewrite (late_pass_stage unit RE_IMG_ALT_SRC _ 13);
    [ | unfold TAG_PASS; lia | reflexivity | reflexivity | stray_blindness | exact Hall ].
  rewrite (late_pass_stage unit RE_IMG_SRC _ 14);
    [ | unfold TAG_PASS; lia | reflexivity | reflexivity | stray_blindness | exact Hall ].
  rewrite (late_pass_stage unit RE_UL _ 15);
    [ | unfold TAG_PASS; lia | reflexivity | reflexivity | stray_blindness | exact Hall ].
  rewrite (late_pass_stage unit RE_OL _ 16);
    [ | unfold TAG_PASS; lia | reflexivity | reflexivity | stray_blindness | exact Hall ].
  rewrite (late_pass_stage unit RE_BR _ 17);
    [ | unfold TAG_PASS; lia | reflexivity | reflexivity | stray_blindness | exact Hall ].
  reflexivity.
Qed.

Lemma stageOf_html (n : Markup) : stageOf 0 n = nodeHtml n.
Proof.
  induction n as [t|name attrs|[[[o c] b] a] attrs ch IH] using Markup_induction;
    [reflexivity|reflexivity|].
  cbn [stageOf nodeHtml]. change (passIndex o <? 0) with false. cbv iota.
  do 4 f_equal. f_equal. 
  induction IH as [|x l Hx _ IHl]; [reflexivity|].
  cbn [map]. now rewrite Hx, IHl.
Qed.

Lemma stageOf_markdown (n : Markup) :
  wellNested n -> stageOf 19 n = nodeMarkdown n.
Proof.
  induction n as [t|name attrs|[[[o c] b] a] attrs ch IH] using Markup_induction;
    [reflexivity|reflexivity|].
  intros Hw. apply wellNested_children in Hw as [Hin [_ Hch]].
  cbn [stageOf nodeMarkdown].
  replace (passIndex o <? 19) with true
    by (symmetry; apply Nat.ltb_lt; apply row_shape in Hin; lia).
  do 2 f_equal. f_equal.
  induction IH as [|x l Hx _ IHl]; [reflexivity|].
  apply Forall_cons_iff in Hch as [[Hwx _] Hl].
  cbn [map]. now rewrite (Hx Hwx), (IHl Hl).
Qed.

(** The markdown of well nested content holds no [<] and no [&]. *)
Lemma nodeMarkdown_plain (n : Markup) :
  wellNested n ->
  noLT (nodeMarkdown n) = true /\
  forallb (fun c => negb (c =? 38)%N) (nodeMarkdown n) = true.
Proof.
  induction n as [t|name attrs|[[[o c] b] a] attrs ch IH] using Markup_induction.
  - intros Ht. split; [now apply inlineText_noLT|now apply inlineText_noAmp].
  - intros _. split; reflexivity.
  - intros Hw. apply wellNested_children in Hw as [Hin [_ Hch]].
    assert (Hbody : noLT (concat (map nodeMarkdown ch)) = true /\
                    forallb (fun c => negb (c =? 38)%N)
                      (concat (map nodeMarkdown ch)) = true).
    { unfold noLT. rewrite !forallb_concat.
      induction IH as [|x l Hx _ IHl]; [now split|].
      apply Forall_cons_iff in Hch as [[Hwx _] Hl].
      destruct (Hx Hwx) as [H1 H2]. destruct (IHl Hl) as [H3 H4].
      cbn [map forallb]. split; apply andb_true_iff; split;
        first [exact H1 | exact H2 | exact H3 | exact H4]. }
    destruct Hbody as [Hb1 Hb2].
    destruct (row_shape o c b a Hin) as [_ [_ [H1 [H2 [H3 [H4 _]]]]]].
    cbn [nodeMarkdown]. unfold noLT in *.
    split; apply forallb_app3; assumption.
Qed.

(** The tag strip takes a whole tag. *)
Lemma tag_match (a rest : jsstring) :
  a <> [] -> attributeText a = true ->
  matchAt RE_TAG (60%N :: a ++ 62%N :: rest)
  = Some {| matched := 60%N :: a ++ [62%N]; captures := [] |}.
Proof.
  intros Hne Ha. destruct a as [|c a]; [congruence|].
  pose proof Ha as Hc. unfold attributeText in Hc. cbn [forallb] in Hc.
  apply andb_true_iff in Hc as [Hc Ha'].
  apply andb_true_iff in Hc as [_ Hc]. apply negb_true_iff in Hc.
  unfold matchAt. cbn [app]. run.
  rewrite (charMatches_not_gt _ c Hc). run.
  erewrite repeatGreedy_through;
    [ | exact (attributeText_greedy _ _ Ha') | run; reflexivity ].
  run.
  rewrite (consumed_suffix _ (60%N :: c :: a ++ [62%N]) rest); [reflexivity|].
  cbn [app]. now rewrite <- app_assoc.
Qed.

Lemma stray_name (name : string) :
  In name strayNames -> js name <> [] /\ attributeText (js name) = true.
Proof.
  intros Hin. unfold strayNames in Hin. cbn [In] in Hin.
  repeat (destruct Hin as [<-|Hin]; [split; by_computation|]). destruct Hin.
Qed.

Lemma tag_pass_stage (nodes : list Markup) :
  Forall wellNested nodes ->
  replaceTemplate RE_TAG [] (concat (map (stageOf 18) nodes))
  = concat (map (stageOf 19) nodes).
Proof.
  intros Hall. unfold replaceTemplate.
  apply (pass_nodes unit RE_TAG _ 18);
    [reflexivity|reflexivity| | | |exact Hall].
  - intros name attrs rest [] Hin Ha. cbn [stageOf].
    change (TAG_PASS <? 18) with false.
    change (TAG_PASS <? 19) with true. cbv iota.
    destruct (stray_name name Hin) as [Hne Hn].
    apply attributeLine_attributeText in Ha.
    assert (Hna : attributeText (js name ++ attrs) = true).
    { unfold attributeText in *. rewrite forallb_app.
      apply andb_true_iff. split; [exact Hn|exact Ha]. }
    assert (Hne' : js name ++ attrs <> []).
    { destruct (js name); [congruence|discriminate]. }
    pose proof (tag_match (js name ++ attrs) rest Hne' Hna) as Hm.
    apply (replaceFrom_match unit RE_TAG _ tt tt _
             (60%N :: (js name ++ attrs) ++ [62%N]) rest []
             {| matched := 60%N :: (js name ++ attrs) ++ [62%N];
                captures := [] |}).
    + rewrite <- Hm. f_equal.
      change (js "<") with [60%N]. change (js ">") with [62%N].
      cbn [app]. now rewrite <- !app_assoc.
    + reflexivity.
    + change (js "<") with [60%N]. change (js ">") with [62%N].
      cbn [app]. now rewrite <- !app_assoc.
    + reflexivity.
    + discriminate.
  - intros o c b a Hin Hlt. apply row_shape in Hin. lia.
  - intros o c b a attrs ch rest st0 Hin Hp. apply row_shape in Hin. lia.
Qed.

(** X22.  Nested content renders from the outside in.  The content is a
    sequence of text nodes, of tags that only the tag strip knows (div, span,
    table and the like, with any attributes on one line), and of simple
    elements (h1 to h6, p, strong, b, em, i, code) around further content of
    the same kind, where an element inside another belongs to a later pass
    than the one around it.  Each element then becomes its markdown around
    the markdown of its children, the other tags vanish, and the text stays;
    only the collapse of blank lines and the final trim follow. *)
Theorem nested_content_renders (nodes : list Markup) :
  Forall wellNested nodes ->
  convertHtmlToMarkdown (concat (map nodeHtml nodes))
  = trim (replaceTemplate RE_BLANK_LINES (js "\n\n")
            (concat (map nodeMarkdown nodes))).
Proof.
  intros Hall. unfold convertHtmlToMarkdown.
  rewrite <- (map_ext _ _ stageOf_html).
  rewrite (simple_pass_stage 0 _ _ _ nodes eq_refl Hall).
  rewrite (simple_pass_stage 1 _ _ _ nodes eq_refl Hall).
  rewrite (simple_pass_stage 2 _ _ _ nodes eq_refl Hall).
  rewrite (simple_pass_stage 3 _ _ _ nodes eq_refl Hall).
  rewrite (simple_pass_stage 4 _ _ _ nodes eq_refl Hall).
  rewrite (simple_pass_stage 5 _ _ _ nodes eq_refl Hall).
  rewrite (simple_pass_stage 6 _ _ _ nodes eq_refl Hall).
  rewrite (simple_pass_stage 7 _ _ _ nodes eq_refl Hall).
  rewrite (simple_pass_stage 8 _ _ _ nodes eq_refl Hall).
  rewrite (simple_pass_stage 9 _ _ _ nodes eq_refl Hall).
  rewrite (markup_passes_stage nodes Hall).
  rewrite (tag_pass_stage nodes Hall).
  replace (map (stageOf 19) nodes) with (map nodeMarkdown nodes).
  2:{ apply map_ext_in. intros n Hin. symmetry. apply stageOf_markdown.
      rewrite Forall_forall in Hall. now apply Hall. }
  assert (Hplain : noLT (concat (map nodeMarkdown nodes)) = true /\
                   forallb (fun c => negb (c =? 38)%N)
                     (concat (map nodeMarkdown nodes)) = true).
  { unfold noLT. rewrite !forallb_concat.
    induction Hall as [|n l Hn _ [IH1 IH2]]; [now split|].
    destruct (nodeMarkdown_plain n Hn) as [H1 H2].
    cbn [map forallb]. split; apply andb_true_iff; split;
      first [exact H1 | exact H2 | exact IH1 | exact IH2]. }
  destruct Hplain as [Hlt Hamp].
  set (s1 := concat (map nodeMarkdown nodes)) in *.
  rewrite (replace_without_literal "&amp;" _ s1 (noAmp_includes s1 (js "amp;") Hamp)).
  rewrite (replace_without_literal "&lt;" _ s1 (noAmp_includes s1 (js "lt;") Hamp)).
  rewrite (replace_without_literal "&gt;" _ s1 (noAmp_includes s1 (js "gt;") Hamp)).
  rewrite (replace_without_literal "&quot;" _ s1 (noAmp_includes s1 (js "quot;") Hamp)).
  rewrite (replace_without_literal "&#39;" _ s1 (noAmp_includes s1 (js "#39;") Hamp)).
  reflexivity.
Qed.

Lemma nested_content_renders_witness :
  concat (map nodeHtml sampleNodes)
  = js "<div class='a'><p>Hello <strong>big <em>world</em></strong><span>!</span></p></div>"
  /\ convertHtmlToMarkdown (concat (map nodeHtml sampleNodes))
     = js "Hello **big *world***!".
Proof.
  split; [vm_compute; reflexivity|].
  rewrite (nested_content_renders sampleNodes).
  - vm_compute. reflexivity.
  - unfold sampleNodes.
    repeat match goal with
           | |- Forall _ _ => constructor
           | |- wellNested _ => cbn [wellNested]
           | |- _ /\ _ => split
           | |- True => exact I
           | |- In _ _ => in_calls
           | |- _ = true => vm_compute; reflexivity
           | |- mayHold _ _ => vm_compute; lia
           end.
Defined.

(** ** Preformatted text, links and images *)

(** ** Elements that fail to match *)

(** The greedy star gives back all of a text inside which the continuation
    fails. *)
Lemma repeatGreedy_skip (p : char16 -> bool) (k : Continuation)
    (cs : list (nat * jsstring)) (a u : jsstring) :
  (forall c s, In c a ->
     p c = true /\ k {| rest := c :: s; caps := cs |} = None) ->
  repeatGreedy p k cs (a ++ u) = repeatGreedy p k cs u.
Proof.
  induction a as [|c a IH]; [reflexivity|]. intros H.
  cbn [app repeatGreedy].
  destruct (H c (a ++ u) (or_introl eq_refl)) as [-> ->].
  rewrite IH by (intros d s Hd; apply H; now right).
  now destruct (repeatGreedy p k cs u).
Qed.

Lemma charMatches_gt (fl : Flags) (c : char16) :
  (c =? 62)%N = false -> charMatches fl (Lit 62%N) c = false.
Proof.
  intros Hc. cbn [charMatches]. apply N.eqb_neq. intros E.
  apply (Canonicalize_not_letter fl c 62%N eq_refl) in E.
  subst c. discriminate.
Qed.

Lemma attributeText_In (a : jsstring) (c : char16) :
  attributeText a = true -> In c a ->
  (c =? 60)%N = false /\ (c =? 62)%N = false.
Proof.
  unfold attributeText. rewrite forallb_forall. intros H Hc.
  specialize (H c Hc). rewrite !andb_true_iff, !negb_true_iff in H. tauto.
Qed.

(** The star over the attributes, when [>] must follow. *)
Ltac attributes_back Ha :=
  rewrite repeatGreedy_skip;
  [ | let c := fresh "c" in let s := fresh "s" in let H := fresh "H" in
      let E := fresh "E" in
      intros c s H; destruct (attributeText_In _ c Ha H) as [_ E];
      split;
      [ now apply charMatches_not_gt
      | cbn -[charMatches consumed]; rewrite (charMatches_gt _ c E);
        reflexivity ] ].

Lemma pre_lines_P (attrs t rest : jsstring) :
  attributeText attrs = true -> inlineText t = true ->
  matchAt RE_P (js "<pre" ++ attrs ++ js ">" ++ t ++ LF :: rest) = None.
Proof.
  intros Ha Ht. normal_form. unfold matchAt. run.
  attributes_back Ha. run. lazy_through Ht. run. reflexivity.
Qed.

Lemma pre_lines_PRE (attrs t rest : jsstring) :
  attributeText attrs = true -> inlineText t = true ->
  matchAt RE_PRE (js "<pre" ++ attrs ++ js ">" ++ t ++ LF :: rest) = None.
Proof.
  intros Ha Ht. normal_form. unfold matchAt. run.
  attributes_back Ha. run. lazy_through Ht. run. reflexivity.
Qed.

(** A pass that matches nowhere, given what fails where evaluation alone
    cannot tell. *)
Ltac scan_with H :=
  repeat first
    [ rewrite replaceFrom_none_cons
        by (first [vm_compute; reflexivity | exact H])
    | rewrite replaceFrom_inert by (first [assumption | vm_compute; reflexivity])
    | rewrite replaceFrom_none_nil by (vm_compute; reflexivity) ].

Ltac pass_none_with H :=
  match goal with
  | |- context [replaceTemplate ?re ?tpl ?x] =>
      lazymatch x with
      | _ :: _ =>
          replace (replaceTemplate re tpl x) with x
            by (unfold replaceTemplate; scan_with H; reflexivity)
      end
  | |- context [replaceFunction ?re ?f ?x] =>
      lazymatch x with
      | _ :: _ =>
          replace (replaceFunction re f x) with x
            by (unfold replaceFunction; scan_with H; reflexivity)
      end
  end.

(** The tag strip removes a tag and keeps text without [<]. *)
Lemma tag_strip (a rest : jsstring) :
  a <> [] -> attributeText a = true ->
  replaceTemplate RE_TAG [] (60%N :: a ++ 62%N :: rest)
  = replaceTemplate RE_TAG [] rest.
Proof.
  intros Hne Ha. unfold replaceTemplate.
  rewrite (replaceFrom_match unit RE_TAG _ tt tt (60%N :: a ++ 62%N :: rest)
             (60%N :: a ++ [62%N]) rest [] _ (tag_match a rest Hne Ha));
    [reflexivity|reflexivity| |reflexivity|discriminate].
  cbn [app]. now rewrite <- app_assoc.
Qed.

Lemma tag_keep (t rest : jsstring) :
  noLT t = true ->
  replaceTemplate RE_TAG [] (t ++ rest) = t ++ replaceTemplate RE_TAG [] rest.
Proof. intros Ht. unfold replaceTemplate. now apply replaceFrom_inert. Qed.

Ltac chain L := etransitivity; [exact L|].

(** X23.  A [pre] element whose content spans lines is not fenced.  The dot
    of the expression for [pre] does not cross a line feed, and the pass for
    paragraphs, which takes [<pre] for the opening of a paragraph, fails for
    the same reason.  So for a [pre] element, with any attributes, around a
    first line of inline text, a line feed and any further text without [<]
    and [&], no pass but the tag strip applies: the content comes out bare,
    with its blank lines collapsed and its ends trimmed. *)
Theorem pre_lines_not_fenced (attrs t body : jsstring) :
  attributeText attrs = true -> inlineText t = true ->
  noLT body = true -> forallb (fun c => negb (c =? 38)%N) body = true ->
  convertHtmlToMarkdown
    (js "<pre" ++ attrs ++ js ">" ++ t ++ LF :: body ++ js "</pre>")
  = trim (replaceTemplate RE_BLANK_LINES (js "\n\n") (t ++ LF :: body)).
Proof.
  intros Ha Ht Hb Hbamp.
  pose proof (attributeText_noLT attrs Ha) as Hna.
  pose proof (inlineText_noLT t Ht) as Hnt.
  pose proof (inlineText_noAmp t Ht) as Hat.
  pose proof (pre_lines_P attrs t (body ++ js "</pre>") Ha Ht) as HP.
  pose proof (pre_lines_PRE attrs t (body ++ js "</pre>") Ha Ht) as HPRE.
  unfold convertHtmlToMarkdown. normal_form.
  do 10 pass_none_with HP. pass_none_with HPRE. do 7 pass_none_with HP.
  assert (Hplain : noLT (t ++ LF :: body) = true /\
                   forallb (fun c => negb (c =? 38)%N) (t ++ LF :: body) = true).
  { unfold noLT in *. rewrite !forallb_app. cbn [forallb].
    split; apply andb_true_iff; split;
      first [exact Hnt | exact Hat | exact Hb | exact Hbamp]. }
  destruct Hplain as [Hlt Hamp].
  match goal with
  | |- context [replaceTemplate RE_TAG ?tpl ?x] =>
      replace (replaceTemplate RE_TAG tpl x) with (t ++ LF :: body)
  end.
  2:{ symmetry.
      chain (tag_strip (js "pre" ++ attrs) (t ++ LF :: body ++ js "</pre>")
               ltac:(discriminate)
               ltac:(unfold attributeText in *; rewrite forallb_app;
                     apply andb_true_iff; split; [reflexivity|exact Ha])).
      change (t ++ LF :: body ++ js "</pre>")
        with (t ++ (LF :: body) ++ js "</pre>").
      rewrite app_assoc.
      chain (tag_keep (t ++ LF :: body) (js "</pre>") Hlt).
      rewrite <- (app_nil_r (t ++ LF :: body)) at 2.
      apply (f_equal (app (t ++ LF :: body))). vm_compute. reflexivity. }
  set (s1 := t ++ LF :: body) in *.
  rewrite (replace_without_literal "&amp;" _ s1 (noAmp_includes s1 (js "amp;") Hamp)).
  rewrite (replace_without_literal "&lt;" _ s1 (noAmp_includes s1 (js "lt;") Hamp)).
  rewrite (replace_without_literal "&gt;" _ s1 (noAmp_includes s1 (js "gt;") Hamp)).
  rewrite (replace_without_literal "&quot;" _ s1 (noAmp_includes s1 (js "quot;") Hamp)).
  rewrite (replace_without_literal "&#39;" _ s1 (noAmp_includes s1 (js "#39;") Hamp)).
  reflexivity.
Qed.

Lemma pre_lines_not_fenced_witness :
  convertHtmlToMarkdown (js "<pre class='x'>let a = 1;\n  let b = 2;\n</pre>")
  = js "let a = 1;\n  let b = 2;".
Proof.
  refine (eq_trans
            (pre_lines_not_fenced (js " class='x'") (js "let a = 1;")
               (js "  let b = 2;\n") _ _ _ _) _);
    vm_compute; reflexivity.
Defined.

Lemma pre_line_P (attrs t : jsstring) :
  attributeText attrs = true -> inlineText t = true ->
  matchAt RE_P (js "<pre" ++ attrs ++ js ">" ++ t ++ js "</pre>") = None.
Proof.
  intros Ha Ht. normal_form. unfold matchAt. run.
  attributes_back Ha. run. lazy_through Ht. run. reflexivity.
Qed.

(** Two line feeds are not found through a line that ends before a code unit
    that is no white space. *)
Lemma needLF_line (t s : jsstring) (c : char16) :
  forallb (fun x => negb (x =? LF)%N) t = true -> isWhiteSpace c = false ->
  needLF (t ++ LF :: c :: s) 2 = false.
Proof.
  intros Ht Hc. induction t as [|d t IH].
  - cbn [app needLF]. rewrite N.eqb_refl. now apply needLF_solid.
  - cbn [forallb] in Ht. apply andb_true_iff in Ht as [Hd Ht].
    apply negb_true_iff in Hd. cbn [app needLF]. rewrite Hd.
    rewrite (IH Ht). now destruct (isWhiteSpace d).
Qed.

Lemma fence_no_blank_lines (t : jsstring) :
  inlineText t = true ->
  hasBlankLines (js "```\n" ++ t ++ js "\n```\n\n") = false.
Proof.
  intros Ht. pose proof (inlineText_no_LF t Ht) as Hl.
  unfold hasBlankLines. literals. cbn [app anywhere].
  change (startsBlankLines (96%N :: ?s)) with false.
  cbn [orb]. rewrite (anywhere_without_LF t _ Hl).
  unfold startsBlankLines at 1. rewrite N.eqb_refl. cbn [andb].
  rewrite (needLF_line t _ 96%N Hl eq_refl). reflexivity.
Qed.

(** The passes after the links, when the text holds no [<], no [&] and no
    blank lines. *)
Ltac finish_with Hnt Hat Hb :=
  match goal with
  | |- trim ?e = _ =>
      let s1 := innermost e in
      let Htag := fresh "Htag" in
      let Hamp := fresh "Hamp" in
      let Hblank := fresh "Hblank" in
      assert (Htag : hasTag s1 = false)
        by (apply noLT_hasTag;
            first [exact Hnt | unfold noLT in *; all_chars Hnt]);
      assert (Hamp : forallb (fun c => negb (c =? 38)%N) s1 = true)
        by (first [exact Hat | all_chars Hat]);
      assert (Hblank : hasBlankLines s1 = false) by exact Hb;
      rewrite ?(replaceTemplate_without_tag RE_A _ s1 eq_refl Htag);
      rewrite ?(replaceTemplate_without_tag RE_IMG_SRC_ALT _ s1 eq_refl Htag);
      rewrite ?(replaceTemplate_without_tag RE_IMG_ALT_SRC _ s1 eq_refl Htag);
      rewrite ?(replaceTemplate_without_tag RE_IMG_SRC _ s1 eq_refl Htag);
      rewrite (replaceFunction_without_tag RE_UL _ s1 eq_refl Htag);
      rewrite (replaceFunction_without_tag RE_OL _ s1 eq_refl Htag);
      rewrite (replaceTemplate_without_tag RE_BR _ s1 eq_refl Htag);
      rewrite (replaceTemplate_without_tag RE_TAG _ s1 eq_refl Htag);
      rewrite (replace_without_literal "&amp;" _ s1
                 (noAmp_includes s1 (js "amp;") Hamp));
      rewrite (replace_without_literal "&lt;" _ s1
                 (noAmp_includes s1 (js "lt;") Hamp));
      rewrite (replace_without_literal "&gt;" _ s1
                 (noAmp_includes s1 (js "gt;") Hamp));
      rewrite (replace_without_literal "&quot;" _ s1
                 (noAmp_includes s1 (js "quot;") Hamp));
      rewrite (replace_without_literal "&#39;" _ s1
                 (noAmp_includes s1 (js "#39;") Hamp));
      rewrite (replace_without_blankLines _ s1 Hblank);
      reflexivity
  end.

(** X24.  A [pre] element of one line is fenced.  For a [pre] element, with
    any attributes, around one line of inline text, the result is the text
    between two lines of three back quotes, trimmed; the pass for paragraphs
    tries the element first, as [<pre] starts like [<p], and gives up for
    want of a closing tag. *)
Theorem pre_line_fenced (attrs t : jsstring) :
  attributeText attrs = true -> inlineText t = true ->
  convertHtmlToMarkdown (js "<pre" ++ attrs ++ js ">" ++ t ++ js "</pre>")
  = trim (js "```\n" ++ t ++ js "\n```\n\n").
Proof.
  intros Ha Ht.
  pose proof (attributeText_noLT attrs Ha) as Hna.
  pose proof (inlineText_noLT t Ht) as Hnt.
  pose proof (inlineText_noAmp t Ht) as Hat.
  pose proof (pre_line_P attrs t Ha Ht) as HP.
  pose proof (fence_no_blank_lines t Ht) as Hblank.
  unfold convertHtmlToMarkdown. normal_form.
  do 10 pass_none_with HP.
  pass_match Ha Ht.
  finish_with Hnt Hat Hblank.
Qed.

Lemma pre_line_fenced_witness :
  convertHtmlToMarkdown (js "<pre class='x'>let a = 1;</pre>")
  = js "```\nlet a = 1;\n```".
Proof.
  refine (eq_trans
            (pre_line_fenced (js " class='x'") (js "let a = 1;") _ _) _);
    vm_compute; reflexivity.
Defined.

(** ** Links *)

(** The greedy star fails when its continuation fails wherever the star
    could stop. *)
Lemma repeatGreedy_none (p : char16 -> bool) (k : Continuation)
    (cs : list (nat * jsstring)) (a u : jsstring) :
  (forall a1 a2, a = a1 ++ a2 -> k {| rest := a2 ++ u; caps := cs |} = None) ->
  repeatGreedy p k cs u = None ->
  repeatGreedy p k cs (a ++ u) = None.
Proof.
  induction a as [|c a IH]; intros H Hu; [exact Hu|].
  cbn [app repeatGreedy].
  rewrite IH; [|intros a1 a2 E; apply (H (c :: a1) a2); now rewrite E|exact Hu].
  pose proof (H [] (c :: a) eq_refl) as Hc. cbn [app] in Hc. rewrite Hc.
  now destruct (p c).
Qed.

Lemma startsLike_tail (fl : Flags) (pat s u : jsstring) :
  startsLike fl pat s = false ->
  (forall d, startsLike fl pat (s ++ d :: u) = true ->
             exists p, In p pat /\ charMatches fl (Lit p) d = true).
Proof.
  revert s. induction pat as [|p pat IH]; intros s Hs d H; [discriminate|].
  destruct s as [|c s].
  - cbn [app startsLike] in H. apply andb_true_iff in H as [H _].
    exists p. split; [now left|exact H].
  - cbn [app startsLike] in H, Hs. apply andb_true_iff in H as [Hc H].
    rewrite Hc in Hs. cbn [andb] in Hs.
    destruct (IH s Hs d H) as [q [Hq Hd]]. exists q. split; [now right|exact Hd].
Qed.

Lemma freeOf_suffix (pat : string) (a1 a2 : jsstring) :
  freeOf pat (a1 ++ a2) = true ->
  startsLike {| ignoreCase := true; dotAll := false |} (js pat) a2 = false.
Proof.
  unfold freeOf. rewrite negb_true_iff. induction a1 as [|c a1 IH].
  - cbn [app]. destruct a2; cbn [anywhere]; intros H;
      apply orb_false_iff in H; tauto.
  - cbn [app anywhere]. intros H. apply orb_false_iff in H as [_ H]. now apply IH.
Qed.

Lemma isQuote_cases (q : char16) : isQuote q = true -> q = 34%N \/ q = 39%N.
Proof.
  unfold isQuote. rewrite orb_true_iff, !N.eqb_eq. tauto.
Qed.

Lemma valueText_In (u : jsstring) (c : char16) :
  valueText u = true -> In c u ->
  (c =? 34)%N = false /\ (c =? 39)%N = false /\ (c =? 60)%N = false
  /\ (c =? 62)%N = false /\ (c =? 38)%N = false /\ isLineTerminator c = false.
Proof.
  unfold valueText. rewrite forallb_forall. intros H Hc.
  specialize (H c Hc). rewrite !andb_true_iff, !negb_true_iff in H. tauto.
Qed.

Lemma repeatGreedy_stop (p : char16 -> bool) (k : Continuation)
    (cs : list (nat * jsstring)) (c : char16) (s : jsstring) (y : MatchState) :
  repeatGreedy p k cs s = None ->
  k {| rest := c :: s; caps := cs |} = Some y ->
  repeatGreedy p k cs (c :: s) = Some y.
Proof.
  intros Hs Hk. cbn [repeatGreedy]. rewrite Hs, Hk. now destruct (p c).
Qed.

Lemma valueText_greedy (fl : Flags) (u : jsstring) :
  valueText u = true -> forallb (charMatches fl NOT_QUOTE) u = true.
Proof.
  intros Hu. apply forallb_forall. intros c Hc.
  destruct (valueText_In u c Hu Hc) as [H1 [H2 _]].
  unfold NOT_QUOTE. cbn [charMatches existsb xorb].
  rewrite orb_false_r. apply negb_true_iff, orb_false_iff.
  split; apply N.eqb_neq; intros E; symmetry in E;
    apply (Canonicalize_not_letter fl) in E; try reflexivity;
    subst c; discriminate.
Qed.

Lemma valueText_attributeText (u : jsstring) :
  valueText u = true -> attributeText u = true.
Proof.
  unfold valueText, attributeText. rewrite !forallb_forall. intros H c Hc.
  specialize (H c Hc). rewrite !andb_true_iff in *. tauto.
Qed.

Lemma startsLike_before_gt (pat : string) (s u : jsstring) :
  forallb (fun p => negb (charMatches {| ignoreCase := true; dotAll := false |}
                            (Lit p) 62%N)) (js pat) = true ->
  startsLike {| ignoreCase := true; dotAll := false |} (js pat) s = false ->
  startsLike {| ignoreCase := true; dotAll := false |} (js pat) (s ++ 62%N :: u)
  = false.
Proof.
  intros Hpat Hs.
  destruct (startsLike _ (js pat) (s ++ 62%N :: u)) eqn:E; [|reflexivity].
  destruct (startsLike_tail _ _ s u Hs 62%N E) as [p [Hp Hd]].
  rewrite forallb_forall in Hpat. specialize (Hpat p Hp).
  rewrite Hd in Hpat. discriminate.
Qed.

(** The continuation that starts with a literal of five code units fails
    where the text does not start like the literal. *)
Ltac literal_fails :=
  let w := fresh "w" in let Hw := fresh "Hw" in
  intros w Hw; cbn -[charMatches consumed];
  match type of Hw with
  | context [js ?s] =>
      let v := eval vm_compute in (js s) in change (js s) with v in Hw
  end;
  do 5 (destruct w as [|? w]; [reflexivity|];
        cbn [startsLike] in Hw;
        match goal with
        | |- (if ?b then _ else _) = _ =>
            destruct b; [cbn [andb] in Hw|reflexivity]
        end);
  discriminate Hw.

(** The star before a literal cannot stop inside a text that is free of
    the literal. *)
Lemma repeatGreedy_free (pat : string) (p : char16 -> bool) (k : Continuation)
    (cs : list (nat * jsstring)) (tail u : jsstring) :
  (forall w, startsLike {| ignoreCase := true; dotAll := false |} (js pat) w
             = false ->
             k {| rest := w; caps := cs |} = None) ->
  forallb (fun p => negb (charMatches {| ignoreCase := true; dotAll := false |}
                            (Lit p) 62%N)) (js pat) = true ->
  freeOf pat tail = true ->
  repeatGreedy p k cs (62%N :: u) = None ->
  repeatGreedy p k cs (tail ++ 62%N :: u) = None.
Proof.
  intros Hk Hpat Hfree Hu. apply repeatGreedy_none; [|exact Hu].
  intros a1 a2 E. apply Hk. apply startsLike_before_gt; [exact Hpat|].
  apply (freeOf_suffix pat a1 a2). now rewrite <- E.
Qed.

Lemma freeOf_cons (pat : string) (c : char16) (s : jsstring) :
  startsLike {| ignoreCase := true; dotAll := false |} (js pat) (c :: s) = false ->
  freeOf pat s = true -> freeOf pat (c :: s) = true.
Proof.
  unfold freeOf. rewrite !negb_true_iff. intros H1 H2.
  cbn [anywhere]. now rewrite H1, H2.
Qed.

Lemma link_match (pre url post text rest : jsstring) (q1 q2 : char16) :
  attributeText pre = true -> isQuote q1 = true -> valueText url = true ->
  isQuote q2 = true -> attributeText post = true ->
  freeOf "href=" (url ++ q2 :: post) = true -> inlineText text = true ->
  matchAt RE_A
    (60%N :: 97%N :: pre ++ 104%N
     :: (114%N :: 101%N :: 102%N :: 61%N :: q1 :: url ++ q2 :: post)
     ++ 62%N :: text ++ 60%N :: 47%N :: 97%N :: 62%N :: rest)
  = Some {| matched :=
              60%N :: 97%N :: pre ++ 104%N
              :: (114%N :: 101%N :: 102%N :: 61%N :: q1 :: url ++ q2 :: post)
              ++ 62%N :: text ++ [60%N; 47%N; 97%N; 62%N];
            captures := [(2, text); (1, url)] |}.
Proof.
  intros Hpre Hq1 Hurl Hq2 Hpost Hfree Htext.
  apply isQuote_cases in Hq1, Hq2.
  unfold matchAt. run.
  erewrite repeatGreedy_through;
    [ | exact (attributeText_greedy _ _ Hpre) | ].
  2:{ match goal with
      | |- repeatGreedy ?p ?K ?cs _ = _ =>
          assert (HK : forall w,
                    startsLike {| ignoreCase := true; dotAll := false |}
                      (js "href=") w = false ->
                    K {| rest := w; caps := cs |} = None)
            by literal_fails
      end.
      apply repeatGreedy_stop.
      - match goal with
        | |- repeatGreedy ?p ?K ?cs _ = _ =>
            apply (repeatGreedy_free "href=" p K cs
                     (114%N :: 101%N :: 102%N :: 61%N :: q1 :: url ++ q2 :: post)
                     (text ++ 60%N :: 47%N :: 97%N :: 62%N :: rest) HK eq_refl)
        end.
        + do 4 (apply freeOf_cons; [reflexivity|]).
          apply freeOf_cons; [|exact Hfree].
          destruct Hq1 as [->| ->]; reflexivity.
        + run. reflexivity.
      - clear HK. destruct Hq1 as [->| ->]; run;
          rewrite <- app_assoc; cbn [app];
          (erewrite repeatGreedy_through;
           [ | exact (valueText_greedy _ _ Hurl) | ]);
          [ | destruct Hq2 as [->| ->]; run;
              (greedy_through Hpost;
               [ | run; lazy_through Htext; run; reflexivity ]);
              run; reflexivity
            | | destruct Hq2 as [->| ->]; run;
              (greedy_through Hpost;
               [ | run; lazy_through Htext; run; reflexivity ]);
              run; reflexivity ];
          reflexivity. }
  run. rewrite !consumed_app. do 2 f_equal.
  apply consumed_suffix.
  repeat (progress (rewrite <- ?app_assoc; cbn [app])). reflexivity.
Qed.

Lemma valueText_plain (u : jsstring) :
  valueText u = true ->
  noLT u = true /\ forallb (fun c => negb (c =? 38)%N) u = true
  /\ lineFeeds u = 0.
Proof.
  intros Hu. split; [|split].
  - apply forallb_forall. intros c Hc.
    destruct (valueText_In u c Hu Hc) as [_ [_ [H _]]]. now rewrite H.
  - apply forallb_forall. intros c Hc.
    destruct (valueText_In u c Hu Hc) as [_ [_ [_ [_ [H _]]]]]. now rewrite H.
  - unfold lineFeeds. induction u as [|c u IH]; [reflexivity|].
    pose proof (valueText_In (c :: u) c Hu (or_introl eq_refl)) as H.
    destruct H as [_ [_ [_ [_ [_ H]]]]].
    unfold isLineTerminator in H. rewrite !orb_false_iff in H.
    destruct H as [[[H _] _] _]. cbn [filter]. unfold LF.
    rewrite N.eqb_sym, H. apply IH.
    unfold valueText in *. cbn [forallb] in Hu.
    apply andb_true_iff in Hu. tauto.
Qed.

Lemma forallb_link (f : char16 -> bool) (text url : jsstring) :
  f 91%N = true -> f 93%N = true -> f 40%N = true -> f 41%N = true ->
  forallb f text = true -> forallb f url = true ->
  forallb f (91%N :: text ++ 93%N :: 40%N :: url ++ [41%N]) = true.
Proof.
  intros H1 H2 H3 H4 Ht Hu. cbn [forallb]. rewrite forallb_app. cbn [forallb].
  rewrite forallb_app. cbn [forallb]. now rewrite H1, H2, H3, H4, Ht, Hu.
Qed.

(** X25.  A link renders as its text in brackets and its address in
    parentheses.  The [href] attribute may follow other attributes and be
    followed by more; its value stands between two quotes, each single or
    double, not necessarily the same, and holds no quote, [<], [>], [&] or
    line terminator; what follows the first quote holds no further [href=],
    in any letter case; the text of the link is inline text. *)
Theorem link_renders (pre url post text : jsstring) (q1 q2 : char16) :
  attributeText pre = true -> isQuote q1 = true -> valueText url = true ->
  isQuote q2 = true -> attributeText post = true ->
  freeOf "href=" (url ++ q2 :: post) = true -> inlineText text = true ->
  convertHtmlToMarkdown
    (js "<a" ++ pre ++ js "href=" ++ q1 :: url ++ q2 :: post ++ js ">"
     ++ text ++ js "</a>")
  = trim (js "[" ++ text ++ js "](" ++ url ++ js ")").
Proof.
  intros Hpre Hq1 Hurl Hq2 Hpost Hfree Htext.
  pose proof (link_match pre url post text [] q1 q2
                Hpre Hq1 Hurl Hq2 Hpost Hfree Htext) as Hm.
  pose proof (attributeText_noLT pre Hpre) as Hnpre.
  pose proof (inlineText_noLT text Htext) as Hnt.
  pose proof (inlineText_noAmp text Htext) as Hat.
  pose proof (inlineText_lineFeeds text Htext) as Hlf.
  destruct (valueText_plain url Hurl) as [Hnu [Hau Hlu]].
  assert (Hblob : noLT (114%N :: 101%N :: 102%N :: 61%N :: q1
                        :: url ++ q2 :: post) = true).
  { apply isQuote_cases in Hq1, Hq2.
    pose proof (attributeText_noLT post Hpost) as Hnpost.
    unfold noLT in *. rewrite forallb_forall in Hnu, Hnpost.
    apply forallb_forall. intros c Hc. cbn [In] in Hc.
    rewrite in_app_iff in Hc. cbn [In] in Hc.
    destruct Hc as [<-|[<-|[<-|[<-|[<-|[Hc|[<-|Hc]]]]]]];
      try reflexivity; try (now apply Hnu); try (now apply Hnpost).
    - destruct Hq1 as [->| ->]; reflexivity.
    - destruct Hq2 as [->| ->]; reflexivity. }
  match type of Hm with
  | matchAt _ ?x = _ =>
      replace (js "<a" ++ pre ++ js "href=" ++ q1 :: url ++ q2 :: post
               ++ js ">" ++ text ++ js "</a>") with x
        by (literals; cbn [app];
            repeat (progress (rewrite <- ?app_assoc; cbn [app]));
            reflexivity)
  end.
  unfold convertHtmlToMarkdown. literals.
  do 11 pass_none.
  match goal with
  | |- context [replaceTemplate RE_A ?tpl ?x] =>
      rewrite (replaceTemplate_whole RE_A tpl x _ eq_refl Hm eq_refl
                 ltac:(discriminate))
  end.
  match goal with
  | |- context [GetSubstitution ?m ?mr ?tp] =>
      let v := eval cbv -[app] in (GetSubstitution m mr tp) in
      change (GetSubstitution m mr tp) with v
  end.
  assert (Hb : hasBlankLines (91%N :: text ++ 93%N :: 40%N :: url ++ [41%N])
               = false).
  { apply lineFeeds_hasBlankLines.
    rewrite ?lineFeeds_cons, ?lineFeeds_app, ?lineFeeds_cons, ?lineFeeds_app,
      Hlf, Hlu. vm_compute. lia. }
  assert (Hnl : noLT (91%N :: text ++ 93%N :: 40%N :: url ++ [41%N]) = true)
    by (apply forallb_link; first [reflexivity | exact Hnt | exact Hnu]).
  assert (Hal : forallb (fun c => negb (c =? 38)%N)
                  (91%N :: text ++ 93%N :: 40%N :: url ++ [41%N]) = true)
    by (apply forallb_link; first [reflexivity | exact Hat | exact Hau]).
  finish_with Hnl Hal Hb.
Qed.

Lemma link_renders_witness :
  convertHtmlToMarkdown
    (js "<a class='x' href='https://example.com/a?b=1' target=_blank>the site</a>")
  = js "[the site](https://example.com/a?b=1)".
Proof.
  refine (eq_trans
            (link_renders (js " class='x' ") (js "https://example.com/a?b=1")
               (js " target=_blank") (js "the site") 39%N 39%N
               _ _ _ _ _ _ _) _);
    vm_compute; reflexivity.
Defined.

(** ** Images *)

(** The pass for emphasis takes [<img] for the opening of an [<i>] element,
    and fails for want of a closing tag. *)
Lemma image_not_EM (attrs : jsstring) :
  attributeText attrs = true ->
  matchAt RE_EM (js "<img" ++ attrs ++ js ">") = None.
Proof.
  intros Ha. normal_form. unfold matchAt. run.
  attributes_back Ha. run. reflexivity.
Qed.

Ltac literal4_fails :=
  let w := fresh "w" in let Hw := fresh "Hw" in
  intros w Hw; cbn -[charMatches consumed];
  match type of Hw with
  | context [js ?s] =>
      let v := eval vm_compute in (js s) in change (js s) with v in Hw
  end;
  do 4 (destruct w as [|? w]; [reflexivity|];
        cbn [startsLike] in Hw;
        match goal with
        | |- (if ?b then _ else _) = _ =>
            destruct b; [cbn [andb] in Hw|reflexivity]
        end);
  discriminate Hw.

(** The star before a literal stops at the last place where the literal
    starts. *)
Ltac stop_at_literal pat Hfree :=
  match goal with
  | |- repeatGreedy ?p ?K ?cs _ = _ =>
      let HK := fresh "HK" in
      assert (HK : forall w,
                startsLike {| ignoreCase := true; dotAll := false |}
                  (js pat) w = false ->
                K {| rest := w; caps := cs |} = None)
        by literal4_fails;
      apply repeatGreedy_stop;
      [ match goal with
        | |- repeatGreedy ?p ?K ?cs (?c1 :: ?c2 :: ?c3 :: ?q :: ?t ++ _) = _ =>
            apply (repeatGreedy_free pat p K cs
                     (c1 :: c2 :: c3 :: q :: t) [] HK eq_refl);
            [ do 4 (apply freeOf_cons; [reflexivity|]); exact Hfree
            | run; reflexivity ]
        end
      | clear HK ]
  end.

Ltac image_case Hpre Hurl Hmid Halt Hpost Hfs Hfa :=
  unfold matchAt; run;
  (erewrite repeatGreedy_through;
   [ | exact (attributeText_greedy _ _ Hpre) | ]);
  [ | stop_at_literal ("src="%string) Hfs;
      run; rewrite <- app_assoc; cbn [app];
      (erewrite repeatGreedy_through;
       [ | exact (valueText_greedy _ _ Hurl) | ]);
      [ | run; rewrite <- app_assoc; cbn [app];
          (erewrite repeatGreedy_through;
           [ | exact (attributeText_greedy _ _ Hmid) | ]);
          [ | stop_at_literal ("alt="%string) Hfa;
              run; rewrite <- app_assoc; cbn [app];
              (erewrite repeatGreedy_through;
               [ | exact (valueText_greedy _ _ Halt) | ]);
              [ | run; (greedy_through Hpost; [ | run; reflexivity ]);
                  run; reflexivity ];
              run; reflexivity ];
          run; reflexivity ];
      run; reflexivity ];
  run; rewrite !consumed_app, consumed_all; reflexivity.

Lemma image_match (pre url mid alt post : jsstring) (q1 q2 q3 q4 : char16) :
  attributeText pre = true -> isQuote q1 = true -> valueText url = true ->
  isQuote q2 = true -> attributeText mid = true ->
  isQuote q3 = true -> valueText alt = true -> isQuote q4 = true ->
  attributeText post = true ->
  freeOf "src="
    (url ++ q2 :: mid ++ 97%N :: 108%N :: 116%N :: 61%N :: q3
     :: alt ++ q4 :: post) = true ->
  freeOf "alt=" (alt ++ q4 :: post) = true ->
  matchAt RE_IMG_SRC_ALT
    (60%N :: 105%N :: 109%N :: 103%N :: pre ++ 115%N
     :: (114%N :: 99%N :: 61%N :: q1
         :: url ++ q2 :: mid ++ 97%N
            :: 108%N :: 116%N :: 61%N :: q3 :: alt ++ q4 :: post)
     ++ [62%N])
  = Some {| matched :=
              60%N :: 105%N :: 109%N :: 103%N :: pre ++ 115%N
              :: (114%N :: 99%N :: 61%N :: q1
                  :: url ++ q2 :: mid ++ 97%N
                     :: 108%N :: 116%N :: 61%N :: q3 :: alt ++ q4 :: post)
              ++ [62%N];
            captures := [(2, alt); (1, url)] |}.
Proof.
  intros Hpre Hq1 Hurl Hq2 Hmid Hq3 Halt Hq4 Hpost Hfs Hfa.
  apply isQuote_cases in Hq1, Hq2, Hq3, Hq4.
  destruct Hq1 as [->| ->], Hq2 as [->| ->], Hq3 as [->| ->], Hq4 as [->| ->];
    image_case Hpre Hurl Hmid Halt Hpost Hfs Hfa.
Qed.

Lemma isQuote_attribute (q : char16) :
  isQuote q = true -> (q =? 60)%N = false /\ (q =? 62)%N = false.
Proof. intros H. apply isQuote_cases in H as [->| ->]; now split. Qed.

Lemma attributeText_app (a b : jsstring) :
  attributeText a = true -> attributeText b = true ->
  attributeText (a ++ b) = true.
Proof.
  unfold attributeText. intros Ha Hb. rewrite forallb_app.
  apply andb_true_iff. split; [exact Ha|exact Hb].
Qed.

Lemma attributeText_cons (c : char16) (a : jsstring) :
  (c =? 60)%N = false /\ (c =? 62)%N = false -> attributeText a = true ->
  attributeText (c :: a) = true.
Proof.
  unfold attributeText. intros [H1 H2] Ha. cbn [forallb].
  apply andb_true_iff. split; [|exact Ha]. now rewrite H1, H2.
Qed.

Lemma forallb_image (f : char16 -> bool) (alt url : jsstring) :
  f 33%N = true -> f 91%N = true -> f 93%N = true -> f 40%N = true ->
  f 41%N = true -> forallb f alt = true -> forallb f url = true ->
  forallb f (33%N :: 91%N :: alt ++ 93%N :: 40%N :: url ++ [41%N]) = true.
Proof.
  intros H0 H1 H2 H3 H4 Ht Hu. cbn [forallb]. rewrite forallb_app.
  cbn [forallb]. rewrite forallb_app. cbn [forallb].
  now rewrite H0, H1, H2, H3, H4, Ht, Hu.
Qed.

(** X26.  An image with [src] before [alt] renders as an exclamation
    mark, the description in brackets and the address in parentheses.  Other
    attributes may stand before, between and after the two; either kind of
    quote may open or close either value; the values hold no quote, [<],
    [>], [&] or line terminator; what follows the first quote of [src] holds
    no further [src=], and what follows the first quote of [alt] no further
    [alt=].  The pass for emphasis tries the tag first, as [<img] starts like
    [<i], and gives up for want of a closing tag. *)
Theorem image_renders (pre url mid alt post : jsstring) (q1 q2 q3 q4 : char16) :
  attributeText pre = true -> isQuote q1 = true -> valueText url = true ->
  isQuote q2 = true -> attributeText mid = true ->
  isQuote q3 = true -> valueText alt = true -> isQuote q4 = true ->
  attributeText post = true ->
  freeOf "src=" (url ++ q2 :: mid ++ js "alt=" ++ q3 :: alt ++ q4 :: post)
  = true ->
  freeOf "alt=" (alt ++ q4 :: post) = true ->
  convertHtmlToMarkdown
    (js "<img" ++ pre ++ js "src=" ++ q1 :: url ++ q2 :: mid ++ js "alt="
     ++ q3 :: alt ++ q4 :: post ++ js ">")
  = trim (js "![" ++ alt ++ js "](" ++ url ++ js ")").
Proof.
  intros Hpre Hq1 Hurl Hq2 Hmid Hq3 Halt Hq4 Hpost Hfs Hfa.
  pose proof (image_match pre url mid alt post q1 q2 q3 q4
                Hpre Hq1 Hurl Hq2 Hmid Hq3 Halt Hq4 Hpost Hfs Hfa) as Hm.
  pose proof (attributeText_noLT pre Hpre) as Hnpre.
  destruct (valueText_plain url Hurl) as [Hnu [Hau Hlu]].
  destruct (valueText_plain alt Halt) as [Hnalt [Haalt Hlalt]].
  assert (Htail : attributeText
                    (114%N :: 99%N :: 61%N :: q1
                     :: url ++ q2 :: mid ++ 97%N
                     :: 108%N :: 116%N :: 61%N :: q3 :: alt ++ q4 :: post)
                  = true).
  { do 3 (apply attributeText_cons; [now split|]).
    apply attributeText_cons; [now apply isQuote_attribute|].
    apply attributeText_app; [now apply valueText_attributeText|].
    apply attributeText_cons; [now apply isQuote_attribute|].
    apply attributeText_app; [exact Hmid|].
    do 4 (apply attributeText_cons; [now split|]).
    apply attributeText_cons; [now apply isQuote_attribute|].
    apply attributeText_app; [now apply valueText_attributeText|].
    apply attributeText_cons; [now apply isQuote_attribute|exact Hpost]. }
  pose proof (attributeText_noLT _ Htail) as Hblob.
  match type of Hm with
  | matchAt _ ?x = _ =>
      replace (js "<img" ++ pre ++ js "src=" ++ q1 :: url ++ q2 :: mid
               ++ js "alt=" ++ q3 :: alt ++ q4 :: post ++ js ">") with x
        by (literals; cbn [app];
            repeat (progress (rewrite <- ?app_assoc; cbn [app]));
            reflexivity);
      assert (HEM : matchAt RE_EM x = None)
  end.
  { pose proof (image_not_EM _ (attributeText_app _ _ Hpre
                                  (attributeText_cons 115%N _
                                     (conj eq_refl eq_refl) Htail))) as H.
    rewrite <- H. f_equal. literals. cbn [app].
    repeat (progress (rewrite <- ?app_assoc; cbn [app])). reflexivity. }
  unfold convertHtmlToMarkdown. literals.
  do 12 pass_none_with HEM.
  match goal with
  | |- context [replaceTemplate RE_IMG_SRC_ALT ?tpl ?x] =>
      rewrite (replaceTemplate_whole RE_IMG_SRC_ALT tpl x _ eq_refl Hm eq_refl
                 ltac:(discriminate))
  end.
  match goal with
  | |- context [GetSubstitution ?m ?mr ?tp] =>
      let v := eval cbv -[app] in (GetSubstitution m mr tp) in
      change (GetSubstitution m mr tp) with v
  end.
  assert (Hb : hasBlankLines
                 (33%N :: 91%N :: alt ++ 93%N :: 40%N :: url ++ [41%N])
               = false).
  { apply lineFeeds_hasBlankLines.
    rewrite ?lineFeeds_cons, ?lineFeeds_app, ?lineFeeds_cons, ?lineFeeds_app,
      Hlalt, Hlu. vm_compute. lia. }
  assert (Hnl : noLT (33%N :: 91%N :: alt ++ 93%N :: 40%N :: url ++ [41%N])
                = true)
    by (apply forallb_image; first [reflexivity | exact Hnalt | exact Hnu]).
  assert (Hal : forallb (fun c => negb (c =? 38)%N)
                  (33%N :: 91%N :: alt ++ 93%N :: 40%N :: url ++ [41%N]) = true)
    by (apply forallb_image; first [reflexivity | exact Haalt | exact Hau]).
  finish_with Hnl Hal Hb.
Qed.

Lemma image_renders_witness :
  convertHtmlToMarkdown
    (js "<img class='x' src='pics/cat.png' width=10 alt='a cat' />")
  = js "![a cat](pics/cat.png)".
Proof.
  refine (eq_trans
            (image_renders (js " class='x' ") (js "pics/cat.png")
               (js " width=10 ") (js "a cat") (js " /")
               39%N 39%N 39%N 39%N _ _ _ _ _ _ _ _ _ _ _) _);
    vm_compute; reflexivity.
Defined.

(** ** Images without a description *)

Lemma suffixOf_refl (s : jsstring) : suffixOf s s.
Proof. now exists []. Qed.

Lemma suffixOf_tail (c : char16) (w s : jsstring) :
  suffixOf (c :: w) s -> suffixOf w s.
Proof.
  intros [a ->]. exists (a ++ [c]). now rewrite <- app_assoc.
Qed.

Lemma suffixOf_trans (w v s : jsstring) :
  suffixOf w v -> suffixOf v s -> suffixOf w s.
Proof.
  intros [a ->] [b ->]. exists (b ++ a). now rewrite app_assoc.
Qed.

(** The greedy star fails when its continuation fails wherever the star
    could stop. *)
Lemma repeatGreedy_fails (p : char16 -> bool) (k : Continuation)
    (cs : list (nat * jsstring)) (s : jsstring) :
  (forall w, suffixOf w s -> k {| rest := w; caps := cs |} = None) ->
  repeatGreedy p k cs s = None.
Proof.
  induction s as [|c s IH]; intros H.
  - cbn [repeatGreedy]. apply H, suffixOf_refl.
  - cbn [repeatGreedy].
    rewrite IH by (intros w Hw; apply H;
                   apply (suffixOf_trans w s); [exact Hw|now exists [c]]).
    rewrite (H (c :: s) (suffixOf_refl _)). now destruct (p c).
Qed.

(** No suffix of a tag whose attributes are free of a literal starts like
    the literal. *)
Lemma free_suffixes (pat : string) (blob w : jsstring) :
  forallb (fun p => negb (charMatches {| ignoreCase := true; dotAll := false |}
                            (Lit p) 62%N)) (js pat) = true ->
  js pat <> [] ->
  freeOf pat blob = true -> suffixOf w (blob ++ [62%N]) ->
  startsLike {| ignoreCase := true; dotAll := false |} (js pat) w = false.
Proof.
  intros Hpat Hne Hfree [a E].
  destruct (app_eq_app _ _ _ _ E) as [m [[E1 E2]|[E1 E2]]].
  - (* w = m ++ [62] with m a suffix of blob *)
    subst w. apply startsLike_before_gt; [exact Hpat|].
    apply (freeOf_suffix pat a m). now rewrite <- E1.
  - (* w is a suffix of [62] *)
    destruct m as [|c m].
    + cbn [app] in E2. subst w. 
      change [62%N] with ([] ++ 62%N :: []).
      apply startsLike_before_gt; [exact Hpat|].
      destruct (js pat); [congruence|reflexivity].
    + cbn [app] in E2. injection E2 as _ E2.
      symmetry in E2. apply app_eq_nil in E2 as [_ ->].
      destruct (js pat); [congruence|reflexivity].
Qed.

Ltac fails_by Hw :=
  cbn -[charMatches consumed];
  match type of Hw with
  | context [js ?s] =>
      let v := eval vm_compute in (js s) in change (js s) with v in Hw
  end;
  match goal with
  | |- context [match ?w with [] => _ | _ :: _ => _ end] =>
      is_var w;
      do 4 (destruct w as [|? w]; [reflexivity|];
            cbn [startsLike] in Hw;
            match goal with
            | |- (if ?b then _ else _) = _ =>
                destruct b; [cbn [andb] in Hw|reflexivity]
            end);
      discriminate Hw
  end.

Lemma image_not_SRC_ALT (blob : jsstring) :
  attributeText blob = true -> freeOf "alt=" blob = true ->
  matchAt RE_IMG_SRC_ALT (js "<img" ++ blob ++ js ">") = None.
Proof.
  intros Ha Hfree. normal_form. unfold matchAt. run.
  assert (Halt : forall w, suffixOf w (blob ++ [62%N]) ->
            startsLike {| ignoreCase := true; dotAll := false |}
              (js "alt=") w = false)
    by (intros w Hw; apply (free_suffixes "alt=" blob w eq_refl);
        [discriminate|exact Hfree|exact Hw]).
  rewrite repeatGreedy_fails; [reflexivity|].
  intros w0 H0. cbn -[charMatches consumed].
  do 5 (destruct w0 as [|? w0]; [reflexivity|];
        apply suffixOf_tail in H0;
        match goal with
        | |- (if ?b then _ else _) = _ => destruct b; [|reflexivity]
        end).
  apply repeatGreedy_fails. intros w1 H1.
  pose proof (suffixOf_trans _ _ _ H1 H0) as H2.
  cbn -[charMatches consumed].
  destruct w1 as [|? w1]; [reflexivity|]. apply suffixOf_tail in H2.
  match goal with
  | |- (if ?b then _ else _) = _ => destruct b; [|reflexivity]
  end.
  apply repeatGreedy_fails. intros w2 H3.
  pose proof (Halt w2 (suffixOf_trans _ _ _ H3 H2)) as Hw.
  fails_by Hw.
Qed.

Lemma image_not_ALT_SRC (blob : jsstring) :
  attributeText blob = true -> freeOf "alt=" blob = true ->
  matchAt RE_IMG_ALT_SRC (js "<img" ++ blob ++ js ">") = None.
Proof.
  intros Ha Hfree. normal_form. unfold matchAt. run.
  rewrite repeatGreedy_fails; [reflexivity|].
  intros w Hw.
  pose proof (free_suffixes "alt=" blob w eq_refl ltac:(discriminate)
                Hfree Hw) as H.
  fails_by H.
Qed.


Ltac image_src_case Hpre Hurl Hpost Hfs :=
  unfold matchAt; run;
  (erewrite repeatGreedy_through;
   [ | exact (attributeText_greedy _ _ Hpre) | ]);
  [ | stop_at_literal ("src="%string) Hfs;
      run; rewrite <- app_assoc; cbn [app];
      (erewrite repeatGreedy_through;
       [ | exact (valueText_greedy _ _ Hurl) | ]);
      [ | run; (greedy_through Hpost; [ | run; reflexivity ]);
          run; reflexivity ];
      run; reflexivity ];
  run; rewrite !consumed_app, consumed_all; reflexivity.

Lemma image_src_match (pre url post : jsstring) (q1 q2 : char16) :
  attributeText pre = true -> isQuote q1 = true -> valueText url = true ->
  isQuote q2 = true -> attributeText post = true ->
  freeOf "src=" (url ++ q2 :: post) = true ->
  matchAt RE_IMG_SRC
    (60%N :: 105%N :: 109%N :: 103%N :: pre ++ 115%N
     :: (114%N :: 99%N :: 61%N :: q1 :: url ++ q2 :: post) ++ [62%N])
  = Some {| matched :=
              60%N :: 105%N :: 109%N :: 103%N :: pre ++ 115%N
              :: (114%N :: 99%N :: 61%N :: q1 :: url ++ q2 :: post)
              ++ [62%N];
            captures := [(1, url)] |}.
Proof.
  intros Hpre Hq1 Hurl Hq2 Hpost Hfs.
  apply isQuote_cases in Hq1, Hq2.
  destruct Hq1 as [->| ->], Hq2 as [->| ->];
    image_src_case Hpre Hurl Hpost Hfs.
Qed.

Lemma forallb_bare_image (f : char16 -> bool) (url : jsstring) :
  f 33%N = true -> f 91%N = true -> f 93%N = true -> f 40%N = true ->
  f 41%N = true -> forallb f url = true ->
  forallb f (33%N :: 91%N :: 93%N :: 40%N :: url ++ [41%N]) = true.
Proof.
  intros H0 H1 H2 H3 H4 Hu. cbn [forallb]. rewrite forallb_app.
  cbn [forallb]. now rewrite H0, H1, H2, H3, H4, Hu.
Qed.

(** X27.  An image without a description renders with empty brackets.
    When the attributes of an [img] tag hold no [alt=] at all, the two
    expressions that look for a description fail and the third one applies:
    the result is an exclamation mark, empty brackets and the address in
    parentheses.  The conditions on [src] are those of an image with a
    description. *)
Theorem image_without_alt_renders (pre url post : jsstring) (q1 q2 : char16) :
  attributeText pre = true -> isQuote q1 = true -> valueText url = true ->
  isQuote q2 = true -> attributeText post = true ->
  freeOf "src=" (url ++ q2 :: post) = true ->
  freeOf "alt=" (pre ++ js "src=" ++ q1 :: url ++ q2 :: post) = true ->
  convertHtmlToMarkdown
    (js "<img" ++ pre ++ js "src=" ++ q1 :: url ++ q2 :: post ++ js ">")
  = trim (js "![](" ++ url ++ js ")").
Proof.
  intros Hpre Hq1 Hurl Hq2 Hpost Hfs Hfa.
  pose proof (image_src_match pre url post q1 q2
                Hpre Hq1 Hurl Hq2 Hpost Hfs) as Hm.
  pose proof (attributeText_noLT pre Hpre) as Hnpre.
  destruct (valueText_plain url Hurl) as [Hnu [Hau Hlu]].
  assert (Htail : attributeText
                    (114%N :: 99%N :: 61%N :: q1 :: url ++ q2 :: post)
                  = true).
  { do 3 (apply attributeText_cons; [now split|]).
    apply attributeText_cons; [now apply isQuote_attribute|].
    apply attributeText_app; [now apply valueText_attributeText|].
    apply attributeText_cons; [now apply isQuote_attribute|exact Hpost]. }
  pose proof (attributeText_noLT _ Htail) as Hblob.
  pose proof (attributeText_app _ _ Hpre
                (attributeText_cons 115%N _ (conj eq_refl eq_refl) Htail))
    as Hattrs.
  match type of Hm with
  | matchAt _ ?x = _ =>
      replace (js "<img" ++ pre ++ js "src=" ++ q1 :: url ++ q2 :: post
               ++ js ">") with x
        by (literals; cbn [app];
            repeat (progress (rewrite <- ?app_assoc; cbn [app]));
            reflexivity);
      assert (Hx : x = js "<img"
                       ++ (pre ++ 115%N :: 114%N :: 99%N :: 61%N :: q1
                           :: url ++ q2 :: post) ++ js ">")
        by (literals; cbn [app];
            repeat (progress (rewrite <- ?app_assoc; cbn [app]));
            reflexivity);
      assert (HEM : matchAt RE_EM x = None)
        by (rewrite Hx; exact (image_not_EM _ Hattrs));
      assert (HSA : matchAt RE_IMG_SRC_ALT x = None)
        by (rewrite Hx; exact (image_not_SRC_ALT _ Hattrs Hfa));
      assert (HAS : matchAt RE_IMG_ALT_SRC x = None)
        by (rewrite Hx; exact (image_not_ALT_SRC _ Hattrs Hfa));
      clear Hx
  end.
  unfold convertHtmlToMarkdown. literals.
  do 12 pass_none_with HEM. pass_none_with HSA. pass_none_with HAS.
  match goal with
  | |- context [replaceTemplate RE_IMG_SRC ?tpl ?x] =>
      rewrite (replaceTemplate_whole RE_IMG_SRC tpl x _ eq_refl Hm eq_refl
                 ltac:(discriminate))
  end.
  match goal with
  | |- context [GetSubstitution ?m ?mr ?tp] =>
      let v := eval cbv -[app] in (GetSubstitution m mr tp) in
      change (GetSubstitution m mr tp) with v
  end.
  assert (Hb : hasBlankLines (33%N :: 91%N :: 93%N :: 40%N :: url ++ [41%N])
               = false).
  { apply lineFeeds_hasBlankLines.
    rewrite ?lineFeeds_cons, ?lineFeeds_app, ?lineFeeds_cons, Hlu.
    vm_compute. lia. }
  assert (Hnl : noLT (33%N :: 91%N :: 93%N :: 40%N :: url ++ [41%N]) = true)
    by (apply forallb_bare_image; first [reflexivity | exact Hnu]).
  assert (Hal : forallb (fun c => negb (c =? 38)%N)
                  (33%N :: 91%N :: 93%N :: 40%N :: url ++ [41%N]) = true)
    by (apply forallb_bare_image; first [reflexivity | exact Hau]).
  finish_with Hnl Hal Hb.
Qed.

Lemma image_without_alt_renders_witness :
  convertHtmlToMarkdown (js "<img class='x' src='pics/cat.png' width=10>")
  = js "![](pics/cat.png)".
Proof.
  refine (eq_trans
            (image_without_alt_renders (js " class='x' ") (js "pics/cat.png")
               (js " width=10") 39%N 39%N _ _ _ _ _ _ _) _);
    vm_compute; reflexivity.
Defined.

(** ** Entities, line breaks and blank lines *)

Lemma entity_unseen (name : string) (t : jsstring) :
  startsWith t (js name) = false -> matchAt (RE_ENTITY name) t = None.
Proof.
  intros Ht. destruct (matchAt (RE_ENTITY name) t) as [mr|] eqn:E;
    [|reflexivity].
  destruct (matchAt_accepts _ _ _ E) as [w [t' [-> A]]].
  apply accepts_literal in A. subst w.
  assert (Hs : startsWith (js name ++ t') (js name) = true)
    by (apply startsWith_spec; now exists t').
  congruence.
Qed.

Lemma entity_inert (name : string) (n tpl s u : jsstring) :
  js name = 38%N :: n -> noAmp s = true ->
  replaceTemplate (RE_ENTITY name) tpl (s ++ u)
  = s ++ replaceTemplate (RE_ENTITY name) tpl u.
Proof.
  intros Hn. unfold replaceTemplate, noAmp.
  induction s as [|c s IH]; [reflexivity|].
  cbn [forallb]. rewrite andb_true_iff, negb_true_iff. intros [Hc Hs].
  cbn [app]. rewrite replaceFrom_none_cons.
  - f_equal. now apply IH.
  - apply entity_unseen. rewrite Hn. cbn [startsWith]. now rewrite Hc.
Qed.

Lemma includes_one_amp (s w p : jsstring) :
  noAmp s = true -> noAmp w = true -> startsWith w p = false ->
  includes (s ++ 38%N :: w) (38%N :: p) = false.
Proof.
  intros Hs Hw Hp. induction s as [|c s IH].
  - cbn [app includes startsWith]. rewrite N.eqb_refl, Hp.
    exact (noAmp_includes w p Hw).
  - unfold noAmp in Hs. cbn [forallb] in Hs.
    apply andb_true_iff in Hs as [Hc Hs]. apply negb_true_iff in Hc.
    cbn [app includes startsWith]. rewrite Hc. now apply IH.
Qed.

(** The pass for an entity replaces the entity where it stands. *)
Lemma entity_hit (name : string) (tpl u : jsstring) :
  In (name, tpl) (("&amp;"%string, [38%N]) :: laterEntities) ->
  replaceTemplate (RE_ENTITY name) tpl (js name ++ u)
  = tpl ++ replaceTemplate (RE_ENTITY name) tpl u.
Proof.
  intros Hin. unfold laterEntities in Hin. cbn [In] in Hin.
  repeat (destruct Hin as [Hin|Hin]; [injection Hin as <- <-|]);
    [..|destruct Hin];
    unfold replaceTemplate;
    match goal with
    | |- replaceFrom ?re ?f tt 0 (?w ++ ?r) = _ =>
        let Hm := fresh "Hm" in
        eassert (Hm : matchAt re (w ++ r) = Some _)
          by (literals; cbn [app]; unfold matchAt; run; reflexivity);
        rewrite (replaceFrom_match unit re f tt tt (w ++ r) w r _ _
                   Hm eq_refl eq_refl);
        [ reflexivity
        | cbn [matched]; apply consumed_suffix; literals; reflexivity
        | literals; discriminate ]
    end.
Qed.

Lemma entity_rest (name : string) (n tpl t : jsstring) :
  js name = 38%N :: n -> noAmp t = true ->
  replaceTemplate (RE_ENTITY name) tpl t = t.
Proof.
  intros Hn Ht. apply replace_without_literal. rewrite Hn.
  now apply noAmp_includes.
Qed.

Lemma inlineText_app (a b : jsstring) :
  inlineText (a ++ b) = true -> inlineText a = true /\ inlineText b = true.
Proof. unfold inlineText. rewrite forallb_app. apply andb_true_iff. Qed.

(** The text between the tag strip and the collapse of blank lines, for
    inline text around one code unit. *)
Lemma plain_around (s r : jsstring) (c : char16) :
  inlineText s = true -> inlineText r = true -> (c =? LF)%N = false ->
  hasBlankLines (s ++ c :: r) = false.
Proof.
  intros Hs Hr Hc. apply lineFeeds_hasBlankLines.
  rewrite lineFeeds_app, lineFeeds_cons, (inlineText_lineFeeds s Hs),
    (inlineText_lineFeeds r Hr), N.eqb_sym, Hc. cbn. lia.
Qed.

(** The passes before the entities leave text without [<] alone. *)
Lemma tag_passes_plain (s : jsstring) :
  noLT s = true ->
  (s |> replaceTemplate (RE_HEADING "h1") (js "# $1\n\n")
     |> replaceTemplate (RE_HEADING "h2") (js "## $1\n\n")
     |> replaceTemplate (RE_HEADING "h3") (js "### $1\n\n")
     |> replaceTemplate (RE_HEADING "h4") (js "#### $1\n\n")
     |> replaceTemplate (RE_HEADING "h5") (js "##### $1\n\n")
     |> replaceTemplate (RE_HEADING "h6") (js "###### $1\n\n")
     |> replaceTemplate RE_P (js "$1\n\n")
     |> replaceTemplate RE_STRONG (js "**$2**")
     |> replaceTemplate RE_EM (js "*$2*")
     |> replaceTemplate RE_CODE (js "`$1`")
     |> replaceTemplate RE_PRE (js "```\n$1\n```\n\n")
     |> replaceTemplate RE_A (js "[$2]($1)")
     |> replaceTemplate RE_IMG_SRC_ALT (js "![$2]($1)")
     |> replaceTemplate RE_IMG_ALT_SRC (js "![$1]($2)")
     |> replaceTemplate RE_IMG_SRC (js "![]($1)")
     |> replaceFunction RE_UL ulReplacer
     |> replaceFunction RE_OL olReplacer
     |> replaceTemplate RE_BR (js "\n")
     |> replaceTemplate RE_TAG []) = s.
Proof.
  intros Hs. pose proof (noLT_hasTag s Hs) as Htag.
  rewrite (replaceTemplate_without_tag (RE_HEADING "h1") _ s eq_refl Htag).
  rewrite (replaceTemplate_without_tag (RE_HEADING "h2") _ s eq_refl Htag).
  rewrite (replaceTemplate_without_tag (RE_HEADING "h3") _ s eq_refl Htag).
  rewrite (replaceTemplate_without_tag (RE_HEADING "h4") _ s eq_refl Htag).
  rewrite (replaceTemplate_without_tag (RE_HEADING "h5") _ s eq_refl Htag).
  rewrite (replaceTemplate_without_tag (RE_HEADING "h6") _ s eq_refl Htag).
  rewrite (replaceTemplate_without_tag RE_P _ s eq_refl Htag).
  rewrite (replaceTemplate_without_tag RE_STRONG _ s eq_refl Htag).
  rewrite (replaceTemplate_without_tag RE_EM _ s eq_refl Htag).
  rewrite (replaceTemplate_without_tag RE_CODE _ s eq_refl Htag).
  rewrite (replaceTemplate_without_tag RE_PRE _ s eq_refl Htag).
  rewrite (replaceTemplate_without_tag RE_A _ s eq_refl Htag).
  rewrite (replaceTemplate_without_tag RE_IMG_SRC_ALT _ s eq_refl Htag).
  rewrite (replaceTemplate_without_tag RE_IMG_ALT_SRC _ s eq_refl Htag).
  rewrite (replaceTemplate_without_tag RE_IMG_SRC _ s eq_refl Htag).
  rewrite (replaceFunction_without_tag RE_UL _ s eq_refl Htag).
  rewrite (replaceFunction_without_tag RE_OL _ s eq_refl Htag).
  rewrite (replaceTemplate_without_tag RE_BR _ s eq_refl Htag).
  rewrite (replaceTemplate_without_tag RE_TAG _ s eq_refl Htag).
  reflexivity.
Qed.

Lemma inlineText_noAmp' (t : jsstring) : inlineText t = true -> noAmp t = true.
Proof. apply inlineText_noAmp. Qed.

(** One entity in inline text, pass by pass. *)
Ltac entity_miss Hs Ht :=
  match goal with
  | |- context [replaceTemplate (RE_ENTITY ?nm) ?tpl ?x] =>
      lazymatch x with
      | _ ++ 38%N :: _ =>
          rewrite (replace_without_literal nm tpl x)
            by (apply includes_one_amp;
                [ exact Hs | cbn [noAmp forallb]; exact Ht | reflexivity ])
      end
  end.

Ltac entity_here Has Hat Hhit t :=
  match goal with
  | |- context [replaceTemplate (RE_ENTITY ?nm) ?tpl ?x] =>
      lazymatch x with
      | ?s0 ++ ?w =>
          replace (replaceTemplate (RE_ENTITY nm) tpl x) with (s0 ++ tpl ++ t)
            by (symmetry;
                etransitivity;
                [exact (entity_inert nm _ tpl s0 w eq_refl Has)|];
                apply f_equal;
                etransitivity; [exact Hhit|]; apply f_equal;
                exact (entity_rest nm _ tpl t eq_refl Hat))
      end
  end.

Ltac entity_gone Hno :=
  match goal with
  | |- context [replaceTemplate (RE_ENTITY ?nm) ?tpl ?x] =>
      lazymatch x with
      | _ ++ _ => rewrite (entity_rest nm _ tpl x eq_refl Hno)
      end
  end.

Lemma noAmp_around (s r : jsstring) (c : char16) :
  noAmp s = true -> noAmp r = true -> (c =? 38)%N = false ->
  noAmp (s ++ [c] ++ r) = true.
Proof.
  unfold noAmp. intros Hs Hr Hc. rewrite forallb_app.
  apply andb_true_iff. split; [exact Hs|]. cbn [app forallb].
  apply andb_true_iff. split; [now rewrite Hc|exact Hr].
Qed.

Ltac one_entity Hs Ht Has Hat Hhit s t c :=
  literals; cbn [app];
  repeat entity_miss Has Hat;
  entity_here Has Hat Hhit t;
  pose proof (noAmp_around s t c Has Hat eq_refl) as Hno;
  repeat entity_gone Hno;
  rewrite (replace_without_blankLines _ _ (plain_around s t c Hs Ht eq_refl));
  reflexivity.

(** The passes after [&amp;] decode one entity in inline text. *)
Lemma later_entity_decoded (s t : jsstring) (name : string) (out : jsstring) :
  inlineText s = true -> inlineText t = true ->
  In (name, out) laterEntities ->
  trim
    (s ++ js name ++ t
       |> replaceTemplate (RE_ENTITY "&lt;") (js "<")
       |> replaceTemplate (RE_ENTITY "&gt;") (js ">")
       |> replaceTemplate (RE_ENTITY "&quot;") [34%N]
       |> replaceTemplate (RE_ENTITY "&#39;") (js "'")
       |> replaceTemplate RE_BLANK_LINES (js "\n\n"))
  = trim (s ++ out ++ t).
Proof.
  intros Hs Ht Hin.
  pose proof (inlineText_noAmp' s Hs) as Has.
  pose proof (inlineText_noAmp' t Ht) as Hat.
  pose proof (entity_hit name out t (or_intror Hin)) as Hhit.
  unfold laterEntities in Hin. cbn [In] in Hin.
  destruct Hin as [Hin|[Hin|[Hin|[Hin|[]]]]]; injection Hin as <- <-.
  - one_entity Hs Ht Has Hat Hhit s t 60%N.
  - one_entity Hs Ht Has Hat Hhit s t 62%N.
  - one_entity Hs Ht Has Hat Hhit s t 34%N.
  - one_entity Hs Ht Has Hat Hhit s t 39%N.
Qed.

Lemma laterEntities_plain (name : string) (out : jsstring) :
  In (name, out) laterEntities ->
  noLT (js name) = true
  /\ exists n, js name = 38%N :: n /\ noAmp n = true
               /\ forall t, startsWith (n ++ t) (js "amp;") = false.
Proof.
  intros Hin. unfold laterEntities in Hin. cbn [In] in Hin.
  repeat (destruct Hin as [Hin|Hin];
          [ injection Hin as <- <-;
            split; [reflexivity|];
            eexists; split; [reflexivity|]; split; [reflexivity|];
            intros t; reflexivity
          | ]).
  destruct Hin.
Qed.

(** X28.  Entities are decoded in the order of the passes.  In inline
    text, each of [&lt;], [&gt;], [&quot;] and [&#39;] becomes the character
    it stands for.  [&amp;] becomes an ampersand in the first of the passes,
    and the later passes take that ampersand for the start of an entity when
    the text goes on like one: [&amp;lt;] comes out as [<], not as
    [&lt;]. *)
Theorem entities_decode_in_order (s t : jsstring) :
  inlineText s = true -> inlineText t = true ->
  (forall name out, In (name, out) laterEntities ->
     convertHtmlToMarkdown (s ++ js name ++ t) = trim (s ++ out ++ t))
  /\ convertHtmlToMarkdown (s ++ js "&amp;" ++ t) = trim (s ++ afterAmp t).
Proof.
  intros Hs Ht.
  pose proof (inlineText_noAmp' s Hs) as Has.
  pose proof (inlineText_noAmp' t Ht) as Hat.
  pose proof (inlineText_noLT s Hs) as Hns.
  pose proof (inlineText_noLT t Ht) as Hnt.
  split.
  - intros name out Hin.
    destruct (laterEntities_plain name out Hin) as [Hn [n [En [Hnn Hamp]]]].
    assert (Hplain : noLT (s ++ js name ++ t) = true).
    { unfold noLT in *. rewrite !forallb_app.
      apply andb_true_iff. split; [exact Hns|].
      apply andb_true_iff. split; [exact Hn|exact Hnt]. }
    unfold convertHtmlToMarkdown.
    rewrite (tag_passes_plain _ Hplain).
    rewrite (replace_without_literal "&amp;" _ (s ++ js name ++ t)).
    + exact (later_entity_decoded s t name out Hs Ht Hin).
    + rewrite En. cbn [app]. apply includes_one_amp; [exact Has| |].
      * unfold noAmp in *. rewrite forallb_app.
        apply andb_true_iff. split; [exact Hnn|exact Hat].
      * apply Hamp.
  - assert (Hplain : noLT (s ++ js "&amp;" ++ t) = true).
    { unfold noLT in *. rewrite !forallb_app.
      apply andb_true_iff. split; [exact Hns|].
      apply andb_true_iff. split; [reflexivity|exact Hnt]. }
    unfold convertHtmlToMarkdown.
    rewrite (tag_passes_plain _ Hplain). clear Hplain.
    pose proof (entity_hit "&amp;" [38%N] t (or_introl eq_refl)) as Hhit.
    entity_here Has Hat Hhit t. clear Hhit.
    unfold afterAmp.
    destruct (startsWith t (js "lt;")) eqn:E1.
    { apply startsWith_spec in E1 as [r ->].
      apply inlineText_app in Ht as [_ Hr].
      exact (later_entity_decoded s r "&lt;" [60%N] Hs Hr (or_introl eq_refl)). }
    destruct (startsWith t (js "gt;")) eqn:E2.
    { apply startsWith_spec in E2 as [r ->].
      apply inlineText_app in Ht as [_ Hr].
      exact (later_entity_decoded s r "&gt;" [62%N] Hs Hr
               (or_intror (or_introl eq_refl))). }
    destruct (startsWith t (js "quot;")) eqn:E3.
    { apply startsWith_spec in E3 as [r ->].
      apply inlineText_app in Ht as [_ Hr].
      exact (later_entity_decoded s r "&quot;" [34%N] Hs Hr
               (or_intror (or_intror (or_introl eq_refl)))). }
    destruct (startsWith t (js "#39;")) eqn:E4.
    { apply startsWith_spec in E4 as [r ->].
      apply inlineText_app in Ht as [_ Hr].
      exact (later_entity_decoded s r "&#39;" [39%N] Hs Hr
               (or_intror (or_intror (or_intror (or_introl eq_refl))))). }
    rewrite (replace_without_literal "&lt;" _ (s ++ [38%N] ++ t))
      by (apply includes_one_amp; [exact Has|exact Hat|exact E1]).
    rewrite (replace_without_literal "&gt;" _ (s ++ [38%N] ++ t))
      by (apply includes_one_amp; [exact Has|exact Hat|exact E2]).
    rewrite (replace_without_literal "&quot;" _ (s ++ [38%N] ++ t))
      by (apply includes_one_amp; [exact Has|exact Hat|exact E3]).
    rewrite (replace_without_literal "&#39;" _ (s ++ [38%N] ++ t))
      by (apply includes_one_amp; [exact Has|exact Hat|exact E4]).
    rewrite (replace_without_blankLines _ _
               (plain_around s t 38%N Hs Ht eq_refl)).
    reflexivity.
Qed.

Lemma entities_decode_in_order_witness :
  convertHtmlToMarkdown (js "if a &lt; b") = js "if a < b"
  /\ convertHtmlToMarkdown (js "write &amp;lt; for less") = js "write < for less".
Proof.
  pose proof (entities_decode_in_order (js "if a ") (js " b")
                ltac:(vm_compute; reflexivity) ltac:(vm_compute; reflexivity))
    as [H _].
  pose proof (entities_decode_in_order (js "write ") (js "lt; for less")
                ltac:(vm_compute; reflexivity) ltac:(vm_compute; reflexivity))
    as [_ H'].
  split.
  - refine (eq_trans (H "&lt;"%string [60%N] (or_introl eq_refl)) _).
    vm_compute. reflexivity.
  - refine (eq_trans H' _). vm_compute. reflexivity.
Defined.

(** The lazy star fails when its continuation fails wherever the star
    could stop. *)
Lemma repeatLazy_fails (p : char16 -> bool) (k : Continuation)
    (cs : list (nat * jsstring)) (s : jsstring) :
  (forall w, suffixOf w s -> k {| rest := w; caps := cs |} = None) ->
  repeatLazy p k cs s = None.
Proof.
  induction s as [|c s IH]; intros H.
  - cbn [repeatLazy]. now rewrite (H [] (suffixOf_refl _)).
  - cbn [repeatLazy]. rewrite (H (c :: s) (suffixOf_refl _)).
    rewrite IH by (intros w Hw; apply H;
                   apply (suffixOf_trans w s); [exact Hw|now exists [c]]).
    now destruct (p c).
Qed.

Ltac fails_at_two Hw :=
  cbn -[charMatches consumed];
  match type of Hw with
  | context [js ?s] =>
      let v := eval vm_compute in (js s) in change (js s) with v in Hw
  end;
  match goal with
  | |- context [match ?w with [] => _ | _ :: _ => _ end] =>
      is_var w;
      do 2 (destruct w as [|? w]; [reflexivity|];
            cbn [startsLike] in Hw;
            match goal with
            | |- (if ?b then _ else _) = _ =>
                destruct b; [cbn [andb] in Hw|reflexivity]
            end);
      discriminate Hw
  end.

(** The pass for bold text takes [<br] for the opening of a [<b>] element,
    and fails when no closing tag follows. *)
Lemma br_not_STRONG (attrs rest : jsstring) :
  attributeText attrs = true -> freeOf "</" rest = true ->
  matchAt RE_STRONG (60%N :: 98%N :: 114%N :: attrs ++ 62%N :: rest) = None.
Proof.
  intros Ha Hfree. unfold matchAt. run.
  attributes_back Ha. run.
  rewrite repeatLazy_fails; [reflexivity|].
  intros w [a E].
  pose proof (freeOf_suffix "</" a w) as Hw. rewrite <- E in Hw.
  specialize (Hw Hfree). fails_at_two Hw.
Qed.

Lemma freeOf_text (t u : jsstring) :
  noLT t = true -> freeOf "</" u = true -> freeOf "</" (t ++ u) = true.
Proof.
  intros Ht Hu. induction t as [|c t IH]; [exact Hu|].
  unfold noLT in Ht. cbn [forallb] in Ht.
  apply andb_true_iff in Ht as [Hc Ht]. apply negb_true_iff in Hc.
  cbn [app]. apply freeOf_cons; [|now apply IH].
  change (js "</") with [60%N; 47%N]. cbn [startsLike].
  now rewrite (charMatches_lt _ c Hc).
Qed.

Lemma noLT_br (a : jsstring) :
  attributeText a = true -> noLT (98%N :: 114%N :: a ++ [62%N]) = true.
Proof.
  intros Ha. pose proof (attributeText_noLT a Ha) as Hn. unfold noLT in *.
  rewrite forallb_forall in Hn. apply forallb_forall. intros c Hc.
  cbn [In] in Hc. rewrite in_app_iff in Hc. cbn [In] in Hc.
  destruct Hc as [<-|[<-|[Hc|[<-|[]]]]]; try reflexivity. now apply Hn.
Qed.

Lemma brText_cons (l : jsstring * jsstring)
    (lines : list (jsstring * jsstring)) (last : jsstring) :
  brText (l :: lines) last
  = fst l ++ 60%N :: (98%N :: 114%N :: snd l ++ [62%N]) ++ brText lines last.
Proof.
  unfold brText. cbn [map concat]. literals. cbn [app].
  rewrite <- !app_assoc. cbn [app]. do 4 f_equal.
  now rewrite <- !app_assoc.
Qed.

Lemma brText_free (lines : list (jsstring * jsstring)) (last : jsstring) :
  Forall brOk lines -> inlineText last = true ->
  freeOf "</" (brText lines last) = true.
Proof.
  intros Hall Hlast. induction Hall as [|l lines [Ht Ha] _ IH].
  - unfold brText. cbn [map concat app].
    rewrite <- (app_nil_r last). apply freeOf_text; [|reflexivity].
    now apply inlineText_noLT.
  - rewrite brText_cons.
    apply freeOf_text; [now apply inlineText_noLT|].
    apply freeOf_cons; [reflexivity|].
    apply freeOf_text; [now apply noLT_br|exact IH].
Qed.

Section Breaks.
Variable St : Type.
Variable re : RegExp.
Variable replacer : St -> MatchResult -> jsstring * St.
Hypothesis Hfirst : firstIs 60%N (source re) = true.
Hypothesis Hend : matchAt re [] = None.
Hypothesis Hblind : forall attrs rest,
  attributeText attrs = true -> freeOf "</" rest = true ->
  matchAt re (60%N :: 98%N :: 114%N :: attrs ++ 62%N :: rest) = None.

(** A pass that does not see the [br] tags leaves the lines alone. *)
Lemma br_unseen (lines : list (jsstring * jsstring)) (last : jsstring)
    (st : St) :
  Forall brOk lines -> inlineText last = true ->
  replaceFrom re replacer st 0 (brText lines last) = brText lines last.
Proof.
  intros Hall Hlast. induction Hall as [|l lines [Ht Ha] Hall IH].
  - unfold brText. cbn [map concat app].
    rewrite <- (app_nil_r last).
    rewrite replaceFrom_inert by
      (first [exact Hfirst | now apply inlineText_noLT]).
    now rewrite replaceFrom_none_nil by exact Hend.
  - rewrite brText_cons.
    rewrite replaceFrom_inert by
      (first [exact Hfirst | now apply inlineText_noLT]).
    rewrite replaceFrom_none_cons.
    2:{ cbn [app]. rewrite <- app_assoc. cbn [app].
        apply Hblind; [exact Ha|now apply brText_free]. }
    rewrite replaceFrom_inert; [now rewrite IH|exact Hfirst|].
    now apply noLT_br.
Qed.

End Breaks.

Lemma br_match (attrs rest : jsstring) :
  attributeText attrs = true ->
  matchAt RE_BR (60%N :: (98%N :: 114%N :: attrs ++ [62%N]) ++ rest)
  = Some {| matched := 60%N :: 98%N :: 114%N :: attrs ++ [62%N];
            captures := [] |}.
Proof.
  intros Ha. cbn [app]. rewrite <- app_assoc. cbn [app].
  unfold matchAt. run. greedy_through Ha; [|run; reflexivity].
  run. do 2 f_equal. apply consumed_suffix.
  cbn [app]. rewrite <- app_assoc. reflexivity.
Qed.

Lemma br_pass (lines : list (jsstring * jsstring)) (last : jsstring) :
  Forall brOk lines -> inlineText last = true ->
  replaceTemplate RE_BR (js "\n") (brText lines last) = brLines lines last.
Proof.
  intros Hall Hlast. unfold replaceTemplate.
  induction Hall as [|l lines [Ht Ha] Hall IH].
  - unfold brText, brLines. cbn [map concat app].
    rewrite <- (app_nil_r last) at 1.
    rewrite replaceFrom_inert by
      (first [reflexivity | now apply inlineText_noLT]).
    now rewrite replaceFrom_none_nil, app_nil_r by reflexivity.
  - rewrite brText_cons.
    rewrite replaceFrom_inert by
      (first [reflexivity | now apply inlineText_noLT]).
    rewrite (replaceFrom_match unit RE_BR _ tt tt _
               (60%N :: 98%N :: 114%N :: snd l ++ [62%N])
               (brText lines last) [LF] _ (br_match (snd l) _ Ha));
      [|reflexivity|reflexivity|reflexivity|discriminate].
    rewrite IH. unfold brLines. cbn [map concat].
    now rewrite <- !app_assoc.
Qed.

Lemma brLines_plain (lines : list (jsstring * jsstring)) (last : jsstring) :
  Forall brOk lines -> inlineText last = true ->
  noLT (brLines lines last) = true
  /\ forallb (fun c => negb (c =? 38)%N) (brLines lines last) = true.
Proof.
  intros Hall Hlast. unfold brLines, noLT.
  induction Hall as [|l lines [Ht _] _ [IH1 IH2]].
  - cbn [map concat app].
    split; [now apply inlineText_noLT|now apply inlineText_noAmp].
  - cbn [map concat]. rewrite <- !app_assoc. cbn [app].
    rewrite !forallb_app. cbn [forallb].
    split; apply andb_true_iff; split;
      first [ exact (inlineText_noLT _ Ht) | exact (inlineText_noAmp _ Ht)
            | exact IH1 | exact IH2 ].
Qed.

Ltac unseen_br Hall Hlast :=
  match goal with
  | |- context [replaceTemplate ?re ?tpl (brText ?lines ?last)] =>
      replace (replaceTemplate re tpl (brText lines last))
        with (brText lines last)
        by (symmetry;
            apply (br_unseen unit re _ eq_refl eq_refl
                     ltac:(first [ exact br_not_STRONG
                                 | intros; vm_compute; reflexivity ])
                     lines last tt Hall Hlast))
  | |- context [replaceFunction ?re ?f (brText ?lines ?last)] =>
      replace (replaceFunction re f (brText lines last))
        with (brText lines last)
        by (symmetry;
            apply (br_unseen unit re _ eq_refl eq_refl
                     ltac:(intros; vm_compute; reflexivity)
                     lines last tt Hall Hlast))
  end.

(** X29.  Line breaks become line feeds.  For lines of inline text that
    [br] tags separate, whatever attributes the tags carry, each tag becomes
    one line feed and the text stays; the collapse of blank lines and the
    final trim follow.  The pass for bold text takes each [<br] for the
    opening of a [<b>] element and gives up, as no closing tag follows. *)
Theorem line_breaks_render (lines : list (jsstring * jsstring))
    (last : jsstring) :
  Forall brOk lines -> inlineText last = true ->
  convertHtmlToMarkdown (brText lines last)
  = trim (replaceTemplate RE_BLANK_LINES (js "\n\n") (brLines lines last)).
Proof.
  intros Hall Hlast. unfold convertHtmlToMarkdown.
  do 17 unseen_br Hall Hlast.
  rewrite (br_pass lines last Hall Hlast).
  destruct (brLines_plain lines last Hall Hlast) as [Hlt Hamp].
  set (s1 := brLines lines last) in *.
  rewrite (replaceTemplate_without_tag RE_TAG _ s1 eq_refl (noLT_hasTag s1 Hlt)).
  rewrite (replace_without_literal "&amp;" _ s1 (noAmp_includes s1 (js "amp;") Hamp)).
  rewrite (replace_without_literal "&lt;" _ s1 (noAmp_includes s1 (js "lt;") Hamp)).
  rewrite (replace_without_literal "&gt;" _ s1 (noAmp_includes s1 (js "gt;") Hamp)).
  rewrite (replace_without_literal "&quot;" _ s1 (noAmp_includes s1 (js "quot;") Hamp)).
  rewrite (replace_without_literal "&#39;" _ s1 (noAmp_includes s1 (js "#39;") Hamp)).
  reflexivity.
Qed.

Lemma line_breaks_render_witness :
  convertHtmlToMarkdown (js "one<br>two<br class='x' />three")
  = js "one\ntwo\nthree".
Proof.
  refine (eq_trans
            (line_breaks_render
               [(js "one", []); (js "two", js " class='x' /")] (js "three")
               _ _) _).
  - repeat constructor.
  - vm_compute. reflexivity.
  - vm_compute. reflexivity.
Defined.

Section Runs.
Variable tail : jsstring.
Hypothesis Hrest : solidStart tail = true.

Let fl := flags RE_BLANK_LINES.
Let K2 := matcher fl (Atom (Lit LF)) (fun y => Some y).
Let K1 := matcher fl (Seq (Atom (Lit LF)) (Seq (Star Space) (Atom (Lit LF))))
            (fun y => Some y).

Lemma K2_rest (cs : list (nat * jsstring)) :
  K2 {| rest := tail; caps := cs |} = None.
Proof.
  unfold K2. cbn [matcher rest]. destruct tail as [|c r]; [reflexivity|].
  cbn [solidStart] in Hrest. apply negb_true_iff in Hrest.
  destruct (charMatches fl (Lit LF) c) eqn:E; [|reflexivity].
  cbn in E. apply N.eqb_eq in E. subst c. discriminate.
Qed.

Lemma space_rest (k : Continuation) (cs : list (nat * jsstring)) :
  repeatGreedy (charMatches fl Space) k cs tail
  = k {| rest := tail; caps := cs |}.
Proof.
  destruct tail as [|c r]; [reflexivity|].
  cbn [solidStart] in Hrest. apply negb_true_iff in Hrest.
  cbn [repeatGreedy charMatches]. now rewrite Hrest.
Qed.

Lemma K2_run (cs : list (nat * jsstring)) (j : nat) :
  repeatGreedy (charMatches fl Space) K2 cs (repeat LF (S j) ++ tail)
  = Some {| rest := tail; caps := cs |}.
Proof.
  induction j as [|j IH].
  - cbn [repeat app repeatGreedy]. rewrite space_rest, K2_rest. reflexivity.
  - change (repeat LF (S (S j))) with (LF :: repeat LF (S j)).
    cbn [app repeatGreedy]. rewrite IH. reflexivity.
Qed.

Lemma K1_rest (cs : list (nat * jsstring)) :
  K1 {| rest := tail; caps := cs |} = None.
Proof.
  unfold K1. cbn [matcher rest]. destruct tail as [|c r]; [reflexivity|].
  cbn [solidStart] in Hrest. apply negb_true_iff in Hrest.
  destruct (charMatches fl (Lit LF) c) eqn:E; [|reflexivity].
  cbn in E. apply N.eqb_eq in E. subst c. discriminate.
Qed.

Lemma K1_one (cs : list (nat * jsstring)) :
  K1 {| rest := LF :: tail; caps := cs |} = None.
Proof.
  unfold K1. cbn [matcher rest caps].
  change (charMatches fl (Lit LF) LF) with true. cbv iota.
  fold K2. rewrite space_rest. apply K2_rest.
Qed.

Lemma K1_run (cs : list (nat * jsstring)) (j : nat) :
  K1 {| rest := LF :: repeat LF (S j) ++ tail; caps := cs |}
  = Some {| rest := tail; caps := cs |}.
Proof.
  unfold K1. cbn [matcher rest caps].
  change (charMatches fl (Lit LF) LF) with true. cbv iota.
  fold K2. apply K2_run.
Qed.

Lemma K1_runs (cs : list (nat * jsstring)) (j : nat) :
  repeatGreedy (charMatches fl Space) K1 cs (repeat LF (S (S j)) ++ tail)
  = Some {| rest := tail; caps := cs |}.
Proof.
  induction j as [|j IH].
  - cbn [repeat app repeatGreedy]. rewrite space_rest, K1_rest, K1_one.
    change (charMatches fl Space LF) with true. cbv iota.
    exact (K1_run cs 0).
  - change (repeat LF (S (S (S j)))) with (LF :: repeat LF (S (S j))).
    cbn [app repeatGreedy]. rewrite IH. reflexivity.
Qed.

(** A run of three or more line feeds is matched as a whole. *)
Lemma run_match (j : nat) :
  matchAt RE_BLANK_LINES (repeat LF (S (S (S j))) ++ tail)
  = Some {| matched := repeat LF (S (S (S j))); captures := [] |}.
Proof.
  unfold matchAt.
  change (matcher (flags RE_BLANK_LINES) (source RE_BLANK_LINES)
            (fun y => Some y)
            {| rest := repeat LF (S (S (S j))) ++ tail; caps := [] |})
    with (repeatGreedy (charMatches fl Space) K1 []
            (repeat LF (S (S j)) ++ tail)).
  rewrite K1_runs. cbn [rest caps]. now rewrite consumed_app.
Qed.

End Runs.

Lemma blankLines_unseen (s : jsstring) :
  startsBlankLines s = false -> matchAt RE_BLANK_LINES s = None.
Proof.
  intros Hs. destruct (matchAt RE_BLANK_LINES s) as [mr|] eqn:E; [|reflexivity].
  rewrite (blankLines_startsBlankLines s mr E) in Hs. discriminate.
Qed.

Lemma solidStart_needLF (tail : jsstring) (n : nat) :
  solidStart tail = true -> needLF tail (S n) = false.
Proof.
  destruct tail as [|c r]; [reflexivity|]. cbn [solidStart].
  intros H. apply negb_true_iff in H. now apply needLF_solid.
Qed.

(** A run of one or two line feeds is not matched. *)
Lemma run_short (tail : jsstring) (j : nat) :
  solidStart tail = true -> j <= 2 ->
  matchAt RE_BLANK_LINES (repeat LF j ++ tail) = None.
Proof.
  intros Ht Hj. apply blankLines_unseen.
  destruct j as [|[|[|j]]]; [| | |lia]; cbn [repeat app startsBlankLines].
  - destruct tail as [|c r]; [reflexivity|]. cbn [solidStart] in Ht.
    apply negb_true_iff in Ht. cbn [startsBlankLines].
    destruct (c =? LF)%N eqn:E; [|reflexivity].
    apply N.eqb_eq in E. subst c. discriminate.
  - rewrite N.eqb_refl. now rewrite (solidStart_needLF tail 1 Ht).
  - rewrite N.eqb_refl. cbn [needLF andb]. rewrite N.eqb_refl.
    exact (solidStart_needLF tail 0 Ht).
Qed.

Section Collapse.
Variable St : Type.
Variable replacer : St -> MatchResult -> jsstring * St.

Lemma blankLines_inert (l u : jsstring) (st : St) :
  forallb (fun x => negb (x =? LF)%N) l = true ->
  replaceFrom RE_BLANK_LINES replacer st 0 (l ++ u)
  = l ++ replaceFrom RE_BLANK_LINES replacer st 0 u.
Proof.
  induction l as [|c l IH]; [reflexivity|].
  cbn [forallb]. rewrite andb_true_iff, negb_true_iff. intros [Hc Hl].
  cbn [app]. rewrite replaceFrom_none_cons.
  - f_equal. now apply IH.
  - apply blankLines_unseen. cbn [startsBlankLines]. now rewrite Hc.
Qed.

Lemma run_kept (tail : jsstring) (j : nat) (st : St) :
  solidStart tail = true -> j <= 2 ->
  replaceFrom RE_BLANK_LINES replacer st 0 (repeat LF j ++ tail)
  = repeat LF j ++ replaceFrom RE_BLANK_LINES replacer st 0 tail.
Proof.
  intros Ht. induction j as [|j IH]; intros Hj; [reflexivity|].
  cbn [repeat app]. rewrite replaceFrom_none_cons.
  - f_equal. apply IH. lia.
  - exact (run_short tail (S j) Ht Hj).
Qed.

End Collapse.

Lemma plainLine_shape (l : jsstring) :
  plainLine l = true ->
  solidStart l = true /\ l <> []
  /\ forallb (fun x => negb (x =? LF)%N) l = true
  /\ noLT l = true /\ noAmp l = true.
Proof.
  destruct l as [|c w]; [discriminate|]. unfold plainLine.
  rewrite andb_true_iff. intros [Hc Hall].
  split; [exact Hc|]. split; [discriminate|].
  unfold noLT, noAmp. rewrite !forallb_forall in *.
  repeat split; intros x Hx; specialize (Hall x Hx);
    rewrite !andb_true_iff in Hall; tauto.
Qed.

Lemma gapped_solid (ls : list (jsstring * nat)) :
  Forall (fun p => plainLine (fst p) = true) ls ->
  solidStart (gapped ls) = true.
Proof.
  intros Hall. destruct Hall as [|[l n] ls Hl _]; [reflexivity|].
  unfold gapped. cbn [map concat fst snd].
  destruct l as [|c w]; [discriminate|].
  cbn [fst plainLine] in Hl. apply andb_true_iff in Hl as [Hc _].
  exact Hc.
Qed.

Lemma gapped_cons (l : jsstring) (n : nat) (ls : list (jsstring * nat)) :
  gapped ((l, n) :: ls) = l ++ repeat LF n ++ gapped ls.
Proof. unfold gapped. cbn [map concat fst snd]. now rewrite <- app_assoc. Qed.

Lemma capped_cons (l : jsstring) (n : nat) (ls : list (jsstring * nat)) :
  capped ((l, n) :: ls) = l ++ repeat LF (Nat.min n 2) ++ capped ls.
Proof. unfold capped. cbn [map concat fst snd]. now rewrite <- app_assoc. Qed.

(** The collapse of blank lines caps every run of line feeds at two. *)
Lemma collapse_capped (ls : list (jsstring * nat)) :
  Forall (fun p => plainLine (fst p) = true) ls ->
  replaceTemplate RE_BLANK_LINES (js "\n\n") (gapped ls) = capped ls.
Proof.
  unfold replaceTemplate. intros Hall.
  induction Hall as [|[l n] ls Hl Hall IH]; [reflexivity|].
  pose proof (gapped_solid ls Hall) as Hsolid.
  destruct (plainLine_shape l Hl) as [_ [_ [Hlf _]]].
  rewrite gapped_cons, capped_cons.
  rewrite blankLines_inert by exact Hlf.
  f_equal. destruct (le_lt_dec n 2) as [Hn|Hn].
  - rewrite run_kept by assumption. rewrite IH.
    now replace (Nat.min n 2) with n by lia.
  - destruct n as [|[|[|j]]]; try lia.
    rewrite (replaceFrom_match unit RE_BLANK_LINES _ tt tt _
               (repeat LF (S (S (S j)))) (gapped ls) (js "\n\n") _
               (run_match (gapped ls) Hsolid j));
      [|reflexivity|reflexivity|reflexivity|discriminate].
    rewrite IH. reflexivity.
Qed.

Lemma gapped_plain (ls : list (jsstring * nat)) :
  Forall (fun p => plainLine (fst p) = true) ls ->
  noLT (gapped ls) = true /\ noAmp (gapped ls) = true.
Proof.
  intros Hall. induction Hall as [|[l n] ls Hl _ [IH1 IH2]]; [now split|].
  destruct (plainLine_shape l Hl) as [_ [_ [_ [H1 H2]]]].
  rewrite gapped_cons. unfold noLT, noAmp in *. rewrite !forallb_app.
  assert (Hrun : forall f : char16 -> bool,
            f LF = true -> forallb f (repeat LF n) = true).
  { intros f Hf. induction n as [|n IHn]; [reflexivity|].
    cbn [repeat forallb]. now rewrite Hf, IHn. }
  split; apply andb_true_iff; split;
    first [ exact H1 | exact H2
          | apply andb_true_iff; split;
            first [ now apply Hrun | exact IH1 | exact IH2 ] ].
Qed.

(** X30.  Runs of line feeds are capped at two.  For plain text made of
    lines that start with a code unit other than white space and hold no
    line feed, no [<] and no [&], each followed by any number of line feeds,
    the result keeps a run of one or two line feeds, turns a longer run into
    two, and is trimmed at both ends. *)
Theorem blank_lines_capped (ls : list (jsstring * nat)) :
  Forall (fun p => plainLine (fst p) = true) ls ->
  convertHtmlToMarkdown (gapped ls) = trim (capped ls).
Proof.
  intros Hall. destruct (gapped_plain ls Hall) as [Hlt Hamp].
  unfold convertHtmlToMarkdown. rewrite (tag_passes_plain _ Hlt).
  set (s1 := gapped ls) in *.
  rewrite (replace_without_literal "&amp;" _ s1 (noAmp_includes s1 (js "amp;") Hamp)).
  rewrite (replace_without_literal "&lt;" _ s1 (noAmp_includes s1 (js "lt;") Hamp)).
  rewrite (replace_without_literal "&gt;" _ s1 (noAmp_includes s1 (js "gt;") Hamp)).
  rewrite (replace_without_literal "&quot;" _ s1 (noAmp_includes s1 (js "quot;") Hamp)).
  rewrite (replace_without_literal "&#39;" _ s1 (noAmp_includes s1 (js "#39;") Hamp)).
  subst s1. now rewrite (collapse_capped ls Hall).
Qed.

Lemma blank_lines_capped_witness :
  convertHtmlToMarkdown (js "one\n\n\n\n\ntwo words\nthree\n\nfour\n\n\n")
  = js "one\n\ntwo words\nthree\n\nfour".
Proof.
  refine (eq_trans
            (blank_lines_capped
               [(js "one", 5); (js "two words", 1); (js "three", 2);
                (js "four", 3)] _) _).
  - repeat constructor.
  - vm_compute. reflexivity.
Defined.
